(** * CDR library: document access layer and SQL query builder

    A shallow embedding of the parts of [Python/cdrapi/docs.py] (classes
    [Doc], [Resolver] and [Term]) and of [Python/cdrdb2.py] (class [Query])
    that the specification's properties are about, with the properties
    stated and proved on the embedding.

    Conventions.
    - A Python string is a [string]: a sequence of code points below 256.
    - A Python [int] is a [Z].
    - A raised exception is the [Raise] outcome of the [res] type; the
      exception carries the message the source builds.
    - A dictionary is a [gmap]; a table of the database is the list of its
      rows.
    - What the source takes from other modules ([dateutil], the database
      driver, [cdrapi/db.py]) is a variable of the section that uses it.

    Reading of docs.py.  The file is a draft that Python does not accept
    as it stands.  It is read with the repairs that its text calls for:
    [return self._x = e] is the assignment followed by the return of the
    value; in [Doc], a method written without [self] has it, and a name
    that is not bound is the name of the same object that is ([session]
    is [self.session], [label] is [tokens[1]]).  Statements that are
    absent are not supplied.  In [Term] the names [root] and [failure]
    are bound nowhere, and they are left so: reading them raises
    [NameError], as it does when the program runs. *)

From Stdlib Require Import ZArith Lia List Bool Ascii String DecimalString.
From Stdlib Require Import DecimalPos DecimalN.
From stdpp Require Import base option list gmap strings.

Set Warnings "-register-all".

Local Open Scope string_scope.
Local Open Scope Z_scope.

(** * Python values shared by the modules below *)

(** Exceptions.  The source raises plain [Exception(message)] everywhere;
    [TypeError] is what Python raises for an operation on [None], and
    [NameError] what it raises for the reading of a name that is not
    bound. *)
Inductive exn : Type :=
| Exception (msg : string)
| TypeError (msg : string)
| NameError (msg : string).

(** [str(e)] *)
Definition str_exn (e : exn) : string :=
  match e with
  | Exception msg => msg
  | TypeError msg => msg
  | NameError msg => msg
  end.

(** Outcome of a call that returns a value or raises. *)
Inductive res (A : Type) : Type :=
| Ok (a : A)
| Raise (e : exn).
Arguments Ok {A} a.
Arguments Raise {A} e.

Definition bind {A B : Type} (m : res A) (k : A -> res B) : res B :=
  match m with
  | Ok a => k a
  | Raise e => Raise e
  end.

Notation "'let*' p ':=' m 'in' k" := (bind m (fun p => k))
  (at level 10, p pattern, m at level 100, k at level 200).

(** * String primitives of Python used by the source *)

Module Py.

Definition is_upper (c : ascii) : bool :=
  let n := nat_of_ascii c in ((65 <=? n) && (n <=? 90))%nat.

Definition is_lower (c : ascii) : bool :=
  let n := nat_of_ascii c in ((97 <=? n) && (n <=? 122))%nat.

Definition lower_char (c : ascii) : ascii :=
  if is_upper c then ascii_of_nat (nat_of_ascii c + 32) else c.

Definition upper_char (c : ascii) : ascii :=
  if is_lower c then ascii_of_nat (nat_of_ascii c - 32) else c.

(** [s.lower()] and [s.upper()] (on the letters a-z and A-Z) *)
Fixpoint lower (s : string) : string :=
  match s with
  | EmptyString => EmptyString
  | String c s' => String (lower_char c) (lower s')
  end.

Fixpoint upper (s : string) : string :=
  match s with
  | EmptyString => EmptyString
  | String c s' => String (upper_char c) (upper s')
  end.

(** [s.startswith(p)] *)
Fixpoint startswith (p s : string) : bool :=
  match p, s with
  | EmptyString, _ => true
  | String a p', String b s' => if Ascii.eqb a b then startswith p' s' else false
  | String _ _, EmptyString => false
  end.

(** [p in s] for strings *)
Fixpoint contains (p s : string) : bool :=
  startswith p s ||
  match s with
  | EmptyString => false
  | String _ s' => contains p s'
  end.

(** [s.split(sep, 1)] for a separator of one character: the text before
    the first separator and, when there is one, the text after it. *)
Fixpoint split1 (sep : ascii) (s : string) : string * option string :=
  match s with
  | EmptyString => (EmptyString, None)
  | String c s' =>
      if Ascii.eqb c sep then (EmptyString, Some s')
      else let '(h, t) := split1 sep s' in (String c h, t)
  end.

(** [s.split(sep)] for a separator of one character *)
Fixpoint split (sep : ascii) (s : string) : list string :=
  match s with
  | EmptyString => [EmptyString]
  | String c s' =>
      if Ascii.eqb c sep then EmptyString :: split sep s'
      else match split sep s' with
           | h :: t => String c h :: t
           | [] => [String c EmptyString]
           end
  end.

(** [s.count(c)] for a string of one character *)
Fixpoint count (c : ascii) (s : string) : Z :=
  match s with
  | EmptyString => 0
  | String a s' => (if Ascii.eqb a c then 1 else 0) + count c s'
  end.

(** [sep.join(l)] *)
Fixpoint join (sep : string) (l : list string) : string :=
  match l with
  | [] => EmptyString
  | [x] => x
  | x :: l' => x +:+ sep +:+ join sep l'
  end.

(** truth value of a string: the empty string is false *)
Definition truthy (s : string) : bool :=
  match s with
  | EmptyString => false
  | String _ _ => true
  end.

(** white space of a byte string: space, [\t], [\n], [\v], [\f], [\r] *)
Definition is_whitespace (c : ascii) : bool :=
  let n := nat_of_ascii c in (((9 <=? n) && (n <=? 13)) || (n =? 32))%nat.

(** [s.split()] of a byte string: the words between runs of white space;
    [cur] is the word being read. *)
Fixpoint words_from (cur : string) (s : string) : list string :=
  match s with
  | EmptyString => if truthy cur then [cur] else []
  | String c rest =>
      if is_whitespace c then
        if truthy cur then cur :: words_from EmptyString rest
        else words_from EmptyString rest
      else words_from (cur +:+ String c EmptyString) rest
  end.

Definition words (s : string) : list string := words_from EmptyString s.

(** [s.strip()] of a byte string *)
Fixpoint lstrip (s : string) : string :=
  match s with
  | EmptyString => EmptyString
  | String c rest => if is_whitespace c then lstrip rest else s
  end.

Fixpoint rstrip (s : string) : string :=
  match s with
  | EmptyString => EmptyString
  | String c rest =>
      let rest' := rstrip rest in
      if is_whitespace c && negb (truthy rest') then EmptyString
      else String c rest'
  end.

Definition strip (s : string) : string := rstrip (lstrip s).

End Py.

(** * [Resolver]: the gate of the [sql-query] function (docs.py) *)

Module Resolver.

(** The pieces of the regular expression [UNSAFE]: a literal character,
    [\s], and the class [[(\s]]. *)
Inductive atom : Type :=
| Lit (c : ascii)
| Space
| ParenOrSpace.

(** [\s] of a [str] pattern, on the code points below 256 *)
Definition is_space (c : ascii) : bool :=
  let n := nat_of_ascii c in
  (((9 <=? n) && (n <=? 13)) || ((28 <=? n) && (n <=? 32))
   || (n =? 133) || (n =? 160))%nat.

Definition atom_matches (a : atom) (c : ascii) : bool :=
  match a with
  | Lit l => Ascii.eqb l c
  | Space => is_space c
  | ParenOrSpace => Ascii.eqb c "("%char || is_space c
  end.

Fixpoint lits (s : string) : list atom :=
  match s with
  | EmptyString => []
  | String c s' => Lit c :: lits s'
  end.

(** The pattern as the source writes it.  The two adjacent literals are
    concatenated by Python before [re.compile] sees them, and no [|]
    separates [alter\s] from [exec[(\s]]: the fifth alternative is
    [alter\sexec[(\s]].  No flag is passed to [re.compile]. *)
Definition UNSAFE : list (list atom) :=
  [ lits "insert" ++ [Space];
    lits "update" ++ [Space];
    lits "delete" ++ [Space];
    lits "create" ++ [Space];
    lits "alter" ++ [Space] ++ lits "exec" ++ [ParenOrSpace];
    lits "execute" ++ [ParenOrSpace] ]%list.

(** does the sequence of atoms match a prefix of [s]? *)
Fixpoint match_here (p : list atom) (s : string) : bool :=
  match p, s with
  | [], _ => true
  | a :: p', String c s' => atom_matches a c && match_here p' s'
  | _ :: _, EmptyString => false
  end.

(** [pattern.search(s)] as a truth value: some alternative matches at
    some position *)
Fixpoint search (alts : list (list atom)) (s : string) : bool :=
  existsb (fun p => match_here p s) alts ||
  match s with
  | EmptyString => false
  | String _ s' => search alts s'
  end.

Definition DISALLOWED : exn :=
  Exception "query contains disallowed sql keywords".
Definition WRONG_COUNT : exn :=
  Exception "wrong number of sql query placeholder values".

(** [s.replace("?", p)] *)
Fixpoint replace_qmark (p s : string) : string :=
  match s with
  | EmptyString => EmptyString
  | String c s' =>
      if Ascii.eqb c "?"%char then p +:+ replace_qmark p s'
      else String c (replace_qmark p s')
  end.

Section RunSqlQuery.

(** [db.Query.PLACEHOLDER], declared in [cdrapi/db.py] *)
Variable PLACEHOLDER : string.

(** [run_sql_query] up to and including the call of
    [self.cursor.execute]: the result is the statement and the values
    handed to the cursor, or the exception raised before that. *)
Definition run_sql_query (args : string) : res (string * list string) :=
  let '(query, values) :=
    if Py.contains "~" args then
      match Py.split1 "~"%char args with
      | (q, Some v) => (q, Py.split "~"%char v)
      | (q, None) => (q, [])
      end
    else (args, []) in
  if search UNSAFE query then Raise DISALLOWED
  else if negb (Py.count "?"%char query =? Z.of_nat (length values))
       then Raise WRONG_COUNT
  else
    let query :=
      if negb (String.eqb PLACEHOLDER "?") then replace_qmark PLACEHOLDER query
      else query in
    Ok (query, values).

End RunSqlQuery.

End Resolver.

(** * [Doc]: version resolution and locking (docs.py) *)

Module Docs.

(** ** The tables the modelled methods read *)

(** The [publishable] column of [doc_version] holds ['Y'] or ['N']. *)
Inductive flag : Type := Y | N.

Definition flag_eqb (a b : flag) : bool :=
  match a, b with
  | Y, Y | N, N => true
  | _, _ => false
  end.

(** A row of [doc_version]: document id, version number, creation time
    and publishable flag. *)
Record version_row : Type := mk_version_row {
  v_id : Z;
  v_num : Z;
  v_dt : Z;
  v_publishable : flag
}.

(** A row of [checkout]: document id, account holding the lock, time of
    the checkout and, once the lock is released, time of the checkin. *)
Record checkout_row : Type := mk_checkout_row {
  c_id : Z;
  c_usr : Z;
  c_dt_out : Z;
  c_dt_in : option Z
}.

Record database : Type := mk_database {
  doc_version : list version_row;
  checkout : list checkout_row
}.

(** [MAX(num)] over the selected rows: [NULL] when there is none. *)
Fixpoint sql_max (l : list Z) : option Z :=
  match l with
  | [] => None
  | x :: l' =>
      match sql_max l' with
      | None => Some x
      | Some m => Some (Z.max x m)
      end
  end.

(** [cursor.fetchone()] after a [SELECT MAX(...)] without [GROUP BY]: the
    result set of an aggregate always has exactly one row, whose column
    is [NULL] when no row was selected. *)
Definition fetchone_aggregate (m : option Z) : option (list (option Z)) :=
  Some [m].

(** [row[0]] *)
Definition row0 (row : list (option Z)) : option Z :=
  match row with
  | x :: _ => x
  | [] => None
  end.

(** ** The object *)

(** A value of the [version] option: [None], an [int] or a [str]. *)
Inductive pyval : Type :=
| PyNone
| PyInt (n : Z)
| PyStr (s : string).

(** [not v] *)
Definition falsy (v : pyval) : bool :=
  match v with
  | PyNone => true
  | PyInt n => n =? 0
  | PyStr s => negb (Py.truthy s)
  end.

(** The session behind a [Doc]: the account and what it may do
    ([session.can_do(action, doctype)]). *)
Record Session : Type := mk_Session {
  user_id : Z;
  can_do : string -> string -> bool
}.

(** A [Doc]: the session, the [id] and [version] options, the document
    type, and the attributes [_version] and [_last_version] in which the
    properties [version] and [last_version] cache their answers ([None]
    while the attribute is not set). *)
Record Doc : Type := mk_Doc {
  session : Session;
  id : Z;
  opt_version : pyval;
  doctype : string;
  _version : option (option Z);
  _last_version : option (option Z)
}.

Definition set__version (self : Doc) (v : option Z) : Doc :=
  {| session := session self; id := id self; opt_version := opt_version self;
     doctype := doctype self; _version := Some v;
     _last_version := _last_version self |}.

Definition set__last_version (self : Doc) (v : option Z) : Doc :=
  {| session := session self; id := id self; opt_version := opt_version self;
     doctype := doctype self; _version := _version self;
     _last_version := Some v |}.

Definition NOT_VERSIONED : string := "document not versioned".
Definition NO_PUBLISHABLE_VERSIONS : string := "no publishable version found".

Section Version.

(** [dateutil.parser.parse], [None] when it raises *)
Variable parse_date : string -> option Z.
(** [int(s)] for a string, [None] when it raises *)
Variable int_of_str : string -> option Z.
(** [__get_labeled_version(label)] for the document with the given id; it
    reads the tables of the version labels, which are not modelled *)
Variable get_labeled_version : Z -> string -> res (option Z).

Variable db : database.

(** [last_version]: the value of the attribute [_last_version] when it
    is set; otherwise [None] for a document without id and the answer of
    [SELECT MAX(num) FROM doc_version WHERE id = ?] for the others, kept
    in the attribute.  The result is the value returned together with
    the object after the call. *)
Definition last_version (self : Doc) : option Z * Doc :=
  match _last_version self with
  | Some v => (v, self)
  | None =>
      let v :=
        if id self =? 0 then None
        else
          let rows := filter (fun r => v_id r =? id self) (doc_version db) in
          match fetchone_aggregate (sql_max (map v_num rows)) with
          | Some row => row0 row
          | None => None
          end in
      (v, set__last_version self v)
  end.

(** [last_publishable_version]:
    [SELECT MAX(num) FROM doc_version WHERE id = ? AND publishable = 'Y'] *)
Definition last_publishable_version (self : Doc) : option Z :=
  if id self =? 0 then None
  else
    let rows :=
      filter (fun r => (v_id r =? id self) && flag_eqb (v_publishable r) Y)
             (doc_version db) in
    match fetchone_aggregate (sql_max (map v_num rows)) with
    | Some row => row0 row
    | None => None
    end.

(** [__get_version_before(before)] for a string, [publishable] left at
    its default:
    [SELECT MAX(num) FROM doc_version WHERE id = ? AND dt < ?] *)
Definition get_version_before (self : Doc) (before : string) : res (option Z) :=
  match parse_date before with
  | None => Raise (Exception "unrecognized date/time format")
  | Some when =>
      let rows :=
        filter (fun r => (v_id r =? id self) && (v_dt r <? when))
               (doc_version db) in
      match fetchone_aggregate (sql_max (map v_num rows)) with
      | None => Raise (Exception "no version before")
      | Some row => Ok (row0 row)
      end
  end.

(** [not version] for the integer or [None] a query hands back *)
Definition no_version (v : option Z) : bool :=
  match v with
  | None => true
  | Some n => n =? 0
  end.

(** The [version] property.  [return self._version = e] is read as the
    assignment followed by the return of the value assigned, and the
    argument [label] of the call of [__get_labeled_version] as
    [tokens[1]].  The result is the value returned together with the
    object after the call. *)
Definition version (self : Doc) : res (option Z * Doc) :=
  let ret v := Ok (v, set__version self v) in
  match _version self with
  | Some v => Ok (v, self)
  | None =>
      if id self =? 0 then ret None
      else if falsy (opt_version self) then ret None
      else
        match opt_version self with
        | PyNone => ret None
        | PyInt n => ret (if 0 <? n then Some n else None)
        | PyStr s =>
            let version := Py.lower s in
            if String.eqb version "current" then ret None
            else if String.eqb version "last" || String.eqb version "lastversion" then
              let '(v, self1) := last_version self in
              if no_version v then Raise (Exception NOT_VERSIONED)
              else Ok (v, set__version self1 v)
            else if Py.startswith "lastp" version then
              let v := last_publishable_version self in
              if no_version v then Raise (Exception NO_PUBLISHABLE_VERSIONS)
              else ret v
            else if Py.startswith "before " version then
              match Py.split1 " "%char version with
              | (_, Some date) =>
                  let* v := get_version_before self date in ret v
              | (_, None) => Raise (Exception "missing date for version specifier")
              end
            else if Py.startswith "label " version then
              match Py.split1 " "%char version with
              | (_, Some label) =>
                  let* v := get_labeled_version (id self) label in ret v
              | (_, None) => Raise (Exception "missing token for version specifier")
              end
            else
              match int_of_str version with
              | Some n => ret (Some n)
              | None => Raise (Exception ("invalid version spec " +:+ version))
              end
        end
  end.

End Version.

(** ** Locking *)

(** [unlock]: the body of the method is its docstring; the call
    returns [None] and touches nothing. *)
Definition unlock (self : Doc) (abandon force : bool) (db : database)
  : res unit * database :=
  (Ok tt, db).

(** [x IS NULL] *)
Definition is_null {A : Type} (x : option A) : bool :=
  match x with
  | None => true
  | Some _ => false
  end.

(** The open lock of a document:
    [SELECT usr, dt_out FROM checkout WHERE id = ? AND dt_in IS NULL],
    then [fetchone()]. *)
Definition open_lock (self : Doc) (db : database) : option checkout_row :=
  head (filter (fun r => (c_id r =? id self) && is_null (c_dt_in r))
               (checkout db)).

(** [lock].  The names [self] and [session], which the method
    uses without binding them, are read as the document and its session,
    and [self.user_id] as the account of that session. *)
Definition lock (self : Doc) (force : bool) (db : database)
  : res unit * database :=
  if negb (can_do (session self) "MODIFY DOCUMENT" (doctype self)) then
    (Raise (Exception "User not authorized to modify document"), db)
  else
    match open_lock self db with
    | Some row =>
        if c_usr row =? user_id (session self) then (Ok tt, db)
        else if force then
          if negb (can_do (session self) "FORCE CHECKOUT" (doctype self)) then
            (Raise (Exception "User not authorized to force checkout"), db)
          else unlock self true true db
        else (Ok tt, db)
    | None => (Ok tt, db)
    end.

End Docs.

(** * [Term]: the term hierarchy and its class-wide cache (docs.py) *)

Module Terms.

Definition MAX_DEPTH : Z := 15.

(** [datetime.timedelta(1)]: one day, in microseconds *)
Definition MAX_CACHE_AGE : Z := 86400000000.

(** A [Term] object: the fields [__init__] fills from the document.  The
    serialized forms [xml] and [full_xml] are not modelled. *)
Inductive Term : Type := mk_Term {
  doc_id : Z;
  name : option string;
  pdq_key : option string;
  include : bool;
  parents : gmap Z Term
}.

(** The content of the last publishable version of a term document:
    the text of [PreferredName] and of [PdqKey] (when the element is
    there), the texts of the [TermType/TermTypeName] elements, which
    [Term.__init__] reads, and for each
    [TermRelationship/ParentTerm/TermId] element the id its [cdr:ref]
    attribute holds ([None] when [Doc.extract_id] raises on it). *)
Record term_doc : Type := mk_term_doc {
  PreferredName : option string;
  PdqKey : option string;
  TermTypeNames : list string;
  ParentTermIds : list (option Z)
}.

(** The attributes of the class [Term], the number of readings of the
    clock so far, and whether [Term.lock] is held. *)
Record cls : Type := mk_cls {
  use_cache : Z;
  terms : gmap Z (option Term);
  cache_started : option Z;
  ticks : nat;
  locked : bool
}.

(** The class as the module creates it *)
Definition initial : cls :=
  {| use_cache := 0; terms := ∅; cache_started := None; ticks := 0%nat;
     locked := false |}.

(** How a call ends: it returns, it raises, it blocks for ever on
    [Term.lock] ([threading.Lock] cannot be acquired twice, not even by
    the thread that holds it), or the model ran out of fuel. *)
Inductive outcome (A : Type) : Type :=
| Ret (a : A) (c : cls)
| Exc (e : exn) (c : cls)
| Hang (c : cls)
| OutOfFuel.
Arguments Ret {A} a c.
Arguments Exc {A} e c.
Arguments Hang {A} c.
Arguments OutOfFuel {A}.

Definition set_locked (b : bool) (c : cls) : cls :=
  {| use_cache := use_cache c; terms := terms c;
     cache_started := cache_started c; ticks := ticks c; locked := b |}.

Definition DEPTH_EXCEEDED : exn :=
  Exception "term hierarchy depth exceeded at CDR()".

(** ["%010d" % n]: the decimal digits, with zeros up to a width of ten
    characters, the sign included *)
Definition zero_padded (n : Z) : string :=
  let digits := NilZero.string_of_uint (N.to_uint (Z.to_N (Z.abs n))) in
  let sign := if n <? 0 then "-" else "" in
  let width := (10 - String.length sign - String.length digits)%nat in
  sign +:+ String.concat "" (repeat "0" width) +:+ digits.

(** [self.cdr_id] *)
Definition cdr_id (doc_id : Z) : string := "CDR" +:+ zero_padded doc_id.

(** truth value of [self.name]: [None] and the empty string are false *)
Definition has_name (n : option string) : bool :=
  match n with
  | Some s => Py.truthy s
  | None => false
  end.

Section WithWorld.

(** [datetime.datetime.now()] at its n-th reading, in microseconds *)
Variable clock : nat -> Z.

(** [Doc(session, id=doc_id, version="lastp")] and the reading of its
    parsed XML: the content above, or the exception the document raises
    (with the message [Doc.NO_PUBLISHABLE_VERSIONS] when the document has
    no publishable version). *)
Variable load : Z -> res term_doc.

(** [Term.set_cache(on)] *)
Definition set_cache (on : bool) (c : cls) : outcome bool :=
  if locked c then Hang c
  else
    let previous_state := 0 <? use_cache c in
    if on then
      let n := use_cache c + 1 in
      if negb previous_state then
        Ret previous_state
            {| use_cache := n; terms := terms c;
               cache_started := Some (clock (ticks c));
               ticks := S (ticks c); locked := false |}
      else
        Ret previous_state
            {| use_cache := n; terms := terms c;
               cache_started := cache_started c;
               ticks := ticks c; locked := false |}
    else
      let n := use_cache c - 1 in
      let n := if n <? 0 then 0 else n in
      Ret previous_state
          {| use_cache := n;
             terms := if n =? 0 then ∅ else terms c;
             cache_started := cache_started c;
             ticks := ticks c; locked := false |}.

(** [while cls.use_cache: cls.set_cache(False)]; every turn that returns
    brings the counter one closer to zero, or to zero at once. *)
Fixpoint drain (fuel : nat) (c : cls) : outcome unit :=
  if use_cache c =? 0 then Ret tt c
  else
    match fuel with
    | O => OutOfFuel
    | S fuel' =>
        match set_cache false c with
        | Ret _ c' => drain fuel' c'
        | Exc e c' => Exc e c'
        | Hang c' => Hang c'
        | OutOfFuel => OutOfFuel
        end
    end.

(** The first [with cls.lock] block of [get_term]: the answer of the
    cache ([Some t] when the block returns [t]) *)
Definition lookup_cache (doc_id : Z) (c : cls)
  : outcome (option (option Term)) :=
  if locked c then Hang c
  else
    let c := set_locked true c in
    let found (c : cls) :=
      match terms c !! doc_id with
      | Some t => Ret (Some t) (set_locked false c)
      | None => Ret None (set_locked false c)
      end in
    if negb (use_cache c =? 0) then
      let now := clock (ticks c) in
      let c :=
        {| use_cache := use_cache c; terms := terms c;
           cache_started := cache_started c; ticks := S (ticks c);
           locked := locked c |} in
      match cache_started c with
      | None =>
          Exc (TypeError "unsupported operand type(s) for -: 'datetime.datetime' and 'NoneType'")
              (set_locked false c)
      | Some started =>
          let cache_age := now - started in
          if MAX_CACHE_AGE <? cache_age then
            match drain (S (Z.to_nat (use_cache c))) c with
            | Ret _ c' => found c'
            | Exc e c' => Exc e (set_locked false c')
            | Hang c' => Hang c'
            | OutOfFuel => OutOfFuel
            end
          else found c
      end
    else found c.

(** The second [with cls.lock] block of [get_term] *)
Definition store_cache (doc_id : Z) (term : option Term) (c : cls)
  : outcome (option Term) :=
  if locked c then Hang c
  else if negb (use_cache c =? 0) && negb (bool_decide (is_Some (terms c !! doc_id)))
  then Ret term
           {| use_cache := use_cache c; terms := <[doc_id := term]> (terms c);
              cache_started := cache_started c; ticks := ticks c;
              locked := false |}
  else Ret term c.

(** [self.parents.update(parent.parents); self.parents[doc_id] = parent] *)
Definition add_parent (self : Term) (pid : Z) (parent : Term) : Term :=
  {| doc_id := doc_id self; name := name self; pdq_key := pdq_key self;
     include := include self;
     parents := <[pid := parent]> (parents parent ∪ parents self) |}.

(** [except Exception as e] of [__init__] *)
Definition handle (e : exn) (self : Term) (c : cls) : outcome Term :=
  if Py.contains Docs.NO_PUBLISHABLE_VERSIONS (str_exn e) then Ret self c
  else Exc e c.

Definition excluded (type_name : string) : bool :=
  String.eqb type_name "Header term" || String.eqb type_name "Obsolete term".

(** What the reading of the name [root] raises *)
Definition ROOT_UNBOUND : exn := NameError "name 'root' is not defined".

(** [Term(session, doc_id, depth)].  When the document has been read,
    the header of the second loop, [for node in root.findall(...)],
    reads the name [root], which is bound nowhere: it raises [NameError]
    before [get_parent] is called for any node, and the handler, which
    does not find the message of [Doc.NO_PUBLISHABLE_VERSIONS] in it,
    raises it again. *)
Definition Term_init (doc_id : Z) (depth : Z) (c : cls) : outcome Term :=
  let self :=
    {| doc_id := doc_id; name := None; pdq_key := None; include := true;
       parents := ∅ |} in
  match load doc_id with
  | Raise e => handle e self c
  | Ok doc =>
      let self :=
        {| doc_id := doc_id; name := PreferredName doc;
           pdq_key := PdqKey doc;
           include := negb (existsb excluded (TermTypeNames doc));
           parents := ∅ |} in
      handle ROOT_UNBOUND self c
  end.

(** [Term.get_term(session, doc_id, depth)] *)
Definition get_term (doc_id depth : Z) (c : cls) : outcome (option Term) :=
  if MAX_DEPTH <? depth then Exc DEPTH_EXCEEDED c
  else
    match lookup_cache doc_id c with
    | Ret (Some t) c' => Ret t c'
    | Ret None c' =>
        match Term_init doc_id depth c' with
        | Ret term c'' =>
            let term := if has_name (name term) then Some term else None in
            store_cache doc_id term c''
        | Exc e c'' => Exc e c''
        | Hang c'' => Hang c''
        | OutOfFuel => OutOfFuel
        end
    | Exc e c' => Exc e c'
    | Hang c' => Hang c'
    | OutOfFuel => OutOfFuel
    end.

(** [get_parent(node, depth)]: the term after the call; [node] is the id
    that [Doc.extract_id] reads from the [cdr:ref] attribute, [None]
    when it raises.  The handler builds its message in [error] and then
    reads the name [failure], which is bound nowhere. *)
Definition get_parent (self : Term) (node : option Z) (depth : Z) (c : cls)
  : outcome Term :=
  match node with
  | None => Exc (NameError "name 'failure' is not defined") c
  | Some pid =>
      if bool_decide (is_Some (parents self !! pid)) then Ret self c
      else
        match get_term pid (depth + 1) c with
        | Ret (Some parent) c' => Ret (add_parent self pid parent) c'
        | Ret None c' => Ret self c'
        | Exc e c' => Exc e c'
        | Hang c' => Hang c'
        | OutOfFuel => OutOfFuel
        end
  end.

End WithWorld.

End Terms.

(** * [Query]: the builder of SQL select statements (cdrdb2.py) *)

Module Db.

Definition DEFAULT_TIMEOUT : Z := 120.

(** A value handed to the database engine for a placeholder. *)
Inductive value : Type :=
| VNone
| VInt (n : Z)
| VStr (s : string).

(** The objects of the builder.  A [Query] carries the attributes
    [__init__] creates ([_cursor], a handle of the driver, is left out)
    and [_indent], which [__str__] adds.  A query used inside another one
    (as table, as joined table, as right-hand side of a test or in a
    union) is a sub-tree here: an object that occurs at two places is two
    equal sub-trees. *)
Inductive Query : Type :=
| mk_Query (table : source) (columns : list string) (joins : list Join)
    (where_ : list Condition) (group : list string)
    (having : list Condition) (order : list string) (parms : list value)
    (unions : list Query) (timeout : Z) (alias : option string)
    (into : option string) (limit : option Z) (unique : bool)
    (str : option string) (outer : bool) (as_dict : bool)
    (indent : option nat)
(** the [table] argument: a name (with its alias) or a query *)
with source : Type :=
| Plain (name : string)
| Virtual (q : Query)
(** [Query.Join] *)
with Join : Type :=
| mk_Join (table : source) (outer : bool) (conditions : list Condition)
(** a condition: a string of SQL, a [Query.Condition] or a [Query.Or] *)
with Condition : Type :=
| Text (sql : string)
| Cond (column : string) (value : operand) (test : string)
| Or (conditions : list or_arg)
(** the [value] of a [Query.Condition]: a query, a list or tuple of
    values, or one value *)
with operand : Type :=
| Nested (q : Query)
| Values (l : list value)
| Single (v : value)
(** an argument of [Query.Or] or of [join]: a condition, or a list or
    tuple of conditions *)
with or_arg : Type :=
| One (c : Condition)
| Seq (l : list Condition).

Definition _table (q : Query) : source :=
  match q with mk_Query t _ _ _ _ _ _ _ _ _ _ _ _ _ _ _ _ _ => t end.
Definition _columns (q : Query) : list string :=
  match q with mk_Query _ c _ _ _ _ _ _ _ _ _ _ _ _ _ _ _ _ => c end.
Definition _joins (q : Query) : list Join :=
  match q with mk_Query _ _ j _ _ _ _ _ _ _ _ _ _ _ _ _ _ _ => j end.
Definition _where (q : Query) : list Condition :=
  match q with mk_Query _ _ _ w _ _ _ _ _ _ _ _ _ _ _ _ _ _ => w end.
Definition _group (q : Query) : list string :=
  match q with mk_Query _ _ _ _ g _ _ _ _ _ _ _ _ _ _ _ _ _ => g end.
Definition _having (q : Query) : list Condition :=
  match q with mk_Query _ _ _ _ _ h _ _ _ _ _ _ _ _ _ _ _ _ => h end.
Definition _order (q : Query) : list string :=
  match q with mk_Query _ _ _ _ _ _ o _ _ _ _ _ _ _ _ _ _ _ => o end.
Definition _parms (q : Query) : list value :=
  match q with mk_Query _ _ _ _ _ _ _ p _ _ _ _ _ _ _ _ _ _ => p end.
Definition _unions (q : Query) : list Query :=
  match q with mk_Query _ _ _ _ _ _ _ _ u _ _ _ _ _ _ _ _ _ => u end.
Definition _timeout (q : Query) : Z :=
  match q with mk_Query _ _ _ _ _ _ _ _ _ t _ _ _ _ _ _ _ _ => t end.
Definition _alias (q : Query) : option string :=
  match q with mk_Query _ _ _ _ _ _ _ _ _ _ a _ _ _ _ _ _ _ => a end.
Definition _into (q : Query) : option string :=
  match q with mk_Query _ _ _ _ _ _ _ _ _ _ _ i _ _ _ _ _ _ => i end.
Definition _limit (q : Query) : option Z :=
  match q with mk_Query _ _ _ _ _ _ _ _ _ _ _ _ l _ _ _ _ _ => l end.
Definition _unique (q : Query) : bool :=
  match q with mk_Query _ _ _ _ _ _ _ _ _ _ _ _ _ u _ _ _ _ => u end.
Definition _str (q : Query) : option string :=
  match q with mk_Query _ _ _ _ _ _ _ _ _ _ _ _ _ _ s _ _ _ => s end.
Definition _outer (q : Query) : bool :=
  match q with mk_Query _ _ _ _ _ _ _ _ _ _ _ _ _ _ _ o _ _ => o end.
Definition _as_dict (q : Query) : bool :=
  match q with mk_Query _ _ _ _ _ _ _ _ _ _ _ _ _ _ _ _ d _ => d end.
Definition _indent (q : Query) : option nat :=
  match q with mk_Query _ _ _ _ _ _ _ _ _ _ _ _ _ _ _ _ _ i => i end.

(** [Query(table, *columns)] *)
Definition Query__init__ (table : source) (columns : list string) : Query :=
  mk_Query table columns [] [] [] [] [] [] [] DEFAULT_TIMEOUT None None None
           false None false false None.

(** ** The methods that change a query; each one ends with
    [self._str = None] and returns the query *)

(** [_add_sequence_or_value(to_be_added, collection)] *)
Definition _add_sequence_or_value {A : Type} (to_be_added : A + list A)
  (collection : list A) : list A :=
  match to_be_added with
  | inl x => collection ++ [x]
  | inr l => collection ++ l
  end.

Definition arg_conditions (a : or_arg) : Condition + list Condition :=
  match a with
  | One c => inl c
  | Seq l => inr l
  end.

(** [Query.Join(table, outer, *conditions)] *)
Definition Join__init__ (table : source) (outer : bool)
  (conditions : list or_arg) : Join :=
  mk_Join table outer
    (fold_left (fun acc a => _add_sequence_or_value (arg_conditions a) acc)
               conditions []).

Definition join (table : source) (conditions : list or_arg) (q : Query) : Query :=
  match q with
  | mk_Query t c j w g h o p u to a i l un _ ou ad ind =>
      mk_Query t c (j ++ [Join__init__ table false conditions])
               w g h o p u to a i l un None ou ad ind
  end.

Definition outer (table : source) (conditions : list or_arg) (q : Query) : Query :=
  match q with
  | mk_Query t c j w g h o p u to a i l un _ _ ad ind =>
      mk_Query t c (j ++ [Join__init__ table true conditions])
               w g h o p u to a i l un None true ad ind
  end.

Definition where_ (condition : Condition) (q : Query) : Query :=
  match q with
  | mk_Query t c j w g h o p u to a i l un _ ou ad ind =>
      mk_Query t c j (w ++ [condition]) g h o p u to a i l un None ou ad ind
  end.

Definition group (columns : list (string + list string)) (q : Query) : Query :=
  match q with
  | mk_Query t c j w g h o p u to a i l un _ ou ad ind =>
      mk_Query t c j w
               (fold_left (fun acc x => _add_sequence_or_value x acc) columns g)
               h o p u to a i l un None ou ad ind
  end.

Definition having (condition : Condition) (q : Query) : Query :=
  match q with
  | mk_Query t c j w g h o p u to a i l un _ ou ad ind =>
      mk_Query t c j w g (h ++ [condition]) o p u to a i l un None ou ad ind
  end.

Definition union (query : Query) (q : Query) : Query :=
  match q with
  | mk_Query t c j w g h o p u to a i l un _ ou ad ind =>
      mk_Query t c j w g h o p (u ++ [query]) to a i l un None ou ad ind
  end.

(** [limit(limit)] for an argument of type [int] *)
Definition limit (n : Z) (q : Query) : Query :=
  match q with
  | mk_Query t c j w g h o p u to a i _ un _ ou ad ind =>
      mk_Query t c j w g h o p u to a i (Some n) un None ou ad ind
  end.

Section Order.

(** [repr(s)] for a string *)
Variable repr : string -> string.

(** The second loop of [order]: a column of more than two words, or whose
    second word is neither [ASC] nor [DESC], is refused. *)
Fixpoint order_columns (temp : list string) (_order : list string)
  : res (list string) :=
  match temp with
  | [] => Ok _order
  | column :: rest =>
      let column := Py.strip column in
      let ws := Py.words column in
      let invalid := Exception ("invalid order column " +:+ repr column) in
      match ws with
      | _ :: _ :: _ :: _ => Raise invalid
      | [_; direction] =>
          if String.eqb (Py.upper direction) "ASC"
             || String.eqb (Py.upper direction) "DESC"
          then order_columns rest (_order ++ [Py.join " " ws])
          else Raise invalid
      | _ => order_columns rest (_order ++ [Py.join " " ws])
      end
  end.

(** [order] for columns that are strings.  The columns accepted before a
    refused one are already in [_order] when the exception is raised; the
    outcome [Raise] does not keep the query. *)
Definition order (columns : list string) (q : Query) : res Query :=
  match q with
  | mk_Query t c j w g h o p u to a i l un _ ou ad ind =>
      let* o' := order_columns columns o in
      Ok (mk_Query t c j w g h o' p u to a i l un None ou ad ind)
  end.

End Order.

Definition unique (q : Query) : Query :=
  match q with
  | mk_Query t c j w g h o p u to a i l _ _ ou ad ind =>
      mk_Query t c j w g h o p u to a i l true None ou ad ind
  end.

Definition alias (name : string) (q : Query) : Query :=
  match q with
  | mk_Query t c j w g h o p u to _ i l un _ ou ad ind =>
      mk_Query t c j w g h o p u to (Some name) i l un None ou ad ind
  end.

Definition into (name : string) (q : Query) : Query :=
  match q with
  | mk_Query t c j w g h o p u to a _ l un _ ou ad ind =>
      mk_Query t c j w g h o p u to a (Some name) l un None ou ad ind
  end.

(** [Query.Condition(col, val, test)]: the constructor stores its three
    arguments. *)
Definition Condition__init__ (col : string) (val : operand) (test : string)
  : res Condition :=
  Ok (Cond col val test).

(** ** Layout helpers *)

Fixpoint spaces (n : nat) : string :=
  match n with
  | O => EmptyString
  | S n' => String " "%char (spaces n')
  end.

(** [s[-n:]] *)
Definition last_chars (n : nat) (s : string) : string :=
  if (n =? 0)%nat then s
  else substring (String.length s - n) n s.

(** [_align(keyword, rest)] with [self._indent = indent] *)
Definition _align (indent : nat) (keyword rest : string) : string :=
  let keyword := spaces indent +:+ keyword in
  last_chars indent keyword +:+ " " +:+ rest.

Definition LF : ascii := ascii_of_nat 10.
Definition CR : ascii := ascii_of_nat 13.
Definition NL : string := String LF EmptyString.

(** [block.splitlines()] of a byte string: lines end at [\n], [\r] or
    [\r\n]; [cur] is the line being read. *)
Fixpoint splitlines_from (cur : string) (block : string) : list string :=
  match block with
  | EmptyString => if Py.truthy cur then [cur] else []
  | String c rest =>
      if Ascii.eqb c LF then cur :: splitlines_from EmptyString rest
      else if Ascii.eqb c CR then
        match rest with
        | String c' rest' =>
            if Ascii.eqb c' LF then cur :: splitlines_from EmptyString rest'
            else cur :: splitlines_from EmptyString rest
        | EmptyString => cur :: splitlines_from EmptyString rest
        end
      else splitlines_from (cur +:+ String c EmptyString) rest
  end.

Definition splitlines (block : string) : list string :=
  splitlines_from EmptyString block.

(** [block.endswith("\n")] *)
Fixpoint ends_with_newline (block : string) : bool :=
  match block with
  | EmptyString => false
  | String c EmptyString => Ascii.eqb c LF
  | String _ rest => ends_with_newline rest
  end.

(** [Query.indent(block)] with the default [n = 4] *)
Definition indent (block : string) : string :=
  let padding := spaces 4 in
  let end_ := if ends_with_newline block then NL else EmptyString in
  Py.join NL (map (fun line => padding +:+ line) (splitlines block)) +:+ end_.

(** ["%d" % n] *)
Definition decimal (n : Z) : string := NilZero.string_of_int (Z.to_int n).

(** truth value of an attribute that holds [None] or a string *)
Definition truthy (s : option string) : bool :=
  match s with
  | Some s => Py.truthy s
  | None => false
  end.

(** ** Rendering *)

(** How a rendering ends: with a value, with an exception, or because the
    model ran out of fuel (one unit of fuel for each level of nesting of
    queries and conditions). *)
Inductive run (A : Type) : Type :=
| Done (a : A)
| Raised (e : exn)
| OutOfFuel.
Arguments Done {A} a.
Arguments Raised {A} e.
Arguments OutOfFuel {A}.

Definition run_bind {A B : Type} (m : run A) (k : A -> run B) : run B :=
  match m with
  | Done a => k a
  | Raised e => Raised e
  | OutOfFuel => OutOfFuel
  end.

Notation "'let+' p ':=' m 'in' k" := (run_bind m (fun p => k))
  (at level 10, p pattern, m at level 100, k at level 200).

(** What the helpers of [__str__] write to: the list [query] of the
    lines assembled so far and [self._parms]. *)
Record ser : Type := mk_ser {
  query : list string;
  parms_ : list value
}.

(** [query.append(line)] *)
Definition emit (line : string) (st : ser) : ser :=
  {| query := query st ++ [line]; parms_ := parms_ st |}.

(** [self._parms += values] *)
Definition add_parms (values : list value) (st : ser) : ser :=
  {| query := query st; parms_ := parms_ st ++ values |}.

Definition is_nil {A : Type} (l : list A) : bool :=
  match l with
  | [] => true
  | _ :: _ => false
  end.

(** one turn of the loop that finds the left padding in [__str__] *)
Definition widen (attribute : bool) (keywords : string) (indent : nat) : nat :=
  if attribute then
    let needed := Z.of_nat (String.length keywords) - Z.of_nat indent in
    if 0 <? needed then (indent + Z.to_nat needed)%nat else indent
  else indent.

(** ["SELECT"], [" DISTINCT"] and [" TOP %d"] *)
Definition select_keywords (self : Query) : string :=
  "SELECT" +:+ (if _unique self then " DISTINCT" else "")
           +:+ match _limit self with
               | Some n => " TOP " +:+ decimal n
               | None => ""
               end.

(** the value [__str__] gives to [self._indent] *)
Definition padding_of (self : Query) : nat :=
  widen (negb (is_nil (_group self))) "GROUP BY"
    (widen (_outer self) "LEFT OUTER JOIN"
       (widen (negb (is_nil (_order self))) "ORDER BY"
          (String.length (select_keywords self)))).

Definition NO_VALUES (test : string) : exn :=
  Exception ("'" +:+ Py.upper test +:+ "' test with no values").

(** [condition.test.upper() in ("IN", "NOT IN")] *)
Definition is_in (test : string) : bool :=
  String.eqb (Py.upper test) "IN" || String.eqb (Py.upper test) "NOT IN".

Section OneLevel.

(** [str(q)] and [_serialize_condition] one level of nesting further down *)
Variable str_rec : Query -> run (string * Query).
Variable cond_rec :
  nat -> ser -> string -> Condition -> string -> string -> run (ser * Condition).

(** [q.parms()] *)
Definition parms_with (q : Query) : run (list value * Query) :=
  match _str q with
  | None => let+ (_, q') := str_rec q in Done (_parms q', q')
  | Some _ => Done (_parms q, q)
  end.

(** [for condition in conditions: self._serialize_condition(query,
    keyword, condition); keyword = "AND"] *)
Fixpoint serialize_conditions (ind : nat) (st : ser) (keyword : string)
  (conditions : list Condition) : run (ser * list Condition) :=
  match conditions with
  | [] => Done (st, [])
  | c :: rest =>
      let+ (st1, c1) := cond_rec ind st keyword c "" "" in
      let+ (st2, rest2) := serialize_conditions ind st1 "AND" rest in
      Done (st2, c1 :: rest2)
  end.

(** The inner loop of [_serialize_or_set], over a list or tuple of
    conditions; it hands back [close_paren] as the loop leaves it. *)
Fixpoint or_seq (ind : nat) (suffix : string) (last_or : bool) (st : ser)
  (keyword open_paren close_paren : string) (l : list Condition)
  : run (ser * (string * list Condition)) :=
  match l with
  | [] => Done (st, (close_paren, []))
  | c :: rest =>
      let close_paren :=
        if last_or && is_nil rest then suffix +:+ ")" else close_paren in
      let+ (st1, c1) := cond_rec ind st keyword c open_paren close_paren in
      let+ (st2, (close2, rest2)) :=
        or_seq ind suffix last_or st1 "AND" "" close_paren rest in
      Done (st2, (close2, c1 :: rest2))
  end.

(** The outer loop of [_serialize_or_set] *)
Fixpoint or_args (ind : nat) (suffix : string) (st : ser)
  (keyword open_paren close_paren : string) (args : list or_arg)
  : run (ser * list or_arg) :=
  match args with
  | [] => Done (st, [])
  | a :: rest =>
      let last_or := is_nil rest in
      match a with
      | Seq l =>
          let+ (st1, (close1, l1)) :=
            or_seq ind suffix last_or st keyword open_paren close_paren l in
          let+ (st2, rest2) := or_args ind suffix st1 "OR" "" close1 rest in
          Done (st2, Seq l1 :: rest2)
      | One c =>
          let close1 := if last_or then suffix +:+ ")" else close_paren in
          let+ (st1, c1) := cond_rec ind st keyword c open_paren close1 in
          let+ (st2, rest2) := or_args ind suffix st1 "OR" "" close1 rest in
          Done (st2, One c1 :: rest2)
      end
  end.

(** [_serialize_or_set(query, keyword, or_set, prefix, suffix)] *)
Definition _serialize_or_set (ind : nat) (st : ser) (keyword : string)
  (conditions : list or_arg) (prefix suffix : string)
  : run (ser * list or_arg) :=
  or_args ind suffix st keyword ("(" +:+ prefix) "" conditions.

(** ["%s"] once for each value, joined by [", "] *)
Definition placeholders (n : nat) : string :=
  Py.join ", " (repeat "%s" n).

(** The body of [_serialize_condition]; the condition comes back with
    the nested queries as their rendering left them. *)
Definition serialize_condition_body (ind : nat) (st : ser) (keyword : string)
  (condition : Condition) (prefix suffix : string) : run (ser * Condition) :=
  match condition with
  | Or conditions =>
      let+ (st', conditions') :=
        _serialize_or_set ind st keyword conditions prefix suffix in
      Done (st', Or conditions')
  | Text sql =>
      Done (emit (_align ind keyword (prefix +:+ sql +:+ suffix)) st, Text sql)
  | Cond column val test =>
      let test_ := column +:+ " " +:+ prefix +:+ test in
      let in_test (values : list value) :=
        if is_nil values then Raised (NO_VALUES test)
        else
          let test_ :=
            test_ +:+ " (" +:+ placeholders (length values) +:+ ")" in
          let st := emit (_align ind keyword (test_ +:+ suffix)) st in
          Done (add_parms values st, condition) in
      match val with
      | Nested nested =>
          let alias :=
            match _alias nested with
            | Some a => if Py.truthy a then " " +:+ a else ""
            | None => ""
            end in
          let+ (sql, nested') := str_rec nested in
          let serialized := sql +:+ ")" +:+ alias +:+ suffix in
          let st := emit (_align ind keyword (test_ +:+ " (")) st in
          let st := emit (indent serialized) st in
          Done (add_parms (_parms nested') st, Cond column (Nested nested') test)
      | Values l =>
          if is_in test then in_test l
          else Raised (Exception "Unexpected sequence of values")
      | Single v =>
          if is_in test then in_test [v]
          else
            let st :=
              emit (_align ind keyword (test_ +:+ " %s" +:+ suffix)) st in
            Done (add_parms [v] st, condition)
      end
  end.

(** The first half of [_serialize_join]: the joined table, a name or a
    query in parentheses *)
Definition serialize_join_table (ind : nat) (st : ser) (keyword : string)
  (table : source) : run (ser * source) :=
  match table with
  | Virtual t =>
      if negb (truthy (_alias t)) then
        Raised (Exception "resultset expression without alias")
      else
        let+ (p, t1) := parms_with t in
        if negb (is_nil p) then
          Raised (Exception
            "Placeholders not allowed in joined resultset expression")
        else
          let st := emit (_align ind keyword "(") st in
          let+ (sql, t2) := str_rec t1 in
          let alias := default "" (_alias t) in
          Done (emit (indent (sql +:+ ") " +:+ alias)) st, Virtual t2)
  | Plain name => Done (emit (_align ind keyword name) st, Plain name)
  end.

(** [_serialize_join(query, join)] *)
Definition _serialize_join (ind : nat) (st : ser) (join : Join)
  : run (ser * Join) :=
  match join with
  | mk_Join table outer conditions =>
      let keyword := if outer then "LEFT OUTER JOIN" else "JOIN" in
      let+ (st, table') := serialize_join_table ind st keyword table in
      let+ (st, conditions') := serialize_conditions ind st "ON" conditions in
      Done (st, mk_Join table' outer conditions')
  end.

(** [for join in self._joins: self._serialize_join(query, join)] *)
Fixpoint serialize_joins (ind : nat) (st : ser) (joins : list Join)
  : run (ser * list Join) :=
  match joins with
  | [] => Done (st, [])
  | j :: rest =>
      let+ (st1, j1) := _serialize_join ind st j in
      let+ (st2, rest2) := serialize_joins ind st1 rest in
      Done (st2, j1 :: rest2)
  end.

(** The [FROM] clause of [__str__] *)
Definition serialize_from (ind : nat) (st : ser) (table : source)
  : run (ser * source) :=
  match table with
  | Virtual t =>
      if negb (truthy (_alias t)) then
        Raised (Exception "Virtual tables must have an alias")
      else
        let+ (_, t1) := str_rec t in
        if negb (is_nil (_parms t1)) then
          Raised (Exception "Placeholders not allowed in virtual table")
        else
          let st := emit (_align ind "FROM" "(") st in
          let+ (sql, t2) := str_rec t1 in
          let alias := default "" (_alias t) in
          Done (emit (indent (sql +:+ ") " +:+ alias)) st, Virtual t2)
  | Plain name => Done (emit (_align ind "FROM" name) st, Plain name)
  end.

(** [for union in self._unions: query.append(self._align("UNION"));
    query.append(str(union))] *)
Fixpoint serialize_unions (ind : nat) (st : ser) (unions : list Query)
  : run (ser * list Query) :=
  match unions with
  | [] => Done (st, [])
  | u :: rest =>
      let st := emit (_align ind "UNION" "") st in
      let+ (sql, u1) := str_rec u in
      let+ (st2, rest2) := serialize_unions ind (emit sql st) rest in
      Done (st2, u1 :: rest2)
  end.

(** The body of [__str__]: the string, and the query after the call *)
Definition str_body (self : Query) : run (string * Query) :=
  match self with
  | mk_Query table columns joins where_ group having order _ unions timeout
             alias into limit unique str outer as_dict _ =>
      if truthy str then Done (default "" str, self)
      else
        let select := select_keywords self in
        let ind := padding_of self in
        let st :=
          {| query := [_align ind select (Py.join ", " columns)];
             parms_ := [] |} in
        let st :=
          if truthy into then emit (_align ind "INTO" (default "" into)) st
          else st in
        let+ (st, table') := serialize_from ind st table in
        let+ (st, joins') := serialize_joins ind st joins in
        let+ (st, where') := serialize_conditions ind st "WHERE" where_ in
        let st :=
          if negb (is_nil group)
          then emit (_align ind "GROUP BY" (Py.join ", " group)) st
          else st in
        let+ (st, having') := serialize_conditions ind st "HAVING" having in
        let+ (st, unions') := serialize_unions ind st unions in
        let st :=
          if negb (is_nil order)
          then emit (_align ind "ORDER BY" (Py.join ", " order)) st
          else st in
        let s := Py.join NL (query st) in
        Done (s, mk_Query table' columns joins' where' group having' order
                          (parms_ st) unions' timeout alias into limit unique
                          (Some s) outer as_dict (Some ind))
  end.

End OneLevel.

(** [str(self)] and [self._serialize_condition(...)] *)
Fixpoint __str__ (fuel : nat) (self : Query) {struct fuel}
  : run (string * Query) :=
  match fuel with
  | O => OutOfFuel
  | S fuel' => str_body (__str__ fuel') (_serialize_condition fuel') self
  end
with _serialize_condition (fuel : nat) (ind : nat) (st : ser)
  (keyword : string) (condition : Condition) (prefix suffix : string)
  {struct fuel} : run (ser * Condition) :=
  match fuel with
  | O => OutOfFuel
  | S fuel' =>
      serialize_condition_body (__str__ fuel') (_serialize_condition fuel')
        ind st keyword condition prefix suffix
  end.

(** [self.parms()] *)
Definition parms (fuel : nat) (self : Query) : run (list value * Query) :=
  parms_with (__str__ fuel) self.

End Db.

(** * Further functions of docs.py *)

(** ** Ids, dates and the number of the last publishable version *)

Module Ids.

Import Docs.

(** [\d] on the code points below 256 *)
Definition is_digit (c : ascii) : bool :=
  let n := nat_of_ascii c in ((48 <=? n) && (n <=? 57))%nat.

(** [re.sub(r"[^\d]", "", s)] *)
Fixpoint digits_only (s : string) : string :=
  match s with
  | EmptyString => EmptyString
  | String c s' =>
      if is_digit c then String c (digits_only s') else digits_only s'
  end.

(** [int(s)] for a string of decimal digits, [None] when it raises
    ([ValueError], for the empty string) *)
Definition int_of_digits (s : string) : option Z :=
  match NilZero.uint_of_string s with
  | Some d => Some (Z.of_N (N.of_uint d))
  | None => None
  end.

(** [str(arg)] *)
Definition str_of (arg : pyval) : string :=
  match arg with
  | PyNone => "None"
  | PyInt n => Db.decimal n
  | PyStr s => s
  end.

(** [Doc.extract_id(arg)], [None] when [int] raises *)
Definition extract_id (arg : pyval) : option Z :=
  match arg with
  | PyInt n => Some n
  | _ => int_of_digits (digits_only (fst (Py.split1 "#"%char (str_of arg))))
  end.

(** The [cdr_id] property of a document whose [id] is [n] *)
Definition cdr_id (n : Z) : option string :=
  if n =? 0 then None else Some (Terms.cdr_id n).

Definition SPACE : ascii := " "%char.

(** [s[:n]] *)
Fixpoint take_chars (n : nat) (s : string) : string :=
  match n, s with
  | S n', String c s' => String c (take_chars n' s')
  | _, _ => EmptyString
  end.

(** [s.replace(" ", "T")] *)
Fixpoint spaces_to_T (s : string) : string :=
  match s with
  | EmptyString => EmptyString
  | String c s' =>
      String (if Ascii.eqb c SPACE then "T"%char else c) (spaces_to_T s')
  end.

(** [Doc.make_xml_date_string(value)]; a date or a date and time is given
    by its [str()] *)
Definition make_xml_date_string (value : option string) : option string :=
  match value with
  | None => None
  | Some s =>
      if Py.truthy s then Some (spaces_to_T (take_chars 19 s)) else None
  end.

(** [Resolver.get_pv_num(args)]: the text of the [PubVerNumber] element,
    [None] when the id of the document cannot be read from [args] *)
Definition get_pv_num (db : database) (session : Session) (args : string)
  : option string :=
  match extract_id (PyStr args) with
  | None => None
  | Some n =>
      let doc :=
        {| session := session; id := n; opt_version := PyNone;
           doctype := ""; _version := None; _last_version := None |} in
      match last_publishable_version db doc with
      | Some v => Some (Db.decimal (if v =? 0 then 0 else v))
      | None => Some (Db.decimal 0)
      end
  end.

End Ids.

(** ** Functions of the resolver *)

Module Functions.

(** [Resolver.ID_KEY_STRIP] keeps the characters [A-Z] and [0-9]. *)
Definition is_key_code (n : nat) : bool :=
  (((65 <=? n) && (n <=? 90)) || ((48 <=? n) && (n <=? 57)))%nat.

(** [c.upper()] for a character of a [str], as code points: a letter
    [a-z] and a letter from [U+00E0] to [U+00FE] but the division sign
    has its capital 32 places before it, the sharp s becomes [SS], the
    micro sign the Greek capital Mu and the y with diaeresis its capital
    at [U+0178]; every other character below 256 is its own upper
    case. *)
Definition upper_codes (c : ascii) : list nat :=
  let n := nat_of_ascii c in
  if Py.is_lower c then [n - 32]%nat
  else if (n =? 181)%nat then [924%nat]
  else if (n =? 223)%nat then [83; 83]%nat
  else if ((224 <=? n) && (n <=? 254) && negb (n =? 247))%nat
       then [n - 32]%nat
  else if (n =? 255)%nat then [376%nat]
  else [n].

Fixpoint string_of_codes (l : list nat) : string :=
  match l with
  | [] => EmptyString
  | n :: l' => String (ascii_of_nat n) (string_of_codes l')
  end.

(** [Resolver.make_id_key(id)] *)
Fixpoint make_id_key (id : string) : string :=
  match id with
  | EmptyString => EmptyString
  | String c id' =>
      string_of_codes (List.filter is_key_code (upper_codes c))
      +:+ make_id_key id'
  end.

(** [args.split("~~", 1)] when ["~~" in args], [None] when not *)
Fixpoint split_tildes (args : string) : option (string * string) :=
  match args with
  | EmptyString => None
  | String c rest =>
      if Py.startswith "~~" args then
        match rest with
        | String _ rest' => Some (EmptyString, rest')
        | EmptyString => None
        end
      else
        match split_tildes rest with
        | Some (h, t) => Some (String c h, t)
        | None => None
        end
  end.

(** The second loop of [dedup_ids], with the list [ids] and the set
    [skip] as they are when it starts *)
Fixpoint dedup_loop (secondary : list string) (ids : list string)
  (skip : gset string) : list string :=
  match secondary with
  | [] => ids
  | s :: rest =>
      let key := make_id_key s in
      if Py.truthy key && negb (bool_decide (key ∈ skip))
      then dedup_loop rest (ids ++ [s])%list ({[ key ]} ∪ skip)
      else dedup_loop rest ids skip
  end.

(** [Resolver.dedup_ids(args)]: the texts of the [id] elements of the
    result *)
Definition dedup_ids (args : string) : list string :=
  match split_tildes args with
  | Some (primary, secondary) =>
      let skip :=
        fold_left (fun skip p => {[ make_id_key p ]} ∪ skip)
                  (Py.split "~"%char primary) (∅ : gset string) in
      dedup_loop (Py.split "~"%char secondary) [] skip
  | None => []
  end.

End Functions.

(** ** The XML of a document and its parsed tree *)

Module Content.

Import Docs.

(** How a reading of [xml] or [root] fails: with an exception of the
    source or of [version], with the [AttributeError] of an attribute
    asked of [None], or with the error of the parser. *)
Inductive failure : Type :=
| Raised (e : exn)
| AttributeError (msg : string)
| XMLSyntaxError.

Inductive result (A : Type) : Type :=
| Val (a : A)
| Fail (f : failure).
Arguments Val {A} a.
Arguments Fail {A} f.

Section WithParser.

(** The parsed trees of [lxml] *)
Variable Tree : Type.
(** [etree.fromstring(s.encode("utf-8"))], [None] when it raises *)
Variable fromstring : string -> option Tree.
(** [row[0]] of the first row of [doc_version] with the id and the
    number, or, without a number, of [document] with the id; [None] when
    there is no row *)
Variable stored_xml : Z -> option Z -> option string.

Variable parse_date : string -> option Z.
Variable int_of_str : string -> option Z.
Variable get_labeled_version : Z -> string -> res (option Z).
Variable db : database.

(** A [Doc] with the option [xml] (a [str] or [None]) and the
    attributes [_xml], [_root] and [_denormalized_xml] ([None] while the
    attribute is not set) *)
Record DocXml : Type := mk_DocXml {
  doc : Doc;
  opt_xml : option string;
  _xml : option (option string);
  _root : option (option Tree);
  _denormalized_xml : option (option string)
}.

Definition truthy_xml (x : option string) : bool :=
  match x with
  | Some s => Py.truthy s
  | None => false
  end.

(** The getter of [xml]; a value of the option that is not a [str] is
    not modelled *)
Definition xml (self : DocXml) : result (option string * DocXml) :=
  match _xml self with
  | Some x => Val (x, self)
  | None =>
      let x0 := opt_xml self in
      let keep (d : Doc) (x : option string) :=
        {| doc := d; opt_xml := opt_xml self; _xml := Some x;
           _root := _root self;
           _denormalized_xml := _denormalized_xml self |} in
      if truthy_xml x0 then Val (x0, keep (doc self) x0)
      else if negb (id (doc self) =? 0) then
        match version parse_date int_of_str get_labeled_version db (doc self)
        with
        | Raise e => Fail (Raised e)
        | Ok (v, d) =>
            let num := if no_version v then None else v in
            match stored_xml (id d) num with
            | None => Fail (Raised (Exception "no xml found"))
            | Some x => Val (Some x, keep d (Some x))
            end
        end
      else Val (x0, keep (doc self) x0)
  end.

(** The setter of [xml], for a [str] or [None] *)
Definition set_xml (value : option string) (self : DocXml) : DocXml :=
  {| doc := set__version (doc self) None; opt_xml := opt_xml self;
     _xml := Some value; _root := Some None;
     _denormalized_xml := Some None |}.

(** The getter of [root] *)
Definition root (self : DocXml) : result (option Tree * DocXml) :=
  match _root self with
  | Some r => Val (r, self)
  | None =>
      match xml self with
      | Fail f => Fail f
      | Val (None, _) =>
          Fail (AttributeError "'NoneType' object has no attribute 'encode'")
      | Val (Some s, self') =>
          match fromstring s with
          | None => Fail XMLSyntaxError
          | Some t =>
              Val (Some t,
                   {| doc := doc self'; opt_xml := opt_xml self';
                      _xml := _xml self'; _root := Some (Some t);
                      _denormalized_xml := _denormalized_xml self' |})
          end
      end
  end.

End WithParser.

Arguments doc {Tree} _.
Arguments opt_xml {Tree} _.
Arguments _xml {Tree} _.
Arguments _root {Tree} _.
Arguments _denormalized_xml {Tree} _.

End Content.

(** * Properties *)

(** ** The gate of [sql-query] *)

Module ResolverFacts.

Import Resolver.

Lemma search_app (alts : list (list atom)) (a b : string) :
  search alts b = true -> search alts (a +:+ b) = true.
Proof.
  intros Hb. induction a as [|c a IH]; simpl; [exact Hb|].
  rewrite IH. apply orb_true_r.
Qed.

Lemma search_here (alts : list (list atom)) (p : list atom) (s : string) :
  In p alts -> match_here p s = true -> search alts s = true.
Proof.
  intros Hin Hm.
  assert (Hex : existsb (fun p => match_here p s) alts = true).
  { apply existsb_exists. exists p. split; assumption. }
  destruct s; simpl; rewrite Hex; reflexivity.
Qed.

(** The lower-case words [insert], [update], [delete] and [create]
    followed by a white-space character are found wherever they stand. *)
Lemma search_lowercase_keyword (kw a b : string) (c : ascii) :
  In kw ["insert"; "update"; "delete"; "create"] ->
  is_space c = true ->
  search UNSAFE (a +:+ kw +:+ String c b) = true.
Proof.
  intros Hkw Hc. apply search_app.
  simpl in Hkw.
  destruct Hkw as [<-|[<-|[<-|[<-|[]]]]];
    match goal with
    | |- search _ (?k +:+ _) = true =>
        apply (search_here UNSAFE (lits k ++ [Space])%list);
        [ simpl; tauto | simpl; rewrite Hc; reflexivity ]
    end.
Qed.

(** A query that holds such a word does not reach the cursor. *)
Lemma run_sql_query_rejects_lowercase (ph kw a b : string) (c : ascii) :
  In kw ["insert"; "update"; "delete"; "create"] ->
  is_space c = true ->
  Py.contains "~" (a +:+ kw +:+ String c b) = false ->
  run_sql_query ph (a +:+ kw +:+ String c b) = Raise DISALLOWED.
Proof.
  intros Hkw Hc Hno. unfold run_sql_query. rewrite Hno.
  rewrite (search_lowercase_keyword kw a b c Hkw Hc). reflexivity.
Qed.

(** C1, at the input of the specification: the upper-case statement
    [DELETE FROM x] passes the gate and is handed to the cursor as it is,
    where the property asks for the failure [DisallowedSqlKeyword]. *)
Theorem run_sql_query_uppercase_delete_reaches_cursor (ph : string) :
  run_sql_query ph "DELETE FROM x" = Ok ("DELETE FROM x", []).
Proof.
  unfold run_sql_query.
  change (Py.contains "~" "DELETE FROM x") with false.
  change (search UNSAFE "DELETE FROM x") with false.
  cbn beta iota.
  change (Py.count "?"%char "DELETE FROM x") with 0.
  cbn [length Z.of_nat Z.eqb negb].
  destruct (negb (String.eqb ph "?")); reflexivity.
Qed.

(** The same gate lets [exec(] through: the alternative that would catch
    it is fused with the one for [alter]. *)
Lemma run_sql_query_exec_reaches_cursor (ph : string) :
  run_sql_query ph "exec(sp_who)" = Ok ("exec(sp_who)", []).
Proof.
  unfold run_sql_query.
  change (Py.contains "~" "exec(sp_who)") with false.
  change (search UNSAFE "exec(sp_who)") with false.
  cbn beta iota.
  change (Py.count "?"%char "exec(sp_who)") with 0.
  cbn [length Z.of_nat Z.eqb negb].
  destruct (negb (String.eqb ph "?")); reflexivity.
Qed.

End ResolverFacts.

(** ** Version resolution and locking *)

Module DocsFacts.

Import Docs.

Lemma sql_max_None (l : list Z) : sql_max l = None <-> l = [].
Proof.
  destruct l as [|x l]; simpl; [tauto|].
  destruct (sql_max l); split; congruence.
Qed.

(** [MAX] is one of the values and no value is above it. *)
Lemma sql_max_Some (l : list Z) (m : Z) :
  sql_max l = Some m -> In m l /\ (forall x, In x l -> x <= m).
Proof.
  revert m. induction l as [|x l IH]; intros m; simpl; [discriminate|].
  destruct (sql_max l) as [m'|] eqn:E.
  - intros [= <-]. destruct (IH m' eq_refl) as [Hin Hle]. split.
    + destruct (Z.max_spec x m') as [[_ ->]|[_ ->]]; auto.
    + intros y [<-|Hy]; [lia|]. specialize (Hle y Hy). lia.
  - intros [= <-]. apply sql_max_None in E. subst l. split; [auto|].
    intros y [<-|[]]. lia.
Qed.

(** The version numbers of the publishable versions of a document *)
Definition publishable_versions (db : database) (doc : Z) : list Z :=
  map v_num
      (filter (fun r => (v_id r =? doc) && flag_eqb (v_publishable r) Y)
              (doc_version db)).

Lemma in_publishable_versions (db : database) (doc n : Z) :
  In n (publishable_versions db doc) <->
  exists r, In r (doc_version db) /\ v_id r = doc /\ v_publishable r = Y
            /\ v_num r = n.
Proof.
  unfold publishable_versions. rewrite in_map_iff. split.
  - intros (r & Hn & Hr). apply list_elem_of_In, list_elem_of_filter in Hr.
    destruct Hr as [Hp Hr]. apply list_elem_of_In in Hr.
    apply Is_true_true, andb_true_iff in Hp. destruct Hp as [Hid Hf].
    exists r. repeat split; auto; [lia|]. destruct (v_publishable r); auto; discriminate.
  - intros (r & Hr & Hid & Hf & Hn). exists r. split; [assumption|].
    apply list_elem_of_In, list_elem_of_filter. split; [|apply list_elem_of_In; assumption].
    apply Is_true_true, andb_true_iff. rewrite Hf. split; [lia|reflexivity].
Qed.

Lemma last_publishable_version_eq (db : database) (self : Doc) :
  id self <> 0 ->
  last_publishable_version db self = sql_max (publishable_versions db (id self)).
Proof.
  intros Hid. unfold last_publishable_version, publishable_versions.
  destruct (Z.eqb_spec (id self) 0) as [|_]; [contradiction|]. reflexivity.
Qed.

Lemma startswith_app (p s : string) :
  Py.startswith p s = true -> exists r, s = p +:+ r.
Proof.
  revert s. induction p as [|a p IH]; intros s H; cbn [Py.startswith] in H.
  - exists s. reflexivity.
  - destruct s as [|b s]; [discriminate|].
    destruct (Ascii.eqb_spec a b) as [<-|]; [|discriminate].
    destruct (IH s H) as [r ->]. exists r. reflexivity.
Qed.

(** A specifier that begins with [lastp] is not empty and is none of the
    words tested before the prefix. *)
Lemma startswith_lastp (s : string) :
  Py.startswith "lastp" (Py.lower s) = true ->
  Py.truthy s = true /\
  String.eqb (Py.lower s) "current" = false /\
  String.eqb (Py.lower s) "last" = false /\
  String.eqb (Py.lower s) "lastversion" = false.
Proof.
  intros H. split; [destruct s; [discriminate|reflexivity]|].
  destruct (startswith_app _ _ H) as [r ->].
  repeat split; reflexivity.
Qed.

(** The prefix [lastp] leads to the newest publishable version, whatever
    the version numbers are: the failure is raised when there is no
    publishable version or when the newest one has the number 0. *)
Lemma version_lastp parse_date int_of_str labeled (db : database) (self : Doc)
  (spec : string) :
  id self <> 0 -> _version self = None -> opt_version self = PyStr spec ->
  Py.startswith "lastp" (Py.lower spec) = true ->
  version parse_date int_of_str labeled db self =
    match sql_max (publishable_versions db (id self)) with
    | Some n =>
        if n =? 0 then Raise (Exception NO_PUBLISHABLE_VERSIONS)
        else Ok (Some n, set__version self (Some n))
    | None => Raise (Exception NO_PUBLISHABLE_VERSIONS)
    end.
Proof.
  intros Hid Hcache Hopt Hpre. unfold version.
  rewrite Hcache, Hopt. cbn [falsy].
  destruct (Z.eqb_spec (id self) 0) as [|_]; [contradiction|].
  destruct (startswith_lastp spec Hpre) as (Ht & Hc & Hl & Hlv).
  rewrite Ht, Hc, Hl, Hlv, Hpre. cbn [negb orb].
  rewrite (last_publishable_version_eq db self Hid).
  destruct (sql_max (publishable_versions db (id self))) as [n|]; cbn [no_version];
    [destruct (n =? 0)|]; reflexivity.
Qed.

(** C2: for a document (its id is not 0) whose version is not resolved
    yet, in a version table whose version numbers are positive, a
    specifier that begins with [lastp] resolves to the number of a version
    flagged publishable, the greatest one of the document, or, when the
    document has no publishable version, fails with the message
    [NO_PUBLISHABLE_VERSIONS]. *)
Theorem lastp_resolves_to_last_publishable parse_date int_of_str labeled
  (db : database) (self : Doc) (spec : string) :
  id self <> 0 -> _version self = None -> opt_version self = PyStr spec ->
  Py.startswith "lastp" (Py.lower spec) = true ->
  (forall r, In r (doc_version db) -> 0 < v_num r) ->
  (exists r,
      In r (doc_version db) /\ v_id r = id self /\ v_publishable r = Y /\
      (forall r', In r' (doc_version db) -> v_id r' = id self ->
                  v_publishable r' = Y -> v_num r' <= v_num r) /\
      version parse_date int_of_str labeled db self =
        Ok (Some (v_num r), set__version self (Some (v_num r))))
  \/
  ((forall r, In r (doc_version db) -> v_id r = id self -> v_publishable r <> Y) /\
   version parse_date int_of_str labeled db self =
     Raise (Exception NO_PUBLISHABLE_VERSIONS)).
Proof.
  intros Hid Hcache Hopt Hpre Hpos.
  rewrite (version_lastp parse_date int_of_str labeled db self spec Hid Hcache Hopt Hpre).
  destruct (sql_max (publishable_versions db (id self))) as [n|] eqn:E.
  - left. apply sql_max_Some in E. destruct E as [Hin Hmax].
    apply in_publishable_versions in Hin.
    destruct Hin as (r & Hr & Hrid & Hrf & <-).
    exists r. repeat split; auto.
    + intros r' Hr' Hid' Hf'. apply Hmax. apply in_publishable_versions.
      exists r'. auto.
    + specialize (Hpos r Hr).
      destruct (Z.eqb_spec (v_num r) 0); [lia|reflexivity].
  - right. split; [|reflexivity].
    apply sql_max_None in E. intros r Hr Hrid Hrf.
    assert (Hin : In (v_num r) (publishable_versions db (id self))).
    { apply in_publishable_versions. exists r. auto. }
    rewrite E in Hin. destruct Hin.
Qed.

Definition guest : Session :=
  {| user_id := 2; can_do := fun _ _ => true |}.

Definition three_versions : database :=
  {| doc_version :=
       [ mk_version_row 5 1 100 N; mk_version_row 5 2 200 Y;
         mk_version_row 5 3 300 N; mk_version_row 6 4 400 Y ];
     checkout := [] |}.

Definition doc5 (spec : string) : Doc :=
  {| session := guest; id := 5; opt_version := PyStr spec;
     doctype := "Term"; _version := None; _last_version := None |}.

(** With versions 1, 2 (publishable) and 3 the specifier
    [LastPublishableVersion] is covered by the theorem. *)
Lemma lastp_resolves_to_last_publishable_witness :
  (exists r,
      In r (doc_version three_versions) /\ v_id r = 5 /\ v_publishable r = Y /\
      (forall r', In r' (doc_version three_versions) -> v_id r' = 5 ->
                  v_publishable r' = Y -> v_num r' <= v_num r) /\
      version (fun _ => None) (fun _ => None) (fun _ _ => Ok None)
              three_versions
              (doc5 "LastPublishableVersion") =
        Ok (Some (v_num r),
            set__version (doc5 "LastPublishableVersion") (Some (v_num r))))
  \/
  ((forall r, In r (doc_version three_versions) -> v_id r = 5 ->
              v_publishable r <> Y) /\
   version (fun _ => None) (fun _ => None) (fun _ _ => Ok None)
              three_versions
           (doc5 "LastPublishableVersion") =
     Raise (Exception NO_PUBLISHABLE_VERSIONS)).
Proof.
  apply (lastp_resolves_to_last_publishable (fun _ => None) (fun _ => None)
           (fun _ _ => Ok None) three_versions (doc5 "LastPublishableVersion")
           "LastPublishableVersion").
  - discriminate.
  - reflexivity.
  - reflexivity.
  - reflexivity.
  - intros r Hr. simpl in Hr.
    destruct Hr as [<-|[<-|[<-|[<-|[]]]]]; reflexivity.
Defined.

Example lastp_of_three_versions :
  version (fun _ => None) (fun _ => None) (fun _ _ => Ok None)
              three_versions (doc5 "lastp")
  = Ok (Some 2, set__version (doc5 "lastp") (Some 2)).
Proof. reflexivity. Qed.

(** [__get_version_before] never raises for a date it can parse: the
    aggregate hands back a row, so the test [if not row] does not fire. *)
Lemma get_version_before_parsed parse_date (db : database) (self : Doc)
  (before : string) (when : Z) :
  parse_date before = Some when ->
  get_version_before parse_date db self before =
    Ok (sql_max (map v_num
           (filter (fun r => (v_id r =? id self) && (v_dt r <? when))
                   (doc_version db)))).
Proof.
  intros Hp. unfold get_version_before. rewrite Hp. reflexivity.
Qed.

(** The specifier [before <date>], for a date that can be parsed, never
    fails: it resolves to [MAX(num)] over the versions created before the
    date, which is [None] when there is none. *)
Lemma version_before parse_date int_of_str labeled (db : database)
  (self : Doc) (spec date : string) (when : Z) :
  id self <> 0 -> _version self = None -> opt_version self = PyStr spec ->
  Py.lower spec = "before " +:+ date ->
  parse_date date = Some when ->
  let v := sql_max (map v_num
             (filter (fun r => (v_id r =? id self) && (v_dt r <? when))
                     (doc_version db))) in
  version parse_date int_of_str labeled db self = Ok (v, set__version self v).
Proof.
  intros Hid Hcache Hopt Hlow Hdate v. unfold version.
  rewrite Hcache, Hopt. cbn [falsy].
  destruct (Z.eqb_spec (id self) 0) as [|_]; [contradiction|].
  assert (Ht : Py.truthy spec = true).
  { destruct spec; [discriminate|reflexivity]. }
  rewrite Ht, Hlow. cbn [negb].
  change (String.eqb ("before " +:+ date) "current") with false.
  change (String.eqb ("before " +:+ date) "last") with false.
  change (String.eqb ("before " +:+ date) "lastversion") with false.
  change (Py.startswith "lastp" ("before " +:+ date)) with false.
  change (Py.startswith "before " ("before " +:+ date)) with true.
  change (Py.split1 " "%char ("before " +:+ date))
    with (let '(h, t) := Py.split1 " "%char (" " +:+ date) in
          (String "b" (String "e" (String "f" (String "o" (String "r"
             (String "e" h))))), t)).
  cbn [orb]. change (Py.split1 " "%char (" " +:+ date)) with ("", Some date).
  cbv iota beta.
  rewrite (get_version_before_parsed parse_date db self date when Hdate).
  reflexivity.
Qed.

(** C6, at a document whose only version was created in 2017 (time
    1500000000 in seconds), with the specifier [before 2000-01-01] parsed
    to the time 946684800: no version is earlier than the date, and the
    resolution answers [None], the current working copy, where the
    property asks for a failure. *)
Theorem before_date_without_earlier_version_is_current :
  let db := {| doc_version := [mk_version_row 5 1 1500000000 Y];
               checkout := [] |} in
  version (fun _ => Some 946684800) (fun _ => None) (fun _ _ => Ok None) db
          (doc5 "before 2000-01-01")
  = Ok (None, set__version (doc5 "before 2000-01-01") None).
Proof. reflexivity. Qed.

(** When a version is earlier than the date, the answer is the greatest
    such version number. *)
Example before_date_with_earlier_versions :
  version (fun _ => Some 250) (fun _ => None) (fun _ _ => Ok None)
          three_versions
          (doc5 "Before 2000-01-01")
  = Ok (Some 2, set__version (doc5 "Before 2000-01-01") (Some 2)).
Proof. reflexivity. Qed.

(** C8: [unlock] returns without a failure and leaves the tables as they
    are, for every document and all options; in particular for a document
    without an open lock and for one locked by another account. *)
Theorem unlock_returns_normally (self : Doc) (abandon force : bool)
  (db : database) :
  unlock self abandon force db = (Ok tt, db).
Proof. reflexivity. Qed.

(** A second [lock] by the account that holds the lock changes nothing
    and raises nothing. *)
Lemma lock_again_by_holder (self : Doc) (force : bool) (db : database)
  (row : checkout_row) :
  can_do (session self) "MODIFY DOCUMENT" (doctype self) = true ->
  open_lock self db = Some row ->
  c_usr row = user_id (session self) ->
  lock self force db = (Ok tt, db).
Proof.
  intros Hcan Hrow Husr. unfold lock. rewrite Hcan, Hrow. cbn [negb].
  rewrite Husr, Z.eqb_refl. reflexivity.
Qed.

(** [lock] without the force flag by another account than the holder
    returns as well. *)
Lemma lock_by_other_account (self : Doc) (db : database) (row : checkout_row) :
  can_do (session self) "MODIFY DOCUMENT" (doctype self) = true ->
  open_lock self db = Some row ->
  c_usr row <> user_id (session self) ->
  lock self false db = (Ok tt, db).
Proof.
  intros Hcan Hrow Husr. unfold lock. rewrite Hcan, Hrow. cbn [negb].
  destruct (Z.eqb_spec (c_usr row) (user_id (session self))); [contradiction|].
  reflexivity.
Qed.

(** C3, at document 5 locked by account 1: [lock] by account 2 without
    the force flag returns normally and the [checkout] table is as it
    was, where the property asks for the failure [AlreadyLocked]. *)
Theorem lock_held_by_other_account_returns_normally :
  let db := {| doc_version := [];
               checkout := [mk_checkout_row 5 1 100 None] |} in
  lock (doc5 "") false db = (Ok tt, db).
Proof. reflexivity. Qed.

End DocsFacts.

(** ** The term hierarchy and its cache *)

Module TermsFacts.

Import Terms.

(** The counter is not negative, and the dictionary is empty while the
    counter is zero. *)
Definition cache_ok (c : cls) : Prop :=
  0 <= use_cache c /\ (use_cache c = 0 -> terms c = ∅).

(** Between two calls [Term.lock] is free as well. *)
Definition Inv (c : cls) : Prop := cache_ok c /\ locked c = false.

(** What a call leaves behind: the invariant when it returns or raises,
    the invariant of the cache when it blocks with the lock held. *)
Definition post {A : Type} (o : outcome A) : Prop :=
  match o with
  | Ret _ c => Inv c
  | Exc _ c => Inv c
  | Hang c => cache_ok c
  | OutOfFuel => True
  end.

Definition finishes {A : Type} (o : outcome A) : Prop :=
  match o with
  | OutOfFuel => False
  | _ => True
  end.

Definition good {A : Type} (o : outcome A) : Prop := post o /\ finishes o.

Lemma Inv_initial : Inv initial.
Proof. repeat split; simpl; lia. Qed.

Section Facts.

Variable clock : nat -> Z.
Variable load : Z -> res term_doc.

(** [set_cache] on a free lock: the answer is whether the counter was
    positive, and the invariant of the cache holds afterwards whatever
    the counter was. *)
Lemma set_cache_spec (on : bool) (c : cls) :
  locked c = false ->
  exists c',
    set_cache clock on c = Ret (0 <? use_cache c) c' /\
    locked c' = false /\
    use_cache c' = (if on then use_cache c + 1 else Z.max 0 (use_cache c - 1)) /\
    (0 <= use_cache c -> cache_ok c -> cache_ok c').
Proof.
  intros Hl. unfold set_cache. rewrite Hl.
  destruct on.
  - destruct (negb (0 <? use_cache c)); eexists; (split; [reflexivity|]);
      unfold cache_ok; simpl; (split; [reflexivity|]);
      (split; [reflexivity|]); intros H0 [_ Hok]; split; intros; lia.
  - eexists. split; [reflexivity|]. unfold cache_ok. simpl.
    split; [reflexivity|]. split.
    + destruct (Z.ltb_spec (use_cache c - 1) 0); lia.
    + intros H0 _. split.
      * destruct (Z.ltb_spec (use_cache c - 1) 0); lia.
      * intros Hz. rewrite Hz. reflexivity.
Qed.

Lemma drain_locked (fuel : nat) (c : cls) :
  locked c = true -> use_cache c <> 0 -> drain clock (S fuel) c = Hang c.
Proof.
  intros Hl Hu. cbn [drain].
  destruct (Z.eqb_spec (use_cache c) 0); [contradiction|].
  unfold set_cache. rewrite Hl. reflexivity.
Qed.

Lemma lookup_cache_good (doc : Z) (c : cls) :
  Inv c -> good (lookup_cache clock doc c).
Proof.
  intros [[H0 Hok] Hl]. unfold lookup_cache. rewrite Hl.
  cbn [set_locked use_cache cache_started terms ticks locked].
  destruct (Z.eqb_spec (use_cache c) 0) as [Hz|Hnz]; cbn [negb].
  - destruct (terms c !! doc); simpl; repeat split; auto.
  - destruct (cache_started c) as [started|].
    + destruct (MAX_CACHE_AGE <? clock (ticks c) - started).
      * rewrite drain_locked by (simpl; auto).
        simpl. repeat split; auto.
      * destruct (terms c !! doc); simpl; repeat split; auto.
    + simpl. repeat split; auto.
Qed.

Lemma store_cache_good (doc : Z) (t : option Term) (c : cls) :
  Inv c -> good (store_cache doc t c).
Proof.
  intros [[H0 Hok] Hl]. unfold store_cache. rewrite Hl.
  destruct (Z.eqb_spec (use_cache c) 0) as [Hz|Hnz]; cbn [negb andb].
  - simpl. repeat split; auto.
  - destruct (negb (bool_decide (is_Some (terms c !! doc)))); simpl;
      repeat split; auto; intros; contradiction.
Qed.

Lemma handle_good (e : exn) (self : Term) (c : cls) :
  Inv c -> good (handle e self c).
Proof.
  intros HI. unfold handle. destruct (Py.contains _ _); split; try exact HI; exact I.
Qed.

Lemma Term_init_good (doc depth : Z) (c : cls) :
  Inv c -> good (Term_init load doc depth c).
Proof.
  intros HI. unfold Term_init. destruct (load doc) as [d|e];
    apply handle_good; exact HI.
Qed.

(** [get_term] ends and keeps the invariant. *)
Lemma get_term_good (doc depth : Z) (c : cls) :
  Inv c -> good (get_term clock load doc depth c).
Proof.
  intros HI. unfold get_term.
  destruct (Z.ltb_spec MAX_DEPTH depth) as [Hd|Hd]; [split; [exact HI|exact I]|].
  pose proof (lookup_cache_good doc c HI) as Hp.
  destruct (lookup_cache clock doc c) as [[t|] c'|e c'|c'|]; try exact Hp.
  pose proof (Term_init_good doc depth c' (proj1 Hp)) as Hi.
  destruct (Term_init load doc depth c') as [term c''|e c''|c''|];
    try exact Hi.
  apply store_cache_good. apply Hi.
Qed.

Lemma get_parent_good (self : Term) (node : option Z) (depth : Z) (c : cls) :
  Inv c -> good (get_parent clock load self node depth c).
Proof.
  intros HI. unfold get_parent. destruct node as [pid|]; [|split; [exact HI|exact I]].
  destruct (bool_decide (is_Some (parents self !! pid))); [split; [exact HI|exact I]|].
  pose proof (get_term_good pid (depth + 1) c HI) as Hg.
  destruct (get_term clock load pid (depth + 1) c) as [[t|] c'|e c'|c'|];
    exact Hg.
Qed.

(** *** The depth of a chain of parents *)

(** [ids] is a chain: each document has a name and, as its only parent,
    the next document of the list; the last one has no parent. *)
Fixpoint is_chain (ids : list Z) : Prop :=
  match ids with
  | [] => True
  | i :: rest =>
      (exists d,
          load i = Ok d /\ has_name (PreferredName d) = true /\
          ParentTermIds d = match rest with
                            | [] => []
                            | j :: _ => [Some j]
                            end) /\
      is_chain rest
  end.

Lemma lookup_cache_off (doc : Z) (c : cls) :
  use_cache c = 0 -> terms c = ∅ -> locked c = false ->
  lookup_cache clock doc c = Ret None c.
Proof.
  destruct c as [u t s k l]. simpl. intros -> -> ->.
  unfold lookup_cache. simpl. rewrite lookup_empty. reflexivity.
Qed.

Lemma store_cache_off (doc : Z) (t : option Term) (c : cls) :
  use_cache c = 0 -> locked c = false -> store_cache doc t c = Ret t c.
Proof.
  intros Hu Hl. unfold store_cache. rewrite Hl, Hu. reflexivity.
Qed.

(** The failure of the depth is raised at once, in every state, by a
    call that is made with a depth above [MAX_DEPTH]. *)
Lemma get_term_beyond_max (doc depth : Z) (c : cls) :
  MAX_DEPTH < depth -> get_term clock load doc depth c = Exc DEPTH_EXCEEDED c.
Proof.
  intros Hd. unfold get_term.
  destruct (Z.ltb_spec MAX_DEPTH depth); [reflexivity|lia].
Qed.

(** A document that can be read and is not in the cache is never made a
    term: the constructor stops at the name [root]. *)
Lemma get_term_of_read_document (doc depth : Z) (d : term_doc) (c : cls) :
  depth <= MAX_DEPTH ->
  use_cache c = 0 -> terms c = ∅ -> locked c = false ->
  load doc = Ok d ->
  get_term clock load doc depth c = Exc ROOT_UNBOUND c.
Proof.
  intros Hd Hu Ht Hl Hload. unfold get_term.
  destruct (Z.ltb_spec MAX_DEPTH depth) as [|_]; [lia|].
  rewrite (lookup_cache_off doc c Hu Ht Hl). unfold Term_init.
  rewrite Hload. reflexivity.
Qed.

(** C9: for a chain of parents of any length, resolved from its first
    term at depth 0 on the class as the module creates it, [get_term]
    raises the [NameError] of the unbound name [root] and reaches no
    parent.  So a chain whose last term is at depth [MAX_DEPTH] or less
    is not resolved, where the property asks for success, and a chain
    with more than [MAX_DEPTH] parent links does not fail with the
    failure of the depth, where the property asks for it. *)
Theorem chain_resolution_raises_name_error (i : Z) (ids : list Z) :
  is_chain (i :: ids) ->
  get_term clock load i 0 initial = Exc ROOT_UNBOUND initial /\
  get_term clock load i 0 initial <> Exc DEPTH_EXCEEDED initial /\
  (forall t, get_term clock load i 0 initial <> Ret t initial).
Proof.
  intros [(d & Hload & _) _].
  assert (H : get_term clock load i 0 initial = Exc ROOT_UNBOUND initial).
  { apply (get_term_of_read_document i 0 d initial); try reflexivity.
    - unfold MAX_DEPTH. lia.
    - exact Hload. }
  rewrite H. repeat split; intros; discriminate.
Qed.

(** *** The counter of the cache *)

(** A call made by a client of the class *)
Inductive call : Type :=
| SetCache (on : bool)
| GetTerm (doc depth : Z).

(** What the call hands back *)
Inductive answer : Type :=
| Previous (state : bool)
| Found (term : option Term).

Definition perform (k : call) (c : cls) : outcome answer :=
  match k with
  | SetCache on =>
      match set_cache clock on c with
      | Ret b c' => Ret (Previous b) c'
      | Exc e c' => Exc e c'
      | Hang c' => Hang c'
      | OutOfFuel => OutOfFuel
      end
  | GetTerm doc depth =>
      match get_term clock load doc depth c with
      | Ret t c' => Ret (Found t) c'
      | Exc e c' => Exc e c'
      | Hang c' => Hang c'
      | OutOfFuel => OutOfFuel
      end
  end.

(** The calls one after the other: for each call the class before it,
    the call and its outcome.  A call that raises leaves the class to the
    next call; after a call that blocks nothing more runs. *)
Fixpoint history (calls : list call) (c : cls)
  : list (cls * call * outcome answer) :=
  match calls with
  | [] => []
  | k :: rest =>
      let o := perform k c in
      (c, k, o) ::
      match o with
      | Ret _ c' => history rest c'
      | Exc _ c' => history rest c'
      | Hang _ => []
      | OutOfFuel => []
      end
  end.

(** What holds of one record of the history *)
Definition call_ok (entry : cls * call * outcome answer) : Prop :=
  let '(c, k, o) := entry in
  cache_ok c /\
  match o with
  | Ret _ c' => cache_ok c'
  | Exc _ c' => cache_ok c'
  | Hang c' => cache_ok c'
  | OutOfFuel => False
  end /\
  match k with
  | SetCache on =>
      exists c', o = Ret (Previous (0 <? use_cache c)) c' /\
                 (on = false -> use_cache c = 0 -> use_cache c' = 0)
  | GetTerm _ _ => True
  end.

Lemma perform_ok (k : call) (c : cls) :
  Inv c -> call_ok (c, k, perform k c) /\ post (perform k c).
Proof.
  intros HI. pose proof HI as [[H0 Hok] Hl]. unfold call_ok.
  destruct k as [on|doc depth]; cbn [perform].
  - destruct (set_cache_spec on c Hl) as (c' & -> & Hl' & Hu & Hc).
    specialize (Hc H0 (conj H0 Hok)). repeat split; try assumption.
    + apply Hc.
    + apply Hc.
    + exists c'. split; [reflexivity|]. intros -> Hz. rewrite Hu, Hz. reflexivity.
    + apply Hc.
    + apply Hc.
  - destruct (get_term_good doc depth c HI) as [Hp Hfin].
    destruct (get_term clock load doc depth c) as [t c'|e c'|c'|];
      cbn [post finishes] in *; repeat split; try assumption;
      try apply Hp; contradiction.
Qed.

Lemma history_ok (calls : list call) (c : cls) :
  Inv c -> Forall call_ok (history calls c).
Proof.
  revert c. induction calls as [|k rest IH]; intros c HI; cbn [history];
    [constructor|].
  destruct (perform_ok k c HI) as [Hk Hp]. constructor; [exact Hk|].
  destruct (perform k c) as [a c'|e c'|c'|]; try constructor;
    apply IH; exact Hp.
Qed.

End Facts.

(** The documents [0] to [n], each one the parent of the one before *)
Definition chain_of (n : Z) (i : Z) : res term_doc :=
  if (0 <=? i) && (i <=? n) then
    Ok {| PreferredName := Some "term"; PdqKey := None; TermTypeNames := [];
          ParentTermIds := if i <? n then [Some (i + 1)] else [] |}
  else Raise (Exception Docs.NO_PUBLISHABLE_VERSIONS).

(** With [MAX_DEPTH] parent links the last term is at depth [MAX_DEPTH]. *)
Lemma chain_resolution_raises_name_error_witness :
  get_term (fun _ => 0) (chain_of 15) 0 0 initial
    = Exc ROOT_UNBOUND initial /\
  get_term (fun _ => 0) (chain_of 15) 0 0 initial
    <> Exc DEPTH_EXCEEDED initial /\
  (forall t, get_term (fun _ => 0) (chain_of 15) 0 0 initial
             <> Ret t initial).
Proof.
  apply (chain_resolution_raises_name_error (fun _ => 0) (chain_of 15) 0
           [1; 2; 3; 4; 5; 6; 7; 8; 9; 10; 11; 12; 13; 14; 15]).
  cbn [is_chain].
  repeat (split; [eexists; repeat split; reflexivity|]).
  exact I.
Defined.

(** One more link, a term that is its own parent, a term without
    parents: the outcome is the same. *)
Example seventeen_terms_raise_name_error :
  get_term (fun _ => 0) (chain_of 16) 0 0 initial = Exc ROOT_UNBOUND initial.
Proof. vm_compute. reflexivity. Qed.

Example cycle_raises_name_error :
  get_term (fun _ => 0)
    (fun _ => Ok {| PreferredName := Some "term"; PdqKey := None;
                    TermTypeNames := []; ParentTermIds := [Some 7] |})
    7 0 initial
  = Exc ROOT_UNBOUND initial.
Proof. vm_compute. reflexivity. Qed.

Example single_term_raises_name_error :
  get_term (fun _ => 0) (chain_of 0) 0 0 initial = Exc ROOT_UNBOUND initial.
Proof. vm_compute. reflexivity. Qed.

(** Once the cache is older than [MAX_CACHE_AGE], [get_term] asks
    [set_cache] for the lock it holds itself, and blocks. *)
Example expired_cache_blocks :
  exists c,
    history (fun n => Z.of_nat n * (2 * MAX_CACHE_AGE)) (chain_of 0)
            [SetCache true; GetTerm 0 0; GetTerm 0 0] initial
    = [ (initial, SetCache true, Ret (Previous false) c);
        (c, GetTerm 0 0, Hang
           {| use_cache := 1; terms := ∅; cache_started := Some 0;
              ticks := 2%nat; locked := true |}) ].
Proof. eexists. vm_compute. reflexivity. Qed.

(** C10: in every sequence of [set_cache] and [get_term] calls on the
    class as the module creates it, before and after each call the
    counter [use_cache] is not negative and the dictionary [terms] is
    empty while the counter is zero; each [set_cache] call returns whether
    the counter was positive before it, and a call that disables at zero
    leaves the counter at zero. *)
Theorem cache_counter_invariant (clock : nat -> Z) (load : Z -> res term_doc)
  (calls : list call) :
  Forall call_ok (history clock load calls initial).
Proof. apply history_ok. apply Inv_initial. Qed.

End TermsFacts.

(** ** The query builder *)

Module DbFacts.

Import Db.

(** *** The helpers of [__str__] only append *)

Definition empty_ser : ser := {| query := []; parms_ := [] |}.

(** the lines and the parameters of [b] after those of [a] *)
Definition ser_app (a b : ser) : ser :=
  {| query := query a ++ query b; parms_ := parms_ a ++ parms_ b |}.

(** the outcome [r], obtained from nothing, replayed after [st] *)
Definition shift {A : Type} (st : ser) (r : run (ser * A)) : run (ser * A) :=
  match r with
  | Done (st1, a) => Done (ser_app st st1, a)
  | Raised e => Raised e
  | OutOfFuel => OutOfFuel
  end.

(** A helper is framed when what it does to the lines and parameters it
    is given is to append what it produces from nothing. *)
Definition framed {A : Type} (f : ser -> run (ser * A)) : Prop :=
  forall st, f st = shift st (f empty_ser).

Lemma ser_app_empty_r (st : ser) : ser_app st empty_ser = st.
Proof. destruct st. unfold ser_app. simpl. rewrite !app_nil_r. reflexivity. Qed.

Lemma ser_app_empty_l (st : ser) : ser_app empty_ser st = st.
Proof. destruct st. reflexivity. Qed.

Lemma ser_app_assoc (a b c : ser) :
  ser_app (ser_app a b) c = ser_app a (ser_app b c).
Proof. unfold ser_app. simpl. rewrite <- !app_assoc. reflexivity. Qed.

Lemma emit_ser_app (line : string) (a b : ser) :
  emit line (ser_app a b) = ser_app a (emit line b).
Proof. unfold emit, ser_app. simpl. rewrite <- app_assoc. reflexivity. Qed.

Lemma add_parms_ser_app (values : list value) (a b : ser) :
  add_parms values (ser_app a b) = ser_app a (add_parms values b).
Proof. unfold add_parms, ser_app. simpl. rewrite <- app_assoc. reflexivity. Qed.

Lemma emit_alone (line : string) (st : ser) :
  emit line st = ser_app st (emit line empty_ser).
Proof. rewrite <- emit_ser_app, ser_app_empty_r. reflexivity. Qed.

Lemma add_parms_alone (values : list value) (st : ser) :
  add_parms values st = ser_app st (add_parms values empty_ser).
Proof. rewrite <- add_parms_ser_app, ser_app_empty_r. reflexivity. Qed.

Lemma shift_shift {A : Type} (a b : ser) (r : run (ser * A)) :
  shift a (shift b r) = shift (ser_app a b) r.
Proof.
  destruct r as [[st x]| |]; simpl; [rewrite ser_app_assoc|..]; reflexivity.
Qed.

Lemma shift_empty {A : Type} (r : run (ser * A)) : shift empty_ser r = r.
Proof. destruct r as [[st x]| |]; simpl; [rewrite ser_app_empty_l|..]; reflexivity. Qed.

(** Sequencing two framed helpers gives a framed helper. *)
Lemma framed_bind {A B C : Type} (f : ser -> run (ser * A))
  (g : A -> ser -> run (ser * B)) (h : A -> B -> C) :
  framed f -> (forall a, framed (g a)) ->
  framed (fun st =>
            let+ (st1, a) := f st in
            let+ (st2, b) := g a st1 in
            Done (st2, h a b)).
Proof.
  intros Hf Hg st. cbv beta. rewrite (Hf st).
  destruct (f empty_ser) as [[s1 a]| |]; simpl; try reflexivity.
  rewrite (Hg a (ser_app st s1)), (Hg a s1).
  destruct (g a empty_ser) as [[s2 b]| |]; simpl; try reflexivity.
  rewrite ser_app_assoc. reflexivity.
Qed.

Ltac frame_case m :=
  destruct m as [[? ?]| |]; cbn [shift run_bind]; try reflexivity.

Section Framed.

Variable str_rec : Query -> run (string * Query).
Variable cond_rec :
  nat -> ser -> string -> Condition -> string -> string -> run (ser * Condition).
Hypothesis cond_framed :
  forall ind kw c p s, framed (fun st => cond_rec ind st kw c p s).

Lemma serialize_conditions_framed (conditions : list Condition) :
  forall ind kw,
    framed (fun st => serialize_conditions cond_rec ind st kw conditions).
Proof.
  induction conditions as [|c rest IH]; intros ind kw st;
    cbn [serialize_conditions shift].
  - rewrite ser_app_empty_r. reflexivity.
  - rewrite (cond_framed ind kw c "" "" st).
    frame_case (cond_rec ind empty_ser kw c "" "").
    rewrite (IH ind "AND" (ser_app st s)), (IH ind "AND" s).
    frame_case (serialize_conditions cond_rec ind empty_ser "AND" rest).
    rewrite ser_app_assoc. reflexivity.
Qed.

Lemma or_seq_framed (l : list Condition) :
  forall ind suffix last_or kw op cl,
    framed (fun st => or_seq cond_rec ind suffix last_or st kw op cl l).
Proof.
  induction l as [|c rest IH]; intros ind suffix last_or kw op cl st;
    cbn [or_seq shift].
  - rewrite ser_app_empty_r. reflexivity.
  - match goal with
    | |- context [cond_rec ind st kw c op ?cl'] =>
        rewrite (cond_framed ind kw c op cl' st);
        frame_case (cond_rec ind empty_ser kw c op cl');
        rewrite (IH ind suffix last_or "AND" "" cl' (ser_app st s)),
                (IH ind suffix last_or "AND" "" cl' s);
        frame_case (or_seq cond_rec ind suffix last_or empty_ser "AND" "" cl' rest)
    end.
    destruct p as [close2 rest2]. rewrite ser_app_assoc. reflexivity.
Qed.

Lemma or_args_framed (args : list or_arg) :
  forall ind suffix kw op cl,
    framed (fun st => or_args cond_rec ind suffix st kw op cl args).
Proof.
  induction args as [|a rest IH]; intros ind suffix kw op cl st;
    cbn [or_args shift].
  - rewrite ser_app_empty_r. reflexivity.
  - destruct a as [c|l].
    + match goal with
      | |- context [cond_rec ind st kw c op ?cl'] =>
          rewrite (cond_framed ind kw c op cl' st);
          frame_case (cond_rec ind empty_ser kw c op cl');
          rewrite (IH ind suffix "OR" "" cl' (ser_app st s)),
                  (IH ind suffix "OR" "" cl' s);
          frame_case (or_args cond_rec ind suffix empty_ser "OR" "" cl' rest)
      end.
      rewrite ser_app_assoc. reflexivity.
    + rewrite (or_seq_framed l ind suffix (is_nil rest) kw op cl st).
      frame_case (or_seq cond_rec ind suffix (is_nil rest) empty_ser kw op cl l).
      destruct p as [close1 l1].
      rewrite (IH ind suffix "OR" "" close1 (ser_app st s)),
              (IH ind suffix "OR" "" close1 s).
      frame_case (or_args cond_rec ind suffix empty_ser "OR" "" close1 rest).
      rewrite ser_app_assoc. reflexivity.
Qed.

Lemma serialize_condition_body_framed ind kw c p s :
  framed (fun st => serialize_condition_body str_rec cond_rec ind st kw c p s).
Proof.
  intros st. unfold serialize_condition_body.
  destruct c as [sql|column val test|conditions].
  - cbn [shift]. rewrite <- emit_ser_app, ser_app_empty_r. reflexivity.
  - destruct val as [nested|l|v].
    + frame_case (str_rec nested).
      rewrite <- add_parms_ser_app, <- !emit_ser_app, ser_app_empty_r.
      reflexivity.
    + destruct (is_in test); [|reflexivity].
      destruct (is_nil l); [reflexivity|]. cbn [shift].
      rewrite <- add_parms_ser_app, <- emit_ser_app, ser_app_empty_r.
      reflexivity.
    + destruct (is_in test); cbn [is_nil shift];
        rewrite <- add_parms_ser_app, <- emit_ser_app, ser_app_empty_r;
        reflexivity.
  - unfold _serialize_or_set.
    rewrite (or_args_framed conditions ind s kw ("(" +:+ p) "" st).
    frame_case (or_args cond_rec ind s empty_ser kw ("(" +:+ p) "" conditions).
Qed.

Lemma serialize_join_table_framed ind keyword (table : source) :
  framed (fun st => serialize_join_table str_rec ind st keyword table).
Proof.
  intros st. unfold serialize_join_table. destruct table as [name|t].
  - cbn [shift]. rewrite <- emit_ser_app, ser_app_empty_r. reflexivity.
  - destruct (negb (truthy (_alias t))); [reflexivity|].
    destruct (parms_with str_rec t) as [[p t1]| |]; cbn [run_bind shift];
      try reflexivity.
    destruct (negb (is_nil p)); [reflexivity|]. cbv zeta.
    destruct (str_rec t1) as [[sql t2]| |]; cbn [run_bind shift];
      try reflexivity.
    rewrite <- !emit_ser_app, ser_app_empty_r. reflexivity.
Qed.

Lemma _serialize_join_framed ind (j : Join) :
  framed (fun st => _serialize_join str_rec cond_rec ind st j).
Proof.
  intros st. unfold _serialize_join. destruct j as [table outer conditions].
  cbv zeta.
  rewrite (serialize_join_table_framed ind _ table st).
  frame_case (serialize_join_table str_rec ind empty_ser
                (if outer then "LEFT OUTER JOIN" else "JOIN") table).
  rewrite (serialize_conditions_framed conditions ind "ON" (ser_app st s)),
          (serialize_conditions_framed conditions ind "ON" s).
  frame_case (serialize_conditions cond_rec ind empty_ser "ON" conditions).
  rewrite ser_app_assoc. reflexivity.
Qed.

Lemma serialize_joins_framed (joins : list Join) :
  forall ind, framed (fun st => serialize_joins str_rec cond_rec ind st joins).
Proof.
  induction joins as [|j rest IH]; intros ind st; cbn [serialize_joins shift].
  - rewrite ser_app_empty_r. reflexivity.
  - rewrite (_serialize_join_framed ind j st).
    frame_case (_serialize_join str_rec cond_rec ind empty_ser j).
    rewrite (IH ind (ser_app st s)), (IH ind s).
    frame_case (serialize_joins str_rec cond_rec ind empty_ser rest).
    rewrite ser_app_assoc. reflexivity.
Qed.

Lemma serialize_from_framed ind (table : source) :
  framed (fun st => serialize_from str_rec ind st table).
Proof.
  intros st. unfold serialize_from. destruct table as [name|t].
  - cbn [shift]. rewrite <- emit_ser_app, ser_app_empty_r. reflexivity.
  - destruct (negb (truthy (_alias t))); [reflexivity|].
    destruct (str_rec t) as [[sql0 t1]| |]; cbn [run_bind shift];
      try reflexivity.
    destruct (negb (is_nil (_parms t1))); [reflexivity|]. cbv zeta.
    destruct (str_rec t1) as [[sql t2]| |]; cbn [run_bind shift];
      try reflexivity.
    rewrite <- !emit_ser_app, ser_app_empty_r. reflexivity.
Qed.

Lemma serialize_unions_framed (unions : list Query) :
  forall ind, framed (fun st => serialize_unions str_rec ind st unions).
Proof.
  induction unions as [|u rest IH]; intros ind st; cbn [serialize_unions shift].
  - rewrite ser_app_empty_r. reflexivity.
  - destruct (str_rec u) as [[sql u1]| |]; cbn [run_bind shift];
      try reflexivity.
    rewrite (IH ind (emit sql (emit (_align ind "UNION" "") st))),
            (IH ind (emit sql (emit (_align ind "UNION" "") empty_ser))).
    frame_case (serialize_unions str_rec ind empty_ser rest).
    rewrite <- ser_app_assoc, <- !emit_ser_app, ser_app_empty_r. reflexivity.
Qed.

End Framed.

(** [_serialize_condition] is framed, whatever the fuel. *)
Lemma _serialize_condition_framed (fuel : nat) :
  forall ind kw c p s,
    framed (fun st => _serialize_condition fuel ind st kw c p s).
Proof.
  induction fuel as [|fuel IH]; intros ind kw c p s st;
    cbn [_serialize_condition]; [reflexivity|].
  apply (serialize_condition_body_framed (__str__ fuel)
           (_serialize_condition fuel) IH ind kw c p s st).
Qed.

(** *** More fuel does not change an outcome *)

(** [a] is out of fuel or is [b] *)
Definition refines {A : Type} (a b : run A) : Prop :=
  a = OutOfFuel \/ a = b.

Lemma refines_refl {A : Type} (a : run A) : refines a a.
Proof. right. reflexivity. Qed.

Lemma refines_bind {A B : Type} (m m' : run A) (k k' : A -> run B) :
  refines m m' -> (forall a, refines (k a) (k' a)) ->
  refines (run_bind m k) (run_bind m' k').
Proof.
  intros [->| ->] Hk; [left; reflexivity|].
  destruct m' as [a| |]; cbn [run_bind];
    [apply Hk|apply refines_refl|apply refines_refl].
Qed.

Section Monotone.

Variables str_rec str_rec' : Query -> run (string * Query).
Variables cond_rec cond_rec' :
  nat -> ser -> string -> Condition -> string -> string -> run (ser * Condition).
Hypothesis str_refines : forall q, refines (str_rec q) (str_rec' q).
Hypothesis cond_refines :
  forall ind st kw c p s,
    refines (cond_rec ind st kw c p s) (cond_rec' ind st kw c p s).

Lemma parms_with_refines (q : Query) :
  refines (parms_with str_rec q) (parms_with str_rec' q).
Proof.
  unfold parms_with. destruct (_str q); [apply refines_refl|].
  apply refines_bind; [apply str_refines|intros [? ?]; apply refines_refl].
Qed.

Lemma serialize_conditions_refines (conditions : list Condition) :
  forall ind st kw,
    refines (serialize_conditions cond_rec ind st kw conditions)
            (serialize_conditions cond_rec' ind st kw conditions).
Proof.
  induction conditions as [|c rest IH]; intros ind st kw;
    cbn [serialize_conditions]; [apply refines_refl|].
  apply refines_bind; [apply cond_refines|intros [st1 c1]].
  apply refines_bind; [apply IH|intros [? ?]; apply refines_refl].
Qed.

Lemma or_seq_refines (l : list Condition) :
  forall ind suffix last_or st kw op cl,
    refines (or_seq cond_rec ind suffix last_or st kw op cl l)
            (or_seq cond_rec' ind suffix last_or st kw op cl l).
Proof.
  induction l as [|c rest IH]; intros ind suffix last_or st kw op cl;
    cbn [or_seq]; [apply refines_refl|].
  apply refines_bind; [apply cond_refines|intros [st1 c1]].
  apply refines_bind; [apply IH|intros [? [? ?]]; apply refines_refl].
Qed.

Lemma or_args_refines (args : list or_arg) :
  forall ind suffix st kw op cl,
    refines (or_args cond_rec ind suffix st kw op cl args)
            (or_args cond_rec' ind suffix st kw op cl args).
Proof.
  induction args as [|a rest IH]; intros ind suffix st kw op cl;
    cbn [or_args]; [apply refines_refl|].
  destruct a as [c|l].
  - apply refines_bind; [apply cond_refines|intros [st1 c1]].
    apply refines_bind; [apply IH|intros [? ?]; apply refines_refl].
  - apply refines_bind; [apply or_seq_refines|intros [st1 [close1 l1]]].
    apply refines_bind; [apply IH|intros [? ?]; apply refines_refl].
Qed.

Lemma serialize_condition_body_refines ind st kw c p s :
  refines (serialize_condition_body str_rec cond_rec ind st kw c p s)
          (serialize_condition_body str_rec' cond_rec' ind st kw c p s).
Proof.
  unfold serialize_condition_body, _serialize_or_set.
  destruct c as [sql|column val test|conditions].
  - apply refines_refl.
  - destruct val as [nested|l|v]; [|apply refines_refl..].
    apply refines_bind; [apply str_refines|intros [? ?]; apply refines_refl].
  - apply refines_bind; [apply or_args_refines|intros [? ?]; apply refines_refl].
Qed.

Lemma serialize_join_table_refines ind st keyword table :
  refines (serialize_join_table str_rec ind st keyword table)
          (serialize_join_table str_rec' ind st keyword table).
Proof.
  unfold serialize_join_table. destruct table as [name|t];
    [apply refines_refl|].
  destruct (negb (truthy (_alias t))); [apply refines_refl|].
  apply refines_bind; [apply parms_with_refines|intros [p t1]].
  destruct (negb (is_nil p)); [apply refines_refl|].
  apply refines_bind; [apply str_refines|intros [? ?]; apply refines_refl].
Qed.

Lemma _serialize_join_refines ind st j :
  refines (_serialize_join str_rec cond_rec ind st j)
          (_serialize_join str_rec' cond_rec' ind st j).
Proof.
  unfold _serialize_join. destruct j as [table outer conditions].
  apply refines_bind; [apply serialize_join_table_refines|intros [st1 t1]].
  apply refines_bind;
    [apply serialize_conditions_refines|intros [? ?]; apply refines_refl].
Qed.

Lemma serialize_joins_refines (joins : list Join) :
  forall ind st,
    refines (serialize_joins str_rec cond_rec ind st joins)
            (serialize_joins str_rec' cond_rec' ind st joins).
Proof.
  induction joins as [|j rest IH]; intros ind st; cbn [serialize_joins];
    [apply refines_refl|].
  apply refines_bind; [apply _serialize_join_refines|intros [st1 j1]].
  apply refines_bind; [apply IH|intros [? ?]; apply refines_refl].
Qed.

Lemma serialize_from_refines ind st table :
  refines (serialize_from str_rec ind st table)
          (serialize_from str_rec' ind st table).
Proof.
  unfold serialize_from. destruct table as [name|t]; [apply refines_refl|].
  destruct (negb (truthy (_alias t))); [apply refines_refl|].
  apply refines_bind; [apply str_refines|intros [sql t1]].
  destruct (negb (is_nil (_parms t1))); [apply refines_refl|].
  apply refines_bind; [apply str_refines|intros [? ?]; apply refines_refl].
Qed.

Lemma serialize_unions_refines (unions : list Query) :
  forall ind st,
    refines (serialize_unions str_rec ind st unions)
            (serialize_unions str_rec' ind st unions).
Proof.
  induction unions as [|u rest IH]; intros ind st; cbn [serialize_unions];
    [apply refines_refl|].
  apply refines_bind; [apply str_refines|intros [sql u1]].
  apply refines_bind; [apply IH|intros [? ?]; apply refines_refl].
Qed.

Lemma str_body_refines (q : Query) :
  refines (str_body str_rec cond_rec q) (str_body str_rec' cond_rec' q).
Proof.
  unfold str_body. destruct q. destruct (truthy str); [apply refines_refl|].
  cbv zeta.
  apply refines_bind; [apply serialize_from_refines|intros [? ?]].
  apply refines_bind; [apply serialize_joins_refines|intros [? ?]].
  apply refines_bind; [apply serialize_conditions_refines|intros [? ?]].
  apply refines_bind; [apply serialize_conditions_refines|intros [? ?]].
  apply refines_bind; [apply serialize_unions_refines|intros [? ?]].
  apply refines_refl.
Qed.

End Monotone.

Lemma fuel_refines (fuel : nat) :
  (forall q, refines (__str__ fuel q) (__str__ (S fuel) q)) /\
  (forall ind st kw c p s,
      refines (_serialize_condition fuel ind st kw c p s)
              (_serialize_condition (S fuel) ind st kw c p s)).
Proof.
  induction fuel as [|fuel [IHs IHc]].
  - split; intros; left; reflexivity.
  - split.
    + intros q. cbn [__str__]. apply str_body_refines; assumption.
    + intros ind st kw c p s. cbn [_serialize_condition].
      apply serialize_condition_body_refines; assumption.
Qed.

(** What a rendering returns or raises with some fuel, it returns or
    raises with any larger fuel. *)
Lemma __str___more_fuel (fuel fuel' : nat) (q : Query) :
  (fuel <= fuel')%nat -> __str__ fuel q <> OutOfFuel ->
  __str__ fuel' q = __str__ fuel q.
Proof.
  intros Hle Hnot. induction Hle as [|fuel' Hle IH]; [reflexivity|].
  destruct (proj1 (fuel_refines fuel') q) as [Ho|He].
  - rewrite IH in Ho. contradiction.
  - rewrite <- He. exact IH.
Qed.

(** *** The clauses of a rendering *)

Definition select_clause (ind : nat) (q : Query) : list string :=
  [_align ind (select_keywords q) (Py.join ", " (_columns q))].

Definition into_clause (ind : nat) (q : Query) : list string :=
  if truthy (_into q) then [_align ind "INTO" (default "" (_into q))] else [].

Definition group_clause (ind : nat) (q : Query) : list string :=
  if negb (is_nil (_group q))
  then [_align ind "GROUP BY" (Py.join ", " (_group q))]
  else [].

Definition order_clause (ind : nat) (q : Query) : list string :=
  if negb (is_nil (_order q))
  then [_align ind "ORDER BY" (Py.join ", " (_order q))]
  else [].

Section Fresh.

Variable str_rec : Query -> run (string * Query).
Variable cond_rec :
  nat -> ser -> string -> Condition -> string -> string -> run (ser * Condition).
Hypothesis cond_framed :
  forall ind kw c p s, framed (fun st => cond_rec ind st kw c p s).

(** A rendering that does not come from the cache is made of what the
    five helpers produce, each from nothing, between the lines that
    [__str__] writes itself. *)
Lemma str_body_fresh (q : Query) (s : string) (q' : Query) :
  truthy (_str q) = false ->
  str_body str_rec cond_rec q = Done (s, q') ->
  let ind := padding_of q in
  exists sf sj sw sh su t' j' w' h' u',
    serialize_from str_rec ind empty_ser (_table q) = Done (sf, t') /\
    serialize_joins str_rec cond_rec ind empty_ser (_joins q) = Done (sj, j') /\
    serialize_conditions cond_rec ind empty_ser "WHERE" (_where q)
      = Done (sw, w') /\
    serialize_conditions cond_rec ind empty_ser "HAVING" (_having q)
      = Done (sh, h') /\
    serialize_unions str_rec ind empty_ser (_unions q) = Done (su, u') /\
    s = Py.join NL
          (select_clause ind q ++ into_clause ind q ++ query sf ++ query sj
           ++ query sw ++ group_clause ind q ++ query sh ++ query su
           ++ order_clause ind q) /\
    q' = mk_Query t' (_columns q) j' w' (_group q) h' (_order q)
           (parms_ sf ++ parms_ sj ++ parms_ sw ++ parms_ sh ++ parms_ su)
           u' (_timeout q) (_alias q) (_into q) (_limit q) (_unique q)
           (Some s) (_outer q) (_as_dict q) (Some ind).
Proof.
  intros Hfresh. unfold str_body.
  destruct q as [table columns joins wh grp hav ord pms unions tmo als
                 into lim unq str out asd idt].
  cbn [_str] in Hfresh. rewrite Hfresh.
  set (q := mk_Query table columns joins wh grp hav ord pms unions tmo als
              into lim unq str out asd idt).
  cbv zeta. set (ind := padding_of q).
  match goal with
  | |- context [serialize_from str_rec ind ?st table] =>
      set (st1 := st); rewrite (serialize_from_framed str_rec ind table st1)
  end.
  destruct (serialize_from str_rec ind empty_ser table) as [[sf t']| |] eqn:Ef;
    cbn [shift run_bind]; try discriminate.
  rewrite (serialize_joins_framed str_rec cond_rec cond_framed joins ind).
  destruct (serialize_joins str_rec cond_rec ind empty_ser joins)
    as [[sj j']| |] eqn:Ej; cbn [shift run_bind]; try discriminate.
  rewrite (serialize_conditions_framed cond_rec cond_framed wh ind "WHERE").
  destruct (serialize_conditions cond_rec ind empty_ser "WHERE" wh)
    as [[sw w']| |] eqn:Ew; cbn [shift run_bind]; try discriminate.
  match goal with
  | |- context [serialize_conditions cond_rec ind ?st "HAVING" hav] =>
      set (st2 := st);
      rewrite (serialize_conditions_framed cond_rec cond_framed hav ind
                 "HAVING" st2)
  end.
  destruct (serialize_conditions cond_rec ind empty_ser "HAVING" hav)
    as [[sh h']| |] eqn:Eh; cbn [shift run_bind]; try discriminate.
  rewrite (serialize_unions_framed str_rec unions ind).
  destruct (serialize_unions str_rec ind empty_ser unions)
    as [[su u']| |] eqn:Eu; cbn [shift run_bind]; try discriminate.
  intros [= <- <-].
  exists sf, sj, sw, sh, su, t', j', w', h', u'.
  assert (Hq :
    query (if negb (is_nil ord)
           then emit (_align ind "ORDER BY" (Py.join ", " ord))
                     (ser_app (ser_app st2 sh) su)
           else ser_app (ser_app st2 sh) su) =
    (select_clause ind q ++ into_clause ind q ++ query sf ++ query sj
     ++ query sw ++ group_clause ind q ++ query sh ++ query su
     ++ order_clause ind q)%list).
  { unfold select_clause, into_clause, group_clause, order_clause, st2, st1.
    cbn [_into _group _order _columns q].
    destruct (truthy into), (negb (is_nil grp)), (negb (is_nil ord));
      cbn [query emit ser_app parms_]; rewrite <- ?app_assoc;
      cbn [app]; rewrite ?app_nil_r; reflexivity. }
  assert (Hp :
    parms_ (if negb (is_nil ord)
            then emit (_align ind "ORDER BY" (Py.join ", " ord))
                      (ser_app (ser_app st2 sh) su)
            else ser_app (ser_app st2 sh) su) =
    (parms_ sf ++ parms_ sj ++ parms_ sw ++ parms_ sh ++ parms_ su)%list).
  { unfold st2, st1.
    destruct (truthy into), (negb (is_nil grp)), (negb (is_nil ord));
      cbn [query emit ser_app parms_]; rewrite <- ?app_assoc;
      cbn [app]; reflexivity. }
  rewrite Hq, Hp. repeat split; (assumption || reflexivity).
Qed.

End Fresh.

(** *** A rendering is never empty, and is kept *)

Lemma truthy_app_l (a b : string) :
  Py.truthy a = true -> Py.truthy (a +:+ b) = true.
Proof. destruct a; [discriminate|reflexivity]. Qed.

Lemma truthy_app_r (a b : string) :
  Py.truthy b = true -> Py.truthy (a +:+ b) = true.
Proof. intros Hb. destruct a; [exact Hb|reflexivity]. Qed.

Lemma truthy__align (ind : nat) (keyword rest : string) :
  Py.truthy (_align ind keyword rest) = true.
Proof. unfold _align. apply truthy_app_r. reflexivity. Qed.

Lemma truthy_join (sep x : string) (l : list string) :
  Py.truthy x = true -> Py.truthy (Py.join sep (x :: l)) = true.
Proof.
  intros Hx. cbn [Py.join]. destruct l; [exact Hx|].
  apply truthy_app_l. exact Hx.
Qed.

(** After [str(q)] the attribute [_str] holds the string returned, which
    is not empty. *)
Lemma __str___cached (fuel : nat) (q : Query) (s : string) (q1 : Query) :
  __str__ fuel q = Done (s, q1) ->
  _str q1 = Some s /\ Py.truthy s = true.
Proof.
  destruct fuel as [|fuel]; cbn [__str__]; [discriminate|].
  destruct (truthy (_str q)) eqn:Hc.
  - unfold str_body. destruct q. cbn [_str] in Hc. rewrite Hc.
    intros [= <- <-]. cbn [_str].
    destruct str as [s0|]; [|discriminate]. split; [reflexivity|exact Hc].
  - intros H.
    destruct (str_body_fresh (__str__ fuel) (_serialize_condition fuel)
                (_serialize_condition_framed fuel) q s q1 Hc H)
      as (sf & sj & sw & sh & su & t' & j' & w' & h' & u' & _ & _ & _ & _ & _
          & Hs & Hq).
    split; [rewrite Hq; reflexivity|].
    rewrite Hs. unfold select_clause. cbn [app].
    apply truthy_join, truthy__align.
Qed.

(** A query whose [_str] holds a string that is not empty is rendered
    from that attribute and is left as it is. *)
Lemma __str___from_cache (fuel : nat) (q : Query) (s : string) :
  _str q = Some s -> Py.truthy s = true ->
  __str__ (S fuel) q = Done (s, q).
Proof.
  intros Hs Ht. cbn [__str__]. unfold str_body. destruct q.
  cbn [_str] in Hs. subst str. cbn [truthy]. rewrite Ht. reflexivity.
Qed.

Lemma parms_from_cache (fuel : nat) (q : Query) (s : string) :
  _str q = Some s -> parms fuel q = Done (_parms q, q).
Proof. intros Hs. unfold parms, parms_with. rewrite Hs. reflexivity. Qed.

(** The second of two renderings comes from the cache. *)
Lemma rendering_twice_core (fuel : nat) (q : Query) (s : string) (q1 : Query) :
  __str__ fuel q = Done (s, q1) ->
  parms fuel q1 = Done (_parms q1, q1) /\
  __str__ fuel q1 = Done (s, q1).
Proof.
  intros H. destruct (__str___cached fuel q s q1 H) as [Hs Ht].
  split.
  - apply (parms_from_cache fuel q1 s Hs).
  - destruct fuel as [|fuel]; [discriminate|].
    apply __str___from_cache; assumption.
Qed.

(** C5: when a rendering of a query returns the string [s] and leaves the
    query as [q1], the parameter list read next is [_parms q1], a second
    rendering returns [s] again, and both calls leave the query, and with
    it its parameter list, as [q1]: the string and the parameters of the
    second rendering are those of the first. *)
Theorem rendering_twice_is_identical (fuel : nat) (q : Query) (s : string)
  (q1 : Query) :
  __str__ fuel q = Done (s, q1) ->
  parms fuel q1 = Done (_parms q1, q1) /\
  __str__ fuel q1 = Done (s, q1).
Proof.
  intros H. destruct (__str___cached fuel q s q1 H) as [Hs Ht].
  split.
  - apply (parms_from_cache fuel q1 s Hs).
  - destruct fuel as [|fuel]; [discriminate|].
    apply __str___from_cache; assumption.
Qed.

(** *** Enough fuel *)

(** The levels of nesting of a query and of a condition *)
Fixpoint depth_q (q : Query) : nat :=
  match q with
  | mk_Query t _ j w _ h _ _ u _ _ _ _ _ _ _ _ _ =>
      S (Nat.max (depth_source t)
           (Nat.max (list_max (map depth_join j))
              (Nat.max (list_max (map depth_cond w))
                 (Nat.max (list_max (map depth_cond h))
                          (list_max (map depth_q u))))))
  end
with depth_source (t : source) : nat :=
  match t with
  | Plain _ => O
  | Virtual q => depth_q q
  end
with depth_join (j : Join) : nat :=
  match j with
  | mk_Join t _ conditions =>
      Nat.max (depth_source t) (list_max (map depth_cond conditions))
  end
with depth_cond (c : Condition) : nat :=
  match c with
  | Text _ => 1%nat
  | Cond _ v _ => S (depth_operand v)
  | Or args => S (list_max (map depth_arg args))
  end
with depth_operand (v : operand) : nat :=
  match v with
  | Nested q => depth_q q
  | Values _ => O
  | Single _ => O
  end
with depth_arg (a : or_arg) : nat :=
  match a with
  | One c => depth_cond c
  | Seq l => list_max (map depth_cond l)
  end.

Definition finishes {A : Type} (r : run A) : Prop := r <> OutOfFuel.

Lemma finishes_bind {A B : Type} (m : run A) (k : A -> run B) :
  finishes m -> (forall a, m = Done a -> finishes (k a)) ->
  finishes (run_bind m k).
Proof.
  intros Hm Hk. destruct m as [a| |]; cbn [run_bind];
    [apply Hk; reflexivity|discriminate|contradiction].
Qed.

Lemma list_max_map_le {A : Type} (g : A -> nat) (l : list A) (n : nat) :
  (list_max (map g l) <= n)%nat -> Forall (fun x => (g x <= n)%nat) l.
Proof.
  intros H. apply list_max_le in H. apply Forall_map in H. exact H.
Qed.

Section Total.

Variable str_rec : Query -> run (string * Query).
Variable cond_rec :
  nat -> ser -> string -> Condition -> string -> string -> run (ser * Condition).
Variable f : nat.
Hypothesis str_total : forall q, (depth_q q <= f)%nat -> finishes (str_rec q).
Hypothesis str_again :
  forall q s q1, str_rec q = Done (s, q1) -> str_rec q1 = Done (s, q1).
Hypothesis cond_total :
  forall ind st kw c p s,
    (depth_cond c <= f)%nat -> finishes (cond_rec ind st kw c p s).

Lemma serialize_conditions_total (conditions : list Condition) :
  Forall (fun c => (depth_cond c <= f)%nat) conditions ->
  forall ind st kw,
    finishes (serialize_conditions cond_rec ind st kw conditions).
Proof.
  induction 1 as [|c rest Hc _ IH]; intros ind st kw;
    cbn [serialize_conditions]; [discriminate|].
  apply finishes_bind; [apply cond_total, Hc|intros [st1 c1] _].
  apply finishes_bind; [apply IH|intros [? ?] _; discriminate].
Qed.

Lemma or_seq_total (l : list Condition) :
  Forall (fun c => (depth_cond c <= f)%nat) l ->
  forall ind suffix last_or st kw op cl,
    finishes (or_seq cond_rec ind suffix last_or st kw op cl l).
Proof.
  induction 1 as [|c rest Hc _ IH]; intros ind suffix last_or st kw op cl;
    cbn [or_seq]; [discriminate|].
  apply finishes_bind; [apply cond_total, Hc|intros [st1 c1] _].
  apply finishes_bind; [apply IH|intros [? [? ?]] _; discriminate].
Qed.

Lemma or_args_total (args : list or_arg) :
  Forall (fun a => (depth_arg a <= f)%nat) args ->
  forall ind suffix st kw op cl,
    finishes (or_args cond_rec ind suffix st kw op cl args).
Proof.
  induction 1 as [|a rest Ha _ IH]; intros ind suffix st kw op cl;
    cbn [or_args]; [discriminate|].
  destruct a as [c|l]; cbn [depth_arg] in Ha.
  - apply finishes_bind; [apply cond_total, Ha|intros [st1 c1] _].
    apply finishes_bind; [apply IH|intros [? ?] _; discriminate].
  - apply finishes_bind;
      [apply or_seq_total, list_max_map_le, Ha|intros [st1 [cl1 l1]] _].
    apply finishes_bind; [apply IH|intros [? ?] _; discriminate].
Qed.

Lemma serialize_condition_body_total ind st kw c p s :
  (depth_cond c <= S f)%nat ->
  finishes (serialize_condition_body str_rec cond_rec ind st kw c p s).
Proof.
  intros Hd. unfold serialize_condition_body, _serialize_or_set.
  destruct c as [sql|column val test|conditions]; cbn [depth_cond] in Hd.
  - discriminate.
  - destruct val as [nested|l|v]; cbn [depth_operand] in Hd.
    + apply finishes_bind; [apply str_total; lia|intros [? ?] _; discriminate].
    + destruct (is_in test); [|discriminate].
      destruct (is_nil l); discriminate.
    + destruct (is_in test); cbn [is_nil]; discriminate.
  - apply finishes_bind;
      [apply or_args_total, list_max_map_le; lia|intros [? ?] _; discriminate].
Qed.

Lemma serialize_join_table_total ind st keyword table :
  (depth_source table <= f)%nat ->
  finishes (serialize_join_table str_rec ind st keyword table).
Proof.
  intros Hd. unfold serialize_join_table.
  destruct table as [name|t]; [discriminate|]. cbn [depth_source] in Hd.
  destruct (negb (truthy (_alias t))); [discriminate|].
  assert (Hp : finishes (parms_with str_rec t) /\
               forall p t1, parms_with str_rec t = Done (p, t1) ->
                            finishes (str_rec t1)).
  { unfold parms_with. destruct (_str t).
    - split; [discriminate|]. intros p t1 [= _ <-]. apply str_total, Hd.
    - pose proof (str_total t Hd) as Ht.
      destruct (str_rec t) as [[sql t']| |] eqn:E; cbn [run_bind].
      + split; [discriminate|]. intros p t1 [= _ <-].
        rewrite (str_again t sql t' E). discriminate.
      + split; [discriminate|]. intros p t1 [=].
      + contradiction. }
  destruct Hp as [Hp1 Hp2].
  apply finishes_bind; [exact Hp1|intros [p t1] E].
  destruct (negb (is_nil p)); [discriminate|]. cbv zeta.
  apply finishes_bind; [exact (Hp2 p t1 E)|intros [? ?] _; discriminate].
Qed.

Lemma _serialize_join_total ind st j :
  (depth_join j <= f)%nat ->
  finishes (_serialize_join str_rec cond_rec ind st j).
Proof.
  intros Hd. unfold _serialize_join. destruct j as [table outer conditions].
  cbn [depth_join] in Hd. cbv zeta.
  apply finishes_bind; [apply serialize_join_table_total; lia|intros [st1 t1] _].
  apply finishes_bind;
    [apply serialize_conditions_total, list_max_map_le; lia
    |intros [? ?] _; discriminate].
Qed.

Lemma serialize_joins_total (joins : list Join) :
  Forall (fun j => (depth_join j <= f)%nat) joins ->
  forall ind st, finishes (serialize_joins str_rec cond_rec ind st joins).
Proof.
  induction 1 as [|j rest Hj _ IH]; intros ind st; cbn [serialize_joins];
    [discriminate|].
  apply finishes_bind; [apply _serialize_join_total, Hj|intros [st1 j1] _].
  apply finishes_bind; [apply IH|intros [? ?] _; discriminate].
Qed.

Lemma serialize_from_total ind st table :
  (depth_source table <= f)%nat ->
  finishes (serialize_from str_rec ind st table).
Proof.
  intros Hd. unfold serialize_from.
  destruct table as [name|t]; [discriminate|]. cbn [depth_source] in Hd.
  destruct (negb (truthy (_alias t))); [discriminate|].
  apply finishes_bind; [apply str_total, Hd|intros [sql t1] E].
  destruct (negb (is_nil (_parms t1))); [discriminate|]. cbv zeta.
  rewrite (str_again t sql t1 E). cbn [run_bind]. discriminate.
Qed.

Lemma serialize_unions_total (unions : list Query) :
  Forall (fun u => (depth_q u <= f)%nat) unions ->
  forall ind st, finishes (serialize_unions str_rec ind st unions).
Proof.
  induction 1 as [|u rest Hu _ IH]; intros ind st; cbn [serialize_unions];
    [discriminate|].
  apply finishes_bind; [apply str_total, Hu|intros [sql u1] _].
  apply finishes_bind; [apply IH|intros [? ?] _; discriminate].
Qed.

Lemma str_body_total (q : Query) :
  (depth_q q <= S f)%nat -> finishes (str_body str_rec cond_rec q).
Proof.
  intros Hd. unfold str_body. destruct q. cbn [depth_q] in Hd.
  destruct (truthy str); [discriminate|]. cbv zeta.
  apply finishes_bind; [apply serialize_from_total; lia|intros [? ?] _].
  apply finishes_bind;
    [apply serialize_joins_total, list_max_map_le; lia|intros [? ?] _].
  apply finishes_bind;
    [apply serialize_conditions_total, list_max_map_le; lia|intros [? ?] _].
  apply finishes_bind;
    [apply serialize_conditions_total, list_max_map_le; lia|intros [? ?] _].
  apply finishes_bind;
    [apply serialize_unions_total, list_max_map_le; lia|intros [? ?] _].
  discriminate.
Qed.

End Total.

Lemma fuel_total (fuel : nat) :
  (forall q, (depth_q q <= fuel)%nat -> finishes (__str__ fuel q)) /\
  (forall ind st kw c p s,
      (depth_cond c <= fuel)%nat ->
      finishes (_serialize_condition fuel ind st kw c p s)).
Proof.
  induction fuel as [|fuel [IHs IHc]].
  - split.
    + intros q. destruct q. cbn [depth_q]. lia.
    + intros ind st kw c p s. destruct c; cbn [depth_cond]; lia.
  - split.
    + intros q Hd. cbn [__str__].
      apply (str_body_total (__str__ fuel) (_serialize_condition fuel) fuel
               IHs (fun q s q1 H => proj2 (rendering_twice_core fuel q s q1 H))
               IHc q Hd).
    + intros ind st kw c p s Hd. cbn [_serialize_condition].
      apply (serialize_condition_body_total (__str__ fuel)
               (_serialize_condition fuel) fuel IHs IHc ind st kw c p s Hd).
Qed.

(** Every query is rendered, to a string or to an exception, with the
    fuel of its depth, and with any larger fuel to the same outcome. *)
Theorem __str___total (q : Query) (fuel : nat) :
  (depth_q q <= fuel)%nat ->
  __str__ fuel q = __str__ (depth_q q) q /\ __str__ fuel q <> OutOfFuel.
Proof.
  intros Hle.
  pose proof (proj1 (fuel_total (depth_q q)) q (Nat.le_refl _)) as Hfin.
  rewrite (__str___more_fuel (depth_q q) fuel q Hle Hfin).
  split; [reflexivity|exact Hfin].
Qed.

(** *** The order of the clauses *)

(** The blocks of a list of conditions: each condition rendered on its
    own, the first one under the keyword of the clause and the others
    under [AND]. *)
Inductive condition_blocks
  (one : string -> Condition -> run (ser * Condition))
  : string -> list Condition -> list ser -> Prop :=
| blocks_nil (kw : string) : condition_blocks one kw [] []
| blocks_cons (kw : string) (c c' : Condition) (rest : list Condition)
    (b : ser) (bs : list ser) :
    one kw c = Done (b, c') ->
    condition_blocks one "AND" rest bs ->
    condition_blocks one kw (c :: rest) (b :: bs).

Definition lines_of (blocks : list ser) : list string :=
  concat (map query blocks).

Section Blocks.

Variable str_rec : Query -> run (string * Query).
Variable cond_rec :
  nat -> ser -> string -> Condition -> string -> string -> run (ser * Condition).
Hypothesis cond_framed :
  forall ind kw c p s, framed (fun st => cond_rec ind st kw c p s).

Lemma serialize_conditions_blocks (ind : nat) (conditions : list Condition) :
  forall kw st conditions',
    serialize_conditions cond_rec ind empty_ser kw conditions
      = Done (st, conditions') ->
    exists bs,
      condition_blocks (fun kw c => cond_rec ind empty_ser kw c "" "")
                       kw conditions bs /\
      query st = lines_of bs.
Proof.
  induction conditions as [|c rest IH]; intros kw st conditions';
    cbn [serialize_conditions].
  - intros [= <- <-]. exists []. split; [constructor|reflexivity].
  - destruct (cond_rec ind empty_ser kw c "" "") as [[b c1]| |] eqn:Ec;
      cbn [run_bind]; try discriminate.
    rewrite (serialize_conditions_framed cond_rec cond_framed rest ind "AND" b).
    destruct (serialize_conditions cond_rec ind empty_ser "AND" rest)
      as [[s2 r2]| |] eqn:Er; cbn [shift run_bind]; try discriminate.
    intros [= <- <-]. destruct (IH "AND" s2 r2 Er) as (bs & Hbs & Hq).
    exists (b :: bs). split; [econstructor; eassumption|].
    unfold lines_of in *. cbn [map concat ser_app query]. rewrite Hq.
    reflexivity.
Qed.



End Blocks.


(** The block of one join, of one condition and of one union *)
Definition join_block (fuel ind : nat) (j : Join) (b : ser) : Prop :=
  exists j',
    _serialize_join (__str__ fuel) (_serialize_condition fuel) ind empty_ser j
      = Done (b, j').

Definition condition_block (fuel ind : nat) (kw : string) (c : Condition)
  : run (ser * Condition) :=
  _serialize_condition fuel ind empty_ser kw c "" "".




(** The block of a condition given as a string is one line under its
    keyword. *)
Lemma append_empty_r (s : string) : s +:+ "" = s.
Proof.
  induction s as [|c s IH]; [reflexivity|].
  change (String c (s +:+ "") = String c s). rewrite IH. reflexivity.
Qed.

Lemma text_condition_block (fuel ind : nat) (kw sql : string) :
  condition_block (S fuel) ind kw (Text sql)
  = Done ({| query := [_align ind kw sql]; parms_ := [] |}, Text sql).
Proof.
  unfold condition_block. cbn [_serialize_condition serialize_condition_body].
  unfold emit. cbn [query parms_ empty_ser app].
  change ("" +:+ sql +:+ "") with (sql +:+ "").
  rewrite append_empty_r. reflexivity.
Qed.

(** The block of a join with a named table: the line of the table under
    [JOIN] or [LEFT OUTER JOIN], then the conditions, the first under [ON]
    and the others under [AND]. *)
Lemma named_join_block (fuel ind : nat) (name : string) (outer : bool)
  (conditions : list Condition) (b : ser) :
  join_block fuel ind (mk_Join (Plain name) outer conditions) b ->
  exists bs,
    condition_blocks (condition_block fuel ind) "ON" conditions bs /\
    query b =
      _align ind (if outer then "LEFT OUTER JOIN" else "JOIN") name
      :: lines_of bs.
Proof.
  intros [j' H]. unfold _serialize_join in H.
  cbn [serialize_join_table run_bind] in H.
  rewrite (serialize_conditions_framed (_serialize_condition fuel)
             (_serialize_condition_framed fuel) conditions ind "ON") in H.
  destruct (serialize_conditions (_serialize_condition fuel) ind empty_ser
              "ON" conditions) as [[st c']| |] eqn:E;
    cbn [shift run_bind] in H; try discriminate.
  injection H as <- _.
  destruct (serialize_conditions_blocks (_serialize_condition fuel)
              (_serialize_condition_framed fuel) ind conditions "ON" st c' E)
    as (bs & Hbs & Hq).
  exists bs. split; [exact Hbs|].
  cbn [ser_app query emit empty_ser app]. rewrite Hq. reflexivity.
Qed.

(** A condition whose first line is written under the keyword it is
    given: a string, a [Query.Condition], or a [Query.Or] whose first
    argument starts with such a condition. *)
Inductive keyworded : Condition -> Prop :=
| keyworded_text (sql : string) : keyworded (Text sql)
| keyworded_cond (column : string) (val : operand) (test : string) :
    keyworded (Cond column val test)
| keyworded_or_one (c : Condition) (rest : list or_arg) :
    keyworded c -> keyworded (Or (One c :: rest))
| keyworded_or_seq (c : Condition) (l : list Condition) (rest : list or_arg) :
    keyworded c -> keyworded (Or (Seq (c :: l) :: rest)).

Definition starts_with_keyword (ind : nat) (kw : string) (b : ser) : Prop :=
  exists rest lines, query b = _align ind kw rest :: lines.

Lemma starts_with_keyword_app (ind : nat) (kw : string) (a b : ser) :
  starts_with_keyword ind kw a -> starts_with_keyword ind kw (ser_app a b).
Proof.
  intros (rest & lines & H). exists rest, (lines ++ query b)%list.
  cbn [ser_app query]. rewrite H. reflexivity.
Qed.

Lemma keyworded_first_line (c : Condition) :
  keyworded c ->
  forall fuel ind kw p s b c',
    _serialize_condition fuel ind empty_ser kw c p s = Done (b, c') ->
    starts_with_keyword ind kw b.
Proof.
  induction 1 as [sql|column val test|c rest Hc IH|c l rest Hc IH];
    intros [|fuel] ind kw p s b c'; cbn [_serialize_condition];
    try discriminate; unfold serialize_condition_body.
  - intros [= <- _]. eexists _, []. reflexivity.
  - destruct val as [nested|l|v].
    + destruct (__str__ fuel nested) as [[sql n']| |]; cbn [run_bind];
        try discriminate.
      intros [= <- _]. eexists _, [_]. reflexivity.
    + destruct (is_in test); [|discriminate].
      destruct (is_nil l); [discriminate|].
      intros [= <- _]. eexists _, []. reflexivity.
    + destruct (is_in test); cbn [is_nil]; intros [= <- _];
        eexists _, []; reflexivity.
  - unfold _serialize_or_set. cbn [or_args].
    match goal with
    | |- context [_serialize_condition fuel ind empty_ser kw c ?op ?cl] =>
        destruct (_serialize_condition fuel ind empty_ser kw c op cl)
          as [[b1 c1]| |] eqn:E1; cbn [run_bind]; try discriminate;
        rewrite (or_args_framed (_serialize_condition fuel)
                   (_serialize_condition_framed fuel) rest ind s "OR" "" cl b1)
    end.
    match goal with
    | |- context [shift b1 ?m] => destruct m as [[b2 r2]| |]
    end; cbn [shift run_bind]; try discriminate.
    intros [= <- _]. apply starts_with_keyword_app.
    exact (IH fuel ind kw _ _ b1 c1 E1).
  - unfold _serialize_or_set. cbn [or_args or_seq].
    match goal with
    | |- context [_serialize_condition fuel ind empty_ser kw c ?op ?cl] =>
        destruct (_serialize_condition fuel ind empty_ser kw c op cl)
          as [[b1 c1]| |] eqn:E1; cbn [run_bind]; try discriminate;
        rewrite (or_seq_framed (_serialize_condition fuel)
                   (_serialize_condition_framed fuel) l ind s (is_nil rest)
                   "AND" "" cl b1)
    end.
    match goal with
    | |- context [shift b1 ?m] => destruct m as [[b2 [cl2 l2]]| |]
    end; cbn [shift run_bind]; try discriminate.
    match goal with
    | |- context [or_args ?f ind s (ser_app b1 b2) ?k ?o ?c0 rest] =>
        rewrite (or_args_framed f (_serialize_condition_framed fuel) rest
                   ind s k o c0 (ser_app b1 b2));
        destruct (or_args f ind s empty_ser k o c0 rest) as [[b3 r3]| |]
    end; cbn [shift run_bind]; try discriminate.
    intros [= <- _]. rewrite ser_app_assoc. apply starts_with_keyword_app.
    exact (IH fuel ind kw _ _ b1 c1 E1).
Qed.

(** In a clause of keyworded conditions the first block starts under the
    keyword of the clause and every other block under [AND]. *)
Lemma condition_blocks_keywords (fuel ind : nat) (conditions : list Condition) :
  forall kw bs,
    Forall keyworded conditions ->
    condition_blocks (condition_block fuel ind) kw conditions bs ->
    match bs with
    | [] => conditions = []
    | b :: rest =>
        starts_with_keyword ind kw b /\
        Forall (starts_with_keyword ind "AND") rest
    end.
Proof.
  induction conditions as [|c rest IH]; intros kw bs Hk Hb;
    inversion Hb as [|? ? c' ? b bs' Hone Hrest]; subst; [reflexivity|].
  inversion Hk as [|? ? Hc Hk']; subst. split.
  - exact (keyworded_first_line c Hc fuel ind kw "" "" b c' Hone).
  - specialize (IH "AND" bs' Hk' Hrest). destruct bs' as [|b' bs''];
      [constructor|]. destruct IH as [Hb' Hrest']. constructor; assumption.
Qed.

(** Every method that changes a query leaves [_str] empty, so that the
    next rendering is assembled anew. *)
Lemma mutators_reset__str (q : Query) (c : Condition) (t : source)
  (args : list or_arg) (cols : list (string + list string)) (n : Z)
  (name : string) (u : Query) :
  _str (join t args q) = None /\ _str (outer t args q) = None /\
  _str (where_ c q) = None /\ _str (group cols q) = None /\
  _str (having c q) = None /\ _str (union u q) = None /\
  _str (limit n q) = None /\ _str (unique q) = None /\
  _str (alias name q) = None /\ _str (into name q) = None.
Proof. destruct q. repeat split. Qed.

(** *** A query with every clause *)

Definition sample_unordered : Query :=
  unique (limit 5 (into "#found"
    (union (where_ (Cond "id" (Values [VInt 1; VInt 2]) "IN")
                   (Query__init__ (Plain "document") ["id"; "0"]))
    (having (Text "COUNT(*) > 1")
    (group [inl "v.id"]
    (where_ (Or [One (Text "t.name = 'Term'");
                 Seq [Text "v.num > 1";
                      Cond "v.dt" (Single (VStr "2020-01-01")) "<"]])
    (where_ (Cond "v.publishable" (Single (VStr "Y")) "=")
    (outer (Virtual (alias "t" (Query__init__ (Plain "doc_type")
                                              ["id"; "name"])))
           [One (Text "t.id = d.doc_type")]
    (join (Plain "document d") [One (Text "d.id = v.id")]
    (Query__init__ (Plain "doc_version v")
                   ["v.id"; "MAX(v.num)"])))))))))).

Definition sample : Query :=
  match order (fun s => s) ["1 desc"] sample_unordered with
  | Ok q => q
  | Raise _ => sample_unordered
  end.

(** the string and the query that [str(sample)] leaves *)
Definition sample_rendering : string * Query :=
  Eval vm_compute in
    match __str__ 3 sample with
    | Done r => r
    | _ => (EmptyString, sample)
    end.

Example sample_lines :
  splitlines (fst sample_rendering) =
  [ "SELECT DISTINCT TOP 5 v.id, MAX(v.num)";
    "                 INTO #found";
    "                 FROM doc_version v";
    "                 JOIN document d";
    "                   ON d.id = v.id";
    "      LEFT OUTER JOIN (";
    "    SELECT id, name";
    "      FROM doc_type) t";
    "                   ON t.id = d.doc_type";
    "                WHERE v.publishable = %s";
    "                  AND (t.name = 'Term'";
    "                   OR v.num > 1";
    "                  AND v.dt < %s)";
    "             GROUP BY v.id";
    "               HAVING COUNT(*) > 1";
    "                UNION ";
    "SELECT id, 0";
    "  FROM document";
    " WHERE id IN (%s, %s)";
    "             ORDER BY 1 desc" ].
Proof. vm_compute. reflexivity. Qed.


Lemma rendering_twice_is_identical_witness :
  parms 3 (snd sample_rendering)
    = Done ([VStr "Y"; VStr "2020-01-01"], snd sample_rendering) /\
  __str__ 3 (snd sample_rendering)
    = Done (fst sample_rendering, snd sample_rendering).
Proof.
  apply (rendering_twice_is_identical 3 sample (fst sample_rendering)
           (snd sample_rendering)).
  vm_compute. reflexivity.
Defined.

(** *** An [IN] test without values *)

(** C7, as the property states it, fails at the column [id] with the
    test [IN] and an empty list: the constructor returns the condition,
    and the failure is the outcome of the rendering of the query the
    condition was added to. *)
Lemma empty_in_list_is_constructed :
  (forall e, Condition__init__ "id" (Values []) "IN" <> Raise e) /\
  __str__ 2 (where_ (Cond "id" (Values []) "IN")
                    (Query__init__ (Plain "document") ["id"]))
  = Raised (NO_VALUES "IN").
Proof. split; [intros e; discriminate|reflexivity]. Qed.

(** C7 amended: a condition with the test [IN] or [NOT IN] (in any
    letter case) and an empty list of values is constructed without a
    failure and stored as given; the failure is raised when the condition
    is serialized, that is when a query it was added to is rendered. *)
Theorem empty_in_list_fails_when_rendered (col test table : string)
  (columns : list string) (fuel : nat) :
  is_in test = true ->
  Condition__init__ col (Values []) test = Ok (Cond col (Values []) test) /\
  (forall ind st kw p s,
      _serialize_condition (S fuel) ind st kw (Cond col (Values []) test) p s
      = Raised (NO_VALUES test)) /\
  __str__ (S (S fuel))
          (where_ (Cond col (Values []) test)
                  (Query__init__ (Plain table) columns))
  = Raised (NO_VALUES test).
Proof.
  intros Hin. split; [reflexivity|].
  assert (Hser : forall ind st kw p s,
             _serialize_condition (S fuel) ind st kw
               (Cond col (Values []) test) p s = Raised (NO_VALUES test)).
  { intros ind st kw p s.
    cbn [_serialize_condition serialize_condition_body]. rewrite Hin.
    reflexivity. }
  split; [exact Hser|].
  unfold where_, Query__init__.
  cbn [__str__ str_body truthy serialize_from serialize_joins
       serialize_conditions run_bind app].
  rewrite Hser. reflexivity.
Qed.

Lemma empty_in_list_fails_when_rendered_witness :
  Condition__init__ "d.id" (Values []) "not in"
    = Ok (Cond "d.id" (Values []) "not in") /\
  (forall ind st kw p s,
      _serialize_condition 1 ind st kw (Cond "d.id" (Values []) "not in") p s
      = Raised (NO_VALUES "not in")) /\
  __str__ 2 (where_ (Cond "d.id" (Values []) "not in")
                    (Query__init__ (Plain "document d") ["d.title"]))
  = Raised (NO_VALUES "not in").
Proof.
  apply (empty_in_list_fails_when_rendered "d.id" "not in" "document d"
           ["d.title"] 0).
  reflexivity.
Defined.

End DbFacts.

(** * Further properties *)

(** ** [Doc]: identifiers and dates (docs.py) *)

Module IdsFacts.

Import Docs Ids.

(** every character of the string passes the test *)
Fixpoint all_chars (p : ascii -> bool) (s : string) : bool :=
  match s with
  | EmptyString => true
  | String c s' => p c && all_chars p s'
  end.

Lemma all_chars_app (p : ascii -> bool) (a b : string) :
  all_chars p (a +:+ b) = all_chars p a && all_chars p b.
Proof.
  induction a as [|c a IH]; [reflexivity|].
  change (all_chars p (String c (a +:+ b)) = all_chars p (String c a) && all_chars p b).
  cbn [all_chars]. rewrite IH, andb_assoc. reflexivity.
Qed.

Lemma split1_without_sep (sep : ascii) (s : string) :
  all_chars (fun c => negb (Ascii.eqb c sep)) s = true ->
  Py.split1 sep s = (s, None) /\
  forall t, Py.split1 sep (s +:+ String sep t) = (s, Some t).
Proof.
  induction s as [|c s IH]; intros H.
  - split; [reflexivity|]. intros t.
    change (Py.split1 sep (String sep t) = ("", Some t)).
    cbn [Py.split1]. rewrite Ascii.eqb_refl. reflexivity.
  - cbn [all_chars] in H. apply andb_true_iff in H. destruct H as [Hc Hs].
    destruct (IH Hs) as [IH1 IH2]. apply negb_true_iff in Hc.
    split.
    + cbn [Py.split1]. rewrite Hc, IH1. reflexivity.
    + intros t.
      change (Py.split1 sep (String c (s +:+ String sep t))
              = (String c s, Some t)).
      cbn [Py.split1]. rewrite Hc, IH2. reflexivity.
Qed.

Lemma digits_only_app (a b : string) :
  digits_only (a +:+ b) = digits_only a +:+ digits_only b.
Proof.
  induction a as [|c a IH]; [reflexivity|].
  change (digits_only (String c (a +:+ b))
          = digits_only (String c a) +:+ digits_only b).
  cbn [digits_only]. rewrite IH. destruct (is_digit c); reflexivity.
Qed.

Lemma digits_only_digits (s : string) :
  all_chars is_digit s = true -> digits_only s = s.
Proof.
  induction s as [|c s IH]; [reflexivity|]. cbn [all_chars digits_only].
  intros H. apply andb_true_iff in H. destruct H as [Hc Hs].
  rewrite Hc, (IH Hs). reflexivity.
Qed.

Lemma string_of_uint_digits (d : Decimal.uint) :
  all_chars is_digit (NilEmpty.string_of_uint d) = true.
Proof. induction d; cbn [NilEmpty.string_of_uint all_chars]; auto. Qed.

Lemma NilZero_string_of_uint_digits (d : Decimal.uint) :
  all_chars is_digit (NilZero.string_of_uint d) = true.
Proof. destruct d; try apply string_of_uint_digits. reflexivity. Qed.

(** the string of [k] zeros *)
Fixpoint zeros (k : nat) : string :=
  match k with
  | O => EmptyString
  | S k' => String "0"%char (zeros k')
  end.

Lemma concat_repeat_zeros (k : nat) :
  String.concat "" (repeat "0" k) = zeros k.
Proof.
  induction k as [|k IH]; [reflexivity|].
  cbn [repeat String.concat].
  destruct k as [|k]; [reflexivity|].
  change (repeat "0" (S k)) with ("0" :: repeat "0" k) in *.
  rewrite IH. reflexivity.
Qed.

Lemma zeros_digits (k : nat) : all_chars is_digit (zeros k) = true.
Proof. induction k; [reflexivity|]. cbn [zeros all_chars]. rewrite IHk. reflexivity. Qed.

(** Leading zeros do not change the value read. *)
Lemma int_of_digits_zeros (k : nat) (d : Decimal.uint) :
  d <> Decimal.Nil ->
  int_of_digits (zeros k +:+ NilZero.string_of_uint d)
  = Some (Z.of_N (N.of_uint d)).
Proof.
  intros Hd. unfold int_of_digits.
  assert (H : forall k,
    NilEmpty.uint_of_string (zeros k +:+ NilZero.string_of_uint d)
    = Some (Nat.iter k Decimal.D0 d)).
  { intros j. induction j as [|j IH].
    - change (zeros 0 +:+ NilZero.string_of_uint d)
        with (NilZero.string_of_uint d).
      pose proof (NilZero.usu d Hd) as Hu. unfold NilZero.uint_of_string in Hu.
      destruct (NilZero.string_of_uint d) eqn:E; [discriminate|exact Hu].
    - change (zeros (S j) +:+ NilZero.string_of_uint d)
        with (String "0"%char (zeros j +:+ NilZero.string_of_uint d)).
      cbn [NilEmpty.uint_of_string]. rewrite IH. reflexivity. }
  assert (Hne : exists c r, zeros k +:+ NilZero.string_of_uint d = String c r).
  { destruct k; [|eexists _, _; reflexivity].
    change (zeros 0 +:+ NilZero.string_of_uint d)
      with (NilZero.string_of_uint d).
    destruct d; try (eexists _, _; reflexivity). }
  destruct Hne as (c & r & Hcr). unfold NilZero.uint_of_string.
  rewrite Hcr, <- Hcr, H. f_equal. f_equal.
  clear. induction k as [|k IH]; [reflexivity|]. exact IH.
Qed.

Lemma N_to_uint_nonnil (m : BinNums.N) : N.to_uint m <> Decimal.Nil.
Proof.
  destruct m as [|p]; [discriminate|].
  apply DecimalPos.Unsigned.to_uint_nonnil.
Qed.

Lemma all_chars_impl (p q : ascii -> bool) (s : string) :
  (forall c, p c = true -> q c = true) ->
  all_chars p s = true -> all_chars q s = true.
Proof.
  intros Hpq. induction s as [|c s IH]; [reflexivity|]. cbn [all_chars].
  intros H. apply andb_true_iff in H. destruct H as [Hc Hs].
  rewrite (Hpq c Hc), (IH Hs). reflexivity.
Qed.

Definition not_hash (c : ascii) : bool := negb (Ascii.eqb c "#"%char).

Lemma digit_not_hash (c : ascii) : is_digit c = true -> not_hash c = true.
Proof.
  intros H. unfold not_hash. destruct (Ascii.eqb_spec c "#"%char) as [->|];
    [discriminate|reflexivity].
Qed.

(** The canonical id is [CDR], a sign for a negative number, zeros and
    the decimal digits of the absolute value. *)
Lemma cdr_id_parts (n : Z) :
  exists (sign : string) (k : nat),
    (sign = "" \/ sign = "-") /\
    Terms.cdr_id n
    = "CDR" +:+ sign +:+ zeros k
      +:+ NilZero.string_of_uint (N.to_uint (Z.to_N (Z.abs n))).
Proof.
  unfold Terms.cdr_id, Terms.zero_padded. cbv zeta.
  rewrite concat_repeat_zeros.
  destruct (n <? 0); eexists _, _; (split; [|reflexivity]); auto.
Qed.

(** Reading the canonical string of a number, with or without a
    fragment *)
Lemma extract_id_canonical (n : Z) :
  extract_id (PyStr (Terms.cdr_id n)) = Some (Z.abs n) /\
  forall fragment,
    extract_id (PyStr (Terms.cdr_id n +:+ String "#"%char fragment))
    = Some (Z.abs n).
Proof.
  destruct (cdr_id_parts n) as (sign & k & Hsign & ->).
  set (digits := NilZero.string_of_uint (N.to_uint (Z.to_N (Z.abs n)))).
  assert (Hdig : all_chars is_digit digits = true)
    by apply NilZero_string_of_uint_digits.
  assert (Hnohash : all_chars not_hash ("CDR" +:+ sign +:+ zeros k +:+ digits)
                    = true).
  { rewrite !all_chars_app.
    rewrite (all_chars_impl _ _ _ digit_not_hash (zeros_digits k)).
    rewrite (all_chars_impl _ _ _ digit_not_hash Hdig).
    destruct Hsign as [->| ->]; reflexivity. }
  assert (Hdigits : digits_only ("CDR" +:+ sign +:+ zeros k +:+ digits)
                    = zeros k +:+ digits).
  { rewrite !digits_only_app, (digits_only_digits _ (zeros_digits k)),
      (digits_only_digits _ Hdig).
    destruct Hsign as [->| ->]; reflexivity. }
  assert (Hval : int_of_digits (zeros k +:+ digits) = Some (Z.abs n)).
  { unfold digits. rewrite int_of_digits_zeros by apply N_to_uint_nonnil.
    rewrite DecimalN.Unsigned.of_to, Z2N.id by lia. reflexivity. }
  destruct (split1_without_sep "#"%char _ Hnohash) as [Hplain Hfrag].
  split.
  - unfold extract_id. cbn [str_of]. rewrite Hplain. cbn [fst].
    rewrite Hdigits. exact Hval.
  - intros fragment. unfold extract_id. cbn [str_of].
    rewrite (Hfrag fragment). cbn [fst]. rewrite Hdigits. exact Hval.
Qed.

(** X1 ([Doc.extract_id] after [Doc.cdr_id]): the canonical string form
    of a document id that is not zero is read back to the absolute value
    of the id, with or without a fragment after [#]. *)
Theorem extract_id_of_cdr_id (n : Z) :
  n <> 0 ->
  exists s,
    cdr_id n = Some s /\
    extract_id (PyStr s) = Some (Z.abs n) /\
    forall fragment,
      extract_id (PyStr (s +:+ String "#"%char fragment)) = Some (Z.abs n).
Proof.
  intros Hn. unfold cdr_id. destruct (Z.eqb_spec n 0) as [|_]; [contradiction|].
  exists (Terms.cdr_id n). split; [reflexivity|]. apply extract_id_canonical.
Qed.

Lemma extract_id_of_cdr_id_witness :
  exists s,
    cdr_id 12345 = Some s /\
    extract_id (PyStr s) = Some (Z.abs 12345) /\
    forall fragment,
      extract_id (PyStr (s +:+ String "#"%char fragment))
      = Some (Z.abs 12345).
Proof. apply (extract_id_of_cdr_id 12345). discriminate. Defined.

Example cdr_id_12345 : cdr_id 12345 = Some "CDR0000012345".
Proof. reflexivity. Qed.

Example extract_id_without_digits : extract_id (PyStr "CDR#12") = None.
Proof. reflexivity. Qed.

(** *** Dates *)

Definition not_space (c : ascii) : bool := negb (Ascii.eqb c SPACE).

Lemma length_spaces_to_T (s : string) :
  String.length (spaces_to_T s) = String.length s.
Proof. induction s as [|c s IH]; [reflexivity|]. cbn. rewrite IH. reflexivity. Qed.

Lemma length_take_chars (n : nat) (s : string) :
  (String.length (take_chars n s) <= n)%nat.
Proof.
  revert s. induction n as [|n IH]; intros [|c s]; cbn; try lia.
  specialize (IH s). lia.
Qed.

Lemma take_chars_short (n : nat) (s : string) :
  (String.length s <= n)%nat -> take_chars n s = s.
Proof.
  revert s. induction n as [|n IH]; intros [|c s]; cbn; intros H;
    try reflexivity; try lia.
  rewrite IH by lia. reflexivity.
Qed.

Lemma spaces_to_T_no_space (s : string) :
  all_chars not_space (spaces_to_T s) = true.
Proof.
  induction s as [|c s IH]; [reflexivity|]. cbn [spaces_to_T all_chars].
  rewrite IH, andb_true_r. unfold not_space.
  destruct (Ascii.eqb_spec c SPACE) as [->|Hc]; [reflexivity|].
  apply negb_true_iff. apply Ascii.eqb_neq. exact Hc.
Qed.

Lemma spaces_to_T_fixed (s : string) :
  all_chars not_space s = true -> spaces_to_T s = s.
Proof.
  induction s as [|c s IH]; [reflexivity|]. cbn [spaces_to_T all_chars].
  intros H. apply andb_true_iff in H. destruct H as [Hc Hs].
  unfold not_space in Hc. apply negb_true_iff in Hc.
  rewrite Hc, (IH Hs). reflexivity.
Qed.

(** X2 ([Doc.make_xml_date_string]): a rendered date has at most 19
    characters and no space, and rendering it again leaves it as it is. *)
Theorem make_xml_date_string_shape (value : option string) (r : string) :
  make_xml_date_string value = Some r ->
  (String.length r <= 19)%nat /\
  all_chars not_space r = true /\
  make_xml_date_string (Some r) = Some r.
Proof.
  intros H.
  assert (Hr : exists s, Py.truthy s = true /\
                         r = spaces_to_T (take_chars 19 s)).
  { destruct value as [s|]; [|discriminate].
    unfold make_xml_date_string in H.
    destruct (Py.truthy s) eqn:Ht; [|discriminate].
    exists s. split; [exact Ht|congruence]. }
  destruct Hr as (s & Ht & ->). clear H.
  assert (Hlen : (String.length (spaces_to_T (take_chars 19 s)) <= 19)%nat).
  { rewrite length_spaces_to_T. apply length_take_chars. }
  split; [exact Hlen|]. split; [apply spaces_to_T_no_space|].
  assert (Hne : Py.truthy (spaces_to_T (take_chars 19 s)) = true).
  { destruct s as [|c s]; [discriminate|].
    change (take_chars 19 (String c s)) with (String c (take_chars 18 s)).
    cbn [spaces_to_T]. destruct (Ascii.eqb c SPACE); reflexivity. }
  unfold make_xml_date_string.
  rewrite Hne, (take_chars_short 19 _ Hlen),
    (spaces_to_T_fixed _ (spaces_to_T_no_space _)).
  reflexivity.
Qed.

Lemma make_xml_date_string_shape_witness :
  (String.length "2017-07-14T02:40:00" <= 19)%nat /\
  all_chars not_space "2017-07-14T02:40:00" = true /\
  make_xml_date_string (Some "2017-07-14T02:40:00")
  = Some "2017-07-14T02:40:00".
Proof.
  apply (make_xml_date_string_shape (Some "2017-07-14 02:40:00.123000")).
  reflexivity.
Defined.





(** *** The number of the last publishable version *)

(** X4 ([Resolver.get_pv_num], [Doc.last_publishable_version]): for the
    canonical id of a document the function answers with the decimal of
    a number that is 0 when the document has no publishable version and
    otherwise the greatest number of its publishable versions. *)
Theorem get_pv_num_of_canonical_id
  (db : database) (session : Session) (n : Z) :
  0 < n ->
  exists v,
    get_pv_num db session (Terms.cdr_id n) = Some (Db.decimal v) /\
    ((DocsFacts.publishable_versions db n = [] /\ v = 0) \/
     (In v (DocsFacts.publishable_versions db n) /\
      forall x, In x (DocsFacts.publishable_versions db n) -> x <= v)).
Proof.
  intros Hn. unfold get_pv_num.
  destruct (extract_id_canonical n) as [-> _].
  rewrite Z.abs_eq by lia.
  unfold last_publishable_version, fetchone_aggregate, row0. cbn [id].
  destruct (Z.eqb_spec n 0) as [|_]; [lia|].
  fold (DocsFacts.publishable_versions db n).
  destruct (sql_max (DocsFacts.publishable_versions db n)) as [m|] eqn:E.
  - exists m. split.
    + destruct (Z.eqb_spec m 0) as [->|]; reflexivity.
    + right. apply DocsFacts.sql_max_Some. exact E.
  - exists 0. split; [reflexivity|]. left.
    split; [apply DocsFacts.sql_max_None; exact E|reflexivity].
Qed.

Lemma get_pv_num_of_canonical_id_witness :
  exists v,
    get_pv_num DocsFacts.three_versions DocsFacts.guest (Terms.cdr_id 5)
    = Some (Db.decimal v) /\
    ((DocsFacts.publishable_versions DocsFacts.three_versions 5 = [] /\ v = 0)
     \/
     (In v (DocsFacts.publishable_versions DocsFacts.three_versions 5) /\
      forall x,
        In x (DocsFacts.publishable_versions DocsFacts.three_versions 5) ->
        x <= v)).
Proof.
  apply (get_pv_num_of_canonical_id DocsFacts.three_versions DocsFacts.guest 5).
  lia.
Defined.

End IdsFacts.

(** ** The version of a document *)

Module VersionFacts.

Import Docs DocsFacts.

(** The version numbers of a document *)
Definition versions (db : database) (doc : Z) : list Z :=
  map v_num (filter (fun r => v_id r =? doc) (doc_version db)).

Lemma in_versions (db : database) (doc n : Z) :
  In n (versions db doc) <->
  exists r, In r (doc_version db) /\ v_id r = doc /\ v_num r = n.
Proof.
  unfold versions. rewrite in_map_iff. split.
  - intros (r & Hn & Hr). apply list_elem_of_In, list_elem_of_filter in Hr.
    destruct Hr as [Hp Hr]. apply list_elem_of_In in Hr.
    apply Is_true_true in Hp. exists r. repeat split; auto. lia.
  - intros (r & Hr & Hid & Hn). exists r. split; [assumption|].
    apply list_elem_of_In, list_elem_of_filter.
    split; [|apply list_elem_of_In; assumption].
    apply Is_true_true. lia.
Qed.

Lemma lower_truthy (s : string) :
  Py.truthy (Py.lower s) = true -> Py.truthy s = true.
Proof. destruct s; [discriminate|reflexivity]. Qed.

(** The words [last] and [lastversion] lead to what [last_version]
    answers: the value of [_last_version] when the attribute is set,
    whatever the table holds, and the newest version of the table
    otherwise. *)
Lemma version_last parse_date int_of_str labeled (db : database) (self : Doc)
  (spec : string) :
  id self <> 0 -> _version self = None -> opt_version self = PyStr spec ->
  Py.lower spec = "last" \/ Py.lower spec = "lastversion" ->
  version parse_date int_of_str labeled db self =
    match _last_version self with
    | Some v =>
        if no_version v then Raise (Exception NOT_VERSIONED)
        else Ok (v, set__version self v)
    | None =>
        match sql_max (versions db (id self)) with
        | Some n =>
            if n =? 0 then Raise (Exception NOT_VERSIONED)
            else Ok (Some n,
                     set__version (set__last_version self (Some n)) (Some n))
        | None => Raise (Exception NOT_VERSIONED)
        end
    end.
Proof.
  intros Hid Hcache Hopt Hlast. unfold version.
  rewrite Hcache, Hopt. cbn [falsy].
  destruct (Z.eqb_spec (id self) 0) as [|_]; [contradiction|].
  assert (Ht : Py.truthy spec = true).
  { apply lower_truthy. destruct Hlast as [->| ->]; reflexivity. }
  rewrite Ht. cbn [negb].
  assert (Hw : String.eqb (Py.lower spec) "current" = false /\
               String.eqb (Py.lower spec) "last"
               || String.eqb (Py.lower spec) "lastversion" = true).
  { destruct Hlast as [->| ->]; split; reflexivity. }
  destruct Hw as [-> ->].
  unfold last_version, fetchone_aggregate, row0.
  destruct (_last_version self) as [v|]; [reflexivity|].
  destruct (Z.eqb_spec (id self) 0) as [|_]; [contradiction|].
  fold (versions db (id self)).
  destruct (sql_max (versions db (id self))) as [n|]; cbn [no_version];
    [destruct (n =? 0)|]; reflexivity.
Qed.

(** X5 ([Doc.version], [Doc.last_version]): for a document (its id is
    not 0) whose version is not resolved yet and whose [last_version]
    has not been read yet, in a version table whose version numbers are
    positive, the specifier [last] or [lastversion], in any case of the
    letters, resolves to the greatest version number of the document,
    publishable or not, and leaves it in [_last_version] as well, or
    fails with the message [NOT_VERSIONED] when the document has no
    version. *)
Theorem last_resolves_to_last_version parse_date int_of_str labeled
  (db : database) (self : Doc) (spec : string) :
  id self <> 0 -> _version self = None -> _last_version self = None ->
  opt_version self = PyStr spec ->
  Py.lower spec = "last" \/ Py.lower spec = "lastversion" ->
  (forall r, In r (doc_version db) -> 0 < v_num r) ->
  (exists r,
      In r (doc_version db) /\ v_id r = id self /\
      (forall r', In r' (doc_version db) -> v_id r' = id self ->
                  v_num r' <= v_num r) /\
      version parse_date int_of_str labeled db self =
        Ok (Some (v_num r),
            set__version (set__last_version self (Some (v_num r)))
                         (Some (v_num r))))
  \/
  ((forall r, In r (doc_version db) -> v_id r <> id self) /\
   version parse_date int_of_str labeled db self =
     Raise (Exception NOT_VERSIONED)).
Proof.
  intros Hid Hcache Hlv Hopt Hlast Hpos.
  rewrite (version_last parse_date int_of_str labeled db self spec
             Hid Hcache Hopt Hlast), Hlv.
  destruct (sql_max (versions db (id self))) as [n|] eqn:E.
  - left. apply sql_max_Some in E. destruct E as [Hin Hmax].
    apply in_versions in Hin. destruct Hin as (r & Hr & Hrid & <-).
    exists r. repeat split; auto.
    + intros r' Hr' Hid'. apply Hmax. apply in_versions. exists r'. auto.
    + specialize (Hpos r Hr).
      destruct (Z.eqb_spec (v_num r) 0); [lia|reflexivity].
  - right. split; [|reflexivity].
    apply sql_max_None in E. intros r Hr Hrid.
    assert (Hin : In (v_num r) (versions db (id self))).
    { apply in_versions. exists r. auto. }
    rewrite E in Hin. destruct Hin.
Qed.

Lemma last_resolves_to_last_version_witness :
  (exists r,
      In r (doc_version three_versions) /\ v_id r = 5 /\
      (forall r', In r' (doc_version three_versions) -> v_id r' = 5 ->
                  v_num r' <= v_num r) /\
      version (fun _ => None) (fun _ => None) (fun _ _ => Ok None)
              three_versions (doc5 "LastVersion") =
        Ok (Some (v_num r),
            set__version
              (set__last_version (doc5 "LastVersion") (Some (v_num r)))
              (Some (v_num r))))
  \/
  ((forall r, In r (doc_version three_versions) -> v_id r <> 5) /\
   version (fun _ => None) (fun _ => None) (fun _ _ => Ok None)
           three_versions (doc5 "LastVersion") =
     Raise (Exception NOT_VERSIONED)).
Proof.
  apply (last_resolves_to_last_version (fun _ => None) (fun _ => None)
           (fun _ _ => Ok None) three_versions (doc5 "LastVersion")
           "LastVersion").
  - discriminate.
  - reflexivity.
  - reflexivity.
  - reflexivity.
  - right. reflexivity.
  - intros r Hr. simpl in Hr.
    destruct Hr as [<-|[<-|[<-|[<-|[]]]]]; simpl; lia.
Defined.

(** A [last_version] that was read before the table changed is what
    [last] resolves to afterwards. *)
Example last_is_served_from__last_version :
  version (fun _ => None) (fun _ => None) (fun _ _ => Ok None)
          three_versions (set__last_version (doc5 "last") (Some 1))
  = Ok (Some 1, set__version (set__last_version (doc5 "last") (Some 1))
                             (Some 1)).
Proof. reflexivity. Qed.

(** A call that returns leaves its answer in [_version]. *)
Lemma version_sets_cache parse_date int_of_str labeled (db : database)
  (self self' : Doc) (v : option Z) :
  version parse_date int_of_str labeled db self = Ok (v, self') ->
  _version self' = Some v.
Proof.
  unfold version.
  destruct (_version self) as [v0|] eqn:E; [intros [= <- <-]; exact E|].
  assert (Hret : forall w, Ok (w, set__version self w) = Ok (v, self') ->
                           _version self' = Some v).
  { intros w [= <- <-]. reflexivity. }
  destruct (id self =? 0); [apply Hret|].
  destruct (falsy (opt_version self)); [apply Hret|].
  destruct (opt_version self) as [|n|s]; [apply Hret|apply Hret|].
  destruct (String.eqb (Py.lower s) "current"); [apply Hret|].
  destruct (String.eqb (Py.lower s) "last"
            || String.eqb (Py.lower s) "lastversion").
  { destruct (last_version db self) as [w self1].
    destruct (no_version w); [discriminate|].
    intros [= <- <-]. reflexivity. }
  destruct (Py.startswith "lastp" (Py.lower s)).
  { destruct (no_version (last_publishable_version db self));
      [discriminate|apply Hret]. }
  destruct (Py.startswith "before " (Py.lower s)).
  { destruct (Py.split1 " "%char (Py.lower s)) as [? [date|]]; [|discriminate].
    destruct (get_version_before parse_date db self date) as [w|e];
      [apply Hret|discriminate]. }
  destruct (Py.startswith "label " (Py.lower s)).
  { destruct (Py.split1 " "%char (Py.lower s)) as [? [label|]]; [|discriminate].
    destruct (labeled (id self) label) as [w|e]; [apply Hret|discriminate]. }
  destruct (int_of_str (Py.lower s)); [apply Hret|discriminate].
Qed.

(** X6 ([Doc.version]): once the property has returned a value, every
    later reading of it on the same object returns that value and leaves
    the object as it is, whatever the tables hold by then. *)
Theorem version_is_resolved_once parse_date int_of_str labeled
  (db : database) (self self' : Doc) (v : option Z) :
  version parse_date int_of_str labeled db self = Ok (v, self') ->
  forall parse_date' int_of_str' labeled' (db' : database),
    version parse_date' int_of_str' labeled' db' self' = Ok (v, self').
Proof.
  intros H parse_date' int_of_str' labeled' db'.
  apply version_sets_cache in H. unfold version. rewrite H. reflexivity.
Qed.

Lemma version_is_resolved_once_witness :
  version (fun _ => None) (fun _ => None) (fun _ _ => Ok None)
          {| doc_version := []; checkout := [] |}
          (set__version (doc5 "lastp") (Some 2))
  = Ok (Some 2, set__version (doc5 "lastp") (Some 2)).
Proof.
  apply (version_is_resolved_once (fun _ => None) (fun _ => None)
           (fun _ _ => Ok None) three_versions (doc5 "lastp")).
  reflexivity.
Defined.

End VersionFacts.

(** ** The cache of terms *)

Module TermCacheFacts.

Import Terms TermsFacts.

(** From [c] to [c'] the cache has only grown: the counter and the time
    of its start are the same, every entry is still there, and the clock
    has not been turned back. *)
Definition grows (c c' : cls) : Prop :=
  use_cache c' = use_cache c /\
  cache_started c' = cache_started c /\
  terms c ⊆ terms c' /\
  (ticks c <= ticks c')%nat.

(** Every term of the cache is filed under its own id and has a name. *)
Definition well_named (c : cls) : Prop :=
  forall k t, terms c !! k = Some (Some t) ->
              doc_id t = k /\ has_name (name t) = true.

(** The term asked for under [doc], or no term *)
Definition term_of (doc : Z) (r : option Term) : Prop :=
  match r with
  | Some t => doc_id t = doc /\ has_name (name t) = true
  | None => True
  end.

(** What a call that returns or raises leaves behind *)
Definition keeps {A : Type} (P : A -> cls -> Prop) (c : cls) (o : outcome A)
  : Prop :=
  match o with
  | Ret a c' => grows c c' /\ locked c' = false /\ well_named c' /\ P a c'
  | Exc _ c' => grows c c' /\ locked c' = false /\ well_named c'
  | Hang _ => True
  | OutOfFuel => True
  end.

Lemma grows_refl (c : cls) : grows c c.
Proof. repeat split; auto. Qed.

Lemma grows_trans (a b c : cls) : grows a b -> grows b c -> grows a c.
Proof.
  intros (H1 & H2 & H3 & H4) (H1' & H2' & H3' & H4'). repeat split.
  - congruence.
  - congruence.
  - etrans; eassumption.
  - lia.
Qed.

Lemma keeps_trans {A : Type} (P : A -> cls -> Prop) (a b : cls)
  (o : outcome A) :
  grows a b -> keeps P b o -> keeps P a o.
Proof.
  intros Hab. destruct o as [x c|e c|c|]; simpl; auto.
  - intros (H & ?). split; [eapply grows_trans; eassumption|assumption].
  - intros (H & ?). split; [eapply grows_trans; eassumption|assumption].
Qed.

Lemma keeps_impl {A : Type} (P Q : A -> cls -> Prop) (c : cls)
  (o : outcome A) :
  (forall a c', P a c' -> Q a c') -> keeps P c o -> keeps Q c o.
Proof.
  intros HPQ. destruct o as [x c'|e c'|c'|]; simpl; auto.
  intros (? & ? & ? & ?). auto.
Qed.

Lemma grows_same (c c' : cls) :
  use_cache c' = use_cache c -> cache_started c' = cache_started c ->
  terms c' = terms c -> (ticks c <= ticks c')%nat -> grows c c'.
Proof. intros H1 H2 H3 H4. repeat split; auto. rewrite H3. reflexivity. Qed.

Lemma well_named_same (c c' : cls) :
  terms c' = terms c -> well_named c -> well_named c'.
Proof. intros H Hn k t. rewrite H. apply Hn. Qed.

Ltac same_cache :=
  solve [ apply grows_same; simpl; auto; first [congruence | lia]
        | eapply well_named_same; [|eassumption]; reflexivity
        | reflexivity
        | assumption ].

Section Facts.

Variable clock : nat -> Z.
Variable load : Z -> res term_doc.

(** The answer of the first block: the entry of the cache, if there is
    one. *)
Lemma lookup_cache_keeps (doc : Z) (c : cls) :
  well_named c ->
  keeps (fun r c' => match r with
                     | Some t => terms c' !! doc = Some t /\ term_of doc t
                     | None => True
                     end)
        c (lookup_cache clock doc c).
Proof.
  intros Hn. unfold lookup_cache. destruct (locked c); [exact I|].
  cbn [set_locked use_cache cache_started terms ticks locked].
  assert (Hfound : forall k : nat, (ticks c <= k)%nat ->
    keeps (fun r c' => match r with
                       | Some t => terms c' !! doc = Some t /\ term_of doc t
                       | None => True
                       end) c
      match terms c !! doc with
      | Some t =>
          Ret (Some t)
            (set_locked false
               {| use_cache := use_cache c; terms := terms c;
                  cache_started := cache_started c; ticks := k;
                  locked := true |})
      | None =>
          Ret None
            (set_locked false
               {| use_cache := use_cache c; terms := terms c;
                  cache_started := cache_started c; ticks := k;
                  locked := true |})
      end).
  { intros k Hk. destruct (terms c !! doc) as [t|] eqn:E; simpl.
    - split; [|split; [|split]]; try same_cache.
      split; [exact E|]. destruct t as [t|]; simpl; [|exact I].
      apply (Hn doc t E).
    - split; [|split; [|split]]; try same_cache; exact I. }
  destruct (Z.eqb_spec (use_cache c) 0) as [Hz|Hnz]; cbn [negb].
  - apply (Hfound (ticks c)). lia.
  - destruct (cache_started c) as [started|] eqn:Hs.
    + destruct (MAX_CACHE_AGE <? clock (ticks c) - started).
      * rewrite drain_locked by (simpl; auto). exact I.
      * apply (Hfound (S (ticks c))). lia.
    + simpl. split; [|split]; same_cache.
Qed.

(** The second block files the term unless the cache is off or has an
    entry for the document by now. *)
Lemma store_cache_keeps (doc : Z) (t : option Term) (c : cls) :
  well_named c -> term_of doc t ->
  keeps (fun r c' => r = t /\ term_of doc r /\
                     (use_cache c <> 0 -> is_Some (terms c' !! doc)))
        c (store_cache doc t c).
Proof.
  intros Hn Ht. unfold store_cache. destruct (locked c) eqn:Hl; [exact I|].
  destruct (Z.eqb_spec (use_cache c) 0) as [Hz|Hnz]; cbn [negb andb].
  - simpl. split; [|split; [|split]]; try same_cache.
    split; [reflexivity|]. split; [exact Ht|]. intros; contradiction.
  - destruct (bool_decide (is_Some (terms c !! doc))) eqn:Hd; cbn [negb].
    + apply bool_decide_eq_true in Hd. simpl.
      split; [|split; [|split]]; try same_cache. auto.
    + apply bool_decide_eq_false in Hd.
      assert (Hnone : terms c !! doc = None).
      { destruct (terms c !! doc) eqn:E; [|reflexivity].
        exfalso. apply Hd. eauto. }
      simpl. split; [|split; [|split]].
      * repeat split; simpl; auto. apply insert_subseteq. exact Hnone.
      * reflexivity.
      * intros k t' Hk. simpl in Hk.
        destruct (decide (k = doc)) as [->|Hne].
        -- rewrite lookup_insert_eq in Hk. injection Hk as ->. exact Ht.
        -- rewrite lookup_insert_ne in Hk by congruence. apply (Hn k t' Hk).
      * split; [reflexivity|]. split; [exact Ht|].
        intros _. rewrite lookup_insert_eq. eauto.
Qed.

Lemma keeps_here {A : Type} (P : A -> cls -> Prop) (a : A) (c : cls) :
  locked c = false -> well_named c -> P a c -> keeps P c (Ret a c).
Proof. intros. simpl. auto using grows_refl. Qed.

Lemma handle_keeps (e : exn) (self : Term) (c0 c : cls) (P : Term -> Prop) :
  grows c0 c -> locked c = false -> well_named c -> P self ->
  keeps (fun t _ => P t) c0 (handle e self c).
Proof.
  intros Hg Hl Hn HP. unfold handle.
  destruct (Py.contains Docs.NO_PUBLISHABLE_VERSIONS (str_exn e)); simpl; auto.
Qed.

Lemma Term_init_keeps (doc depth : Z) (c : cls) :
  locked c = false -> well_named c ->
  keeps (fun t _ => doc_id t = doc) c (Term_init load doc depth c).
Proof.
  intros Hl Hn. unfold Term_init. destruct (load doc) as [d|e];
    apply handle_keeps; auto using grows_refl.
Qed.

Lemma get_term_keeps (doc depth : Z) (c : cls) :
  locked c = false -> well_named c ->
  keeps (fun r c' => term_of doc r /\
                     (use_cache c <> 0 -> is_Some (terms c' !! doc)))
        c (get_term clock load doc depth c).
Proof.
  intros Hl Hn. unfold get_term.
  destruct (MAX_DEPTH <? depth); [simpl; auto using grows_refl|].
  pose proof (lookup_cache_keeps doc c Hn) as Hp.
  destruct (lookup_cache clock doc c) as [[t|] c'|e c'|c'|]; try exact Hp.
  - destruct Hp as (Hg & Hl' & Hn' & Ht & Hterm).
    simpl. split; [exact Hg|]. split; [exact Hl'|]. split; [exact Hn'|].
    split; [exact Hterm|].
    intros _. rewrite Ht. exists t. reflexivity.
  - destruct Hp as (Hg & Hl' & Hn' & _).
    pose proof (Term_init_keeps doc depth c' Hl' Hn') as Hi.
    destruct (Term_init load doc depth c') as [term c''|e c''|c''|];
      simpl in Hi.
    + destruct Hi as (Hg' & Hl'' & Hn'' & Hid).
      eapply keeps_trans; [eapply grows_trans; eassumption|].
      eapply keeps_impl;
        [|apply (store_cache_keeps doc
                   (if has_name (name term) then Some term else None) c'' Hn'')].
      * intros a c3 (-> & Ha & Hs). split; [exact Ha|].
        intros Hu. apply Hs.
        destruct Hg as (Hg1 & _), Hg' as (Hg1' & _). congruence.
      * destruct (has_name (name term)) eqn:Hname; simpl; auto.
    + destruct Hi as (Hg' & Hl'' & Hn''). simpl.
      split; [eapply grows_trans; eassumption|]. auto.
    + exact I.
    + exact I.
Qed.

(** A call of [get_parent] leaves the term its id and its name. *)
Definition same_term (self self' : Term) : Prop :=
  doc_id self' = doc_id self /\ name self' = name self.

Lemma get_parent_keeps (self : Term) (node : option Z) (depth : Z)
  (c : cls) :
  locked c = false -> well_named c ->
  keeps (fun t _ => same_term self t) c
        (get_parent clock load self node depth c).
Proof.
  intros Hl Hn. unfold get_parent. destruct node as [pid|].
  - destruct (bool_decide (is_Some (parents self !! pid))).
    + apply keeps_here; auto. split; reflexivity.
    + pose proof (get_term_keeps pid (depth + 1) c Hl Hn) as Hr.
      destruct (get_term clock load pid (depth + 1) c)
        as [[p|] c'|e c'|c'|]; simpl in *;
        try exact Hr; destruct Hr as (? & ? & ? & ?);
        (split; [|split; [|split]]); auto; split; reflexivity.
  - simpl. auto using grows_refl.
Qed.

Lemma set_cache_well_named (on : bool) (c : cls) :
  well_named c ->
  match set_cache clock on c with
  | Ret _ c' => well_named c'
  | _ => True
  end.
Proof.
  intros Hn. unfold set_cache. destruct (locked c); [exact I|].
  destruct on.
  - destruct (negb (0 <? use_cache c)); exact Hn.
  - intros k t. cbn [terms].
    destruct ((if use_cache c - 1 <? 0 then 0 else use_cache c - 1) =? 0).
    + rewrite lookup_empty. discriminate.
    + apply Hn.
Qed.

(** *** What a sequence of calls sees *)

(** The class is ready for a call: the invariant of the counter holds,
    the lock is free, and the terms of the cache are filed under their
    own ids and have names. *)
Definition ready (c : cls) : Prop := Inv c /\ well_named c.

Lemma ready_initial : ready initial.
Proof.
  split; [apply Inv_initial|]. intros k t H. simpl in H.
  rewrite lookup_empty in H. discriminate.
Qed.

Lemma perform_ready (k : call) (c : cls) :
  ready c ->
  match perform clock load k c with
  | Ret _ c' => ready c'
  | Exc _ c' => ready c'
  | _ => True
  end.
Proof.
  intros [HI Hn]. pose proof (perform_ok clock load k c HI) as [_ Hp].
  destruct k as [on|doc depth]; cbn [perform] in *.
  - pose proof (set_cache_well_named on c Hn) as Hs.
    destruct (set_cache_spec clock on c (proj2 HI)) as (c' & Heq & _).
    rewrite Heq in Hs, Hp |- *. split; [exact Hp|exact Hs].
  - pose proof (get_term_keeps doc depth c (proj2 HI) Hn) as Hk.
    destruct (get_term clock load doc depth c) as [t c'|e c'|c'|];
      try exact I; (split; [exact Hp|apply Hk]).
Qed.

(** A property of the records of a history that every call from a ready
    class has, has every record. *)
Lemma history_all (Q : cls * call * outcome answer -> Prop) :
  (forall k c, ready c -> Q (c, k, perform clock load k c)) ->
  forall calls c, ready c -> Forall Q (history clock load calls c).
Proof.
  intros HQ calls. induction calls as [|k rest IH]; intros c Hr;
    cbn [history]; [constructor|].
  constructor; [apply HQ; exact Hr|].
  pose proof (perform_ready k c Hr) as Hp.
  destruct (perform clock load k c) as [a c'|e c'|c'|]; try constructor;
    apply IH; exact Hp.
Qed.


(** A [get_term] call that returns or raises has only added to the
    cache, and with the cache on there is an entry for the document
    after a call that returns. *)
Definition call_fills (entry : cls * call * outcome answer) : Prop :=
  let '(c, k, o) := entry in
  match k, o with
  | GetTerm doc _, Ret _ c' =>
      grows c c' /\ (use_cache c <> 0 -> is_Some (terms c' !! doc))
  | GetTerm doc _, Exc _ c' => grows c c'
  | _, _ => True
  end.

End Facts.


(** X9 ([Term.get_term]): in every such sequence a [get_term] call that
    returns or raises leaves the counter and the start of the cache as
    they were and every entry of the cache in place; and when the cache
    is on, the cache has an entry for the document after a call that
    returns. *)
Theorem get_term_only_fills_the_cache (clock : nat -> Z)
  (load : Z -> res term_doc) (calls : list call) :
  Forall call_fills (history clock load calls initial).
Proof.
  apply history_all; [|apply ready_initial].
  intros k c [HI Hn]. unfold call_fills.
  destruct k as [on|doc depth]; cbn [perform].
  { destruct (set_cache clock on c); exact I. }
  pose proof (get_term_keeps clock load doc depth c (proj2 HI) Hn) as Hk.
  destruct (get_term clock load doc depth c) as [t c'|e c'|c'|];
    try exact I; simpl in Hk.
  - split; apply Hk.
  - apply Hk.
Qed.

Section Lookups.

Variable clock : nat -> Z.

(** The class after a reading of the clock and the release of the lock *)
Definition after_lookup (c : cls) : cls :=
  {| use_cache := use_cache c; terms := terms c;
     cache_started := cache_started c; ticks := S (ticks c);
     locked := false |}.

(** X10 ([Term.get_term]): with the cache on and not older than
    [MAX_CACHE_AGE], a call for a document that has an entry returns the
    entry, be it a term or [None], without reading any document. *)
Theorem cached_entry_is_returned (load : Z -> res term_doc)
  (doc depth started : Z) (entry : option Term) (c : cls) :
  locked c = false -> use_cache c <> 0 ->
  cache_started c = Some started ->
  clock (ticks c) - started <= MAX_CACHE_AGE ->
  depth <= MAX_DEPTH ->
  terms c !! doc = Some entry ->
  get_term clock load doc depth c = Ret entry (after_lookup c).
Proof.
  intros Hl Hu Hs Hage Hd He. unfold get_term.
  destruct (Z.ltb_spec MAX_DEPTH depth) as [|_]; [lia|].
  unfold lookup_cache. rewrite Hl.
  cbn [set_locked use_cache cache_started terms ticks locked].
  destruct (Z.eqb_spec (use_cache c) 0) as [|_]; [contradiction|].
  cbn [negb]. rewrite Hs.
  destruct (Z.ltb_spec MAX_CACHE_AGE (clock (ticks c) - started)) as [|_];
    [lia|].
  rewrite He. unfold after_lookup, set_locked. simpl. rewrite Hs.
  reflexivity.
Qed.

(** X11 ([Term.get_term], [Term.set_cache]): with the cache on and older
    than [MAX_CACHE_AGE], a call within the depth never returns: it asks
    [set_cache] for the lock it holds itself. *)
Theorem expired_cache_blocks_get_term (load : Z -> res term_doc)
  (doc depth started : Z) (c : cls) :
  locked c = false -> use_cache c <> 0 ->
  cache_started c = Some started ->
  MAX_CACHE_AGE < clock (ticks c) - started ->
  depth <= MAX_DEPTH ->
  exists c', get_term clock load doc depth c = Hang c' /\ locked c' = true.
Proof.
  intros Hl Hu Hs Hage Hd. unfold get_term.
  destruct (Z.ltb_spec MAX_DEPTH depth) as [|_]; [lia|].
  unfold lookup_cache. rewrite Hl.
  cbn [set_locked use_cache cache_started terms ticks locked].
  destruct (Z.eqb_spec (use_cache c) 0) as [|_]; [contradiction|].
  cbn [negb]. rewrite Hs.
  destruct (Z.ltb_spec MAX_CACHE_AGE (clock (ticks c) - started)) as [_|];
    [|lia].
  rewrite drain_locked by (simpl; auto).
  eexists. split; reflexivity.
Qed.

(** X12 ([Term.get_term], [Term.__init__]): for a document without an
    entry in the cache whose reading fails with the message
    [Doc.NO_PUBLISHABLE_VERSIONS], a call within the depth returns
    [None] and raises nothing; with the cache on (and not expired) it
    files [None] for the document, and nothing else changes. *)
Theorem unpublished_term_is_none (load : Z -> res term_doc)
  (doc depth : Z) (e : exn) (c : cls) :
  locked c = false ->
  (use_cache c = 0 \/
   exists started, cache_started c = Some started /\
                   clock (ticks c) - started <= MAX_CACHE_AGE) ->
  depth <= MAX_DEPTH ->
  terms c !! doc = None ->
  load doc = Raise e ->
  Py.contains Docs.NO_PUBLISHABLE_VERSIONS (str_exn e) = true ->
  get_term clock load doc depth c
  = Ret None
        (if use_cache c =? 0 then c
         else {| use_cache := use_cache c;
                 terms := <[doc := None]> (terms c);
                 cache_started := cache_started c;
                 ticks := S (ticks c); locked := false |}).
Proof.
  intros Hl Hc Hd He Hload Hmsg. unfold get_term.
  destruct (Z.ltb_spec MAX_DEPTH depth) as [|_]; [lia|].
  unfold lookup_cache. rewrite Hl.
  cbn [set_locked use_cache cache_started terms ticks locked].
  destruct (Z.eqb_spec (use_cache c) 0) as [Hz|Hnz]; cbn [negb].
  - rewrite He. unfold Term_init. rewrite Hload. unfold handle.
    rewrite Hmsg. cbn [name has_name]. unfold store_cache.
    cbn [set_locked use_cache cache_started terms ticks locked].
    rewrite Hz. cbn [Z.eqb negb andb]. destruct c; simpl in *.
    subst. reflexivity.
  - destruct Hc as [|(started & Hs & Hage)]; [contradiction|]. rewrite Hs.
    destruct (Z.ltb_spec MAX_CACHE_AGE (clock (ticks c) - started)) as [|_];
      [lia|].
    rewrite He. unfold Term_init. rewrite Hload. unfold handle.
    rewrite Hmsg. cbn [name has_name]. unfold store_cache.
    cbn [set_locked use_cache cache_started terms ticks locked].
    destruct (Z.eqb_spec (use_cache c) 0) as [|_]; [contradiction|].
    rewrite He. cbn [negb andb].
    rewrite bool_decide_eq_false_2 by (intros [? ?]; discriminate).
    rewrite ?Hs. reflexivity.
Qed.

(** *** Nested use of the cache *)

(** [k] calls of [set_cache(on)] in a row *)
Fixpoint set_cache_times (on : bool) (k : nat) (c : cls) : outcome unit :=
  match k with
  | O => Ret tt c
  | S k' =>
      match set_cache clock on c with
      | Ret _ c' => set_cache_times on k' c'
      | Exc e c' => Exc e c'
      | Hang c' => Hang c'
      | OutOfFuel => OutOfFuel
      end
  end.

Lemma set_cache_times_on (k : nat) (c : cls) :
  locked c = false -> 0 <= use_cache c ->
  exists c1,
    set_cache_times true k c = Ret tt c1 /\
    locked c1 = false /\
    use_cache c1 = use_cache c + Z.of_nat k /\
    terms c1 = terms c.
Proof.
  revert c. induction k as [|k IH]; intros c Hl H0.
  - exists c. cbn [set_cache_times]. repeat split; auto. cbn. lia.
  - cbn [set_cache_times]. unfold set_cache. rewrite Hl.
    destruct (negb (0 <? use_cache c)).
    + match goal with
      | |- context [set_cache_times true k ?c'] =>
          destruct (IH c') as (c1 & Heq & Hl1 & Hu1 & Ht1);
            [reflexivity|cbn [use_cache]; lia|]
      end.
      cbn [use_cache terms] in Hu1, Ht1. exists c1.
      split; [exact Heq|]. split; [exact Hl1|]. split; [lia|exact Ht1].
    + match goal with
      | |- context [set_cache_times true k ?c'] =>
          destruct (IH c') as (c1 & Heq & Hl1 & Hu1 & Ht1);
            [reflexivity|cbn [use_cache]; lia|]
      end.
      cbn [use_cache terms] in Hu1, Ht1. exists c1.
      split; [exact Heq|]. split; [exact Hl1|]. split; [lia|exact Ht1].
Qed.

Lemma set_cache_times_off (k : nat) (c : cls) :
  locked c = false -> Z.of_nat k <= use_cache c ->
  exists c2,
    set_cache_times false k c = Ret tt c2 /\
    locked c2 = false /\
    use_cache c2 = use_cache c - Z.of_nat k /\
    cache_started c2 = cache_started c /\
    terms c2 = (if (use_cache c - Z.of_nat k =? 0) && (0 <? Z.of_nat k)
                then ∅ else terms c).
Proof.
  revert c. induction k as [|k IH]; intros c Hl Hk.
  - exists c. cbn [set_cache_times]. split; [reflexivity|].
    split; [exact Hl|]. split; [cbn; lia|]. split; [reflexivity|].
    change (Z.of_nat 0) with 0. rewrite andb_false_r. reflexivity.
  - cbn [set_cache_times]. unfold set_cache. rewrite Hl.
    set (n := if use_cache c - 1 <? 0 then 0 else use_cache c - 1).
    assert (Hn : n = use_cache c - 1).
    { unfold n. destruct (Z.ltb_spec (use_cache c - 1) 0); lia. }
    match goal with
    | |- context [set_cache_times false k ?c'] =>
        destruct (IH c') as (c2 & Heq & Hl2 & Hu2 & Hs2 & Ht2);
          [reflexivity|cbn [use_cache]; lia|]
    end.
    cbn [use_cache terms cache_started] in Hu2, Hs2, Ht2. exists c2.
    split; [exact Heq|]. split; [exact Hl2|]. split; [lia|].
    split; [exact Hs2|]. rewrite Ht2.
    assert (Hpos : (0 <? Z.of_nat (S k)) = true) by (apply Z.ltb_lt; lia).
    rewrite Hpos, andb_true_r.
    destruct (Z.eqb_spec (n - Z.of_nat k) 0) as [Hz|Hnz],
             (Z.eqb_spec (use_cache c - Z.of_nat (S k)) 0) as [Hz'|Hnz'];
      try lia; cbn [andb].
    + destruct (Z.ltb_spec 0 (Z.of_nat k)); [reflexivity|].
      destruct (Z.eqb_spec n 0); [reflexivity|lia].
    + destruct (Z.eqb_spec n 0); [lia|reflexivity].
Qed.

(** X13 ([Term.set_cache]): [k] calls that switch the cache on followed
    by [k] calls that switch it off all return and leave the counter
    where it was; the entries of a cache that was on before are all
    kept, and a cache that was off is empty again. *)
Theorem set_cache_calls_nest (k : nat) (c : cls) :
  locked c = false -> 0 <= use_cache c ->
  exists c1 c2,
    set_cache_times true k c = Ret tt c1 /\
    set_cache_times false k c1 = Ret tt c2 /\
    use_cache c2 = use_cache c /\
    terms c2 = (if (use_cache c =? 0) && (0 <? Z.of_nat k)
                then ∅ else terms c).
Proof.
  intros Hl H0.
  destruct (set_cache_times_on k c Hl H0) as (c1 & Hon & Hl1 & Hu1 & Ht1).
  destruct (set_cache_times_off k c1 Hl1) as (c2 & Hoff & _ & Hu2 & _ & Ht2);
    [lia|].
  exists c1, c2. split; [exact Hon|]. split; [exact Hoff|].
  split; [lia|]. rewrite Ht2, Ht1.
  replace (use_cache c1 - Z.of_nat k) with (use_cache c) by lia.
  reflexivity.
Qed.

End Lookups.

(** A cache that was switched on at time 0, with the entry [None] for
    the document 7 *)
Definition cache_with_7 : cls :=
  {| use_cache := 1; terms := {[ 7 := None ]}; cache_started := Some 0;
     ticks := 1%nat; locked := false |}.

Definition unpublished (doc : Z) : res term_doc :=
  Raise (Exception Docs.NO_PUBLISHABLE_VERSIONS).

Lemma cached_entry_is_returned_witness :
  get_term (fun _ => 0) (chain_of 0) 7 0 cache_with_7
  = Ret None (after_lookup cache_with_7).
Proof.
  apply (cached_entry_is_returned (fun _ => 0) (chain_of 0) 7 0 0 None
           cache_with_7).
  - reflexivity.
  - discriminate.
  - reflexivity.
  - vm_compute. discriminate.
  - vm_compute. discriminate.
  - reflexivity.
Defined.

Lemma expired_cache_blocks_get_term_witness :
  exists c',
    get_term (fun _ => 2 * MAX_CACHE_AGE) (chain_of 0) 7 0 cache_with_7
    = Hang c' /\ locked c' = true.
Proof.
  apply (expired_cache_blocks_get_term (fun _ => 2 * MAX_CACHE_AGE)
           (chain_of 0) 7 0 0 cache_with_7).
  - reflexivity.
  - discriminate.
  - reflexivity.
  - vm_compute. reflexivity.
  - vm_compute. discriminate.
Defined.

Lemma unpublished_term_is_none_witness :
  get_term (fun _ => 0) unpublished 8 0 cache_with_7
  = Ret None
        (if use_cache cache_with_7 =? 0 then cache_with_7
         else {| use_cache := use_cache cache_with_7;
                 terms := <[8 := None]> (terms cache_with_7);
                 cache_started := cache_started cache_with_7;
                 ticks := S (ticks cache_with_7); locked := false |}).
Proof.
  apply (unpublished_term_is_none (fun _ => 0) unpublished 8 0
           (Exception Docs.NO_PUBLISHABLE_VERSIONS) cache_with_7).
  - reflexivity.
  - right. exists 0. split; [reflexivity|]. vm_compute. discriminate.
  - vm_compute. discriminate.
  - reflexivity.
  - reflexivity.
  - reflexivity.
Defined.

Lemma set_cache_calls_nest_witness :
  exists c1 c2,
    set_cache_times (fun _ => 0) true 2 cache_with_7 = Ret tt c1 /\
    set_cache_times (fun _ => 0) false 2 c1 = Ret tt c2 /\
    use_cache c2 = use_cache cache_with_7 /\
    terms c2 = (if (use_cache cache_with_7 =? 0) && (0 <? Z.of_nat 2)
                then ∅ else terms cache_with_7).
Proof.
  apply (set_cache_calls_nest (fun _ => 0) 2 cache_with_7).
  - reflexivity.
  - vm_compute. discriminate.
Defined.

End TermCacheFacts.

(** ** More on the builder of queries *)

Module QueryFacts.

Import Db DbFacts.

(** *** The parameters of a rendering *)

Definition parms_of (blocks : list ser) : list value :=
  concat (map parms_ blocks).

Section Parts.

Variable str_rec : Query -> run (string * Query).
Variable cond_rec :
  nat -> ser -> string -> Condition -> string -> string -> run (ser * Condition).
Hypothesis cond_framed :
  forall ind kw c p s, framed (fun st => cond_rec ind st kw c p s).

Lemma serialize_conditions_parms (ind : nat) (conditions : list Condition) :
  forall kw st conditions',
    serialize_conditions cond_rec ind empty_ser kw conditions
      = Done (st, conditions') ->
    exists bs,
      condition_blocks (fun kw c => cond_rec ind empty_ser kw c "" "")
                       kw conditions bs /\
      parms_ st = parms_of bs.
Proof.
  induction conditions as [|c rest IH]; intros kw st conditions';
    cbn [serialize_conditions].
  - intros [= <- <-]. exists []. split; [constructor|reflexivity].
  - destruct (cond_rec ind empty_ser kw c "" "") as [[b c1]| |] eqn:Ec;
      cbn [run_bind]; try discriminate.
    rewrite (serialize_conditions_framed cond_rec cond_framed rest ind "AND" b).
    destruct (serialize_conditions cond_rec ind empty_ser "AND" rest)
      as [[s2 r2]| |] eqn:Er; cbn [shift run_bind]; try discriminate.
    intros [= <- <-]. destruct (IH "AND" s2 r2 Er) as (bs & Hbs & Hq).
    exists (b :: bs). split; [econstructor; eassumption|].
    unfold parms_of in *. cbn [map concat ser_app parms_]. rewrite Hq.
    reflexivity.
Qed.

Lemma serialize_joins_parms (ind : nat) (joins : list Join) :
  forall st joins',
    serialize_joins str_rec cond_rec ind empty_ser joins = Done (st, joins') ->
    exists bs,
      Forall2 (fun j b =>
                 exists j',
                   _serialize_join str_rec cond_rec ind empty_ser j
                     = Done (b, j'))
              joins bs /\
      parms_ st = parms_of bs.
Proof.
  induction joins as [|j rest IH]; intros st joins'; cbn [serialize_joins].
  - intros [= <- <-]. exists []. split; [constructor|reflexivity].
  - destruct (_serialize_join str_rec cond_rec ind empty_ser j)
      as [[b j1]| |] eqn:Ej; cbn [run_bind]; try discriminate.
    rewrite (serialize_joins_framed str_rec cond_rec cond_framed rest ind b).
    destruct (serialize_joins str_rec cond_rec ind empty_ser rest)
      as [[s2 r2]| |] eqn:Er; cbn [shift run_bind]; try discriminate.
    intros [= <- <-]. destruct (IH s2 r2 eq_refl) as (bs & Hbs & Hq).
    exists (b :: bs). split.
    + constructor; [exists j1; exact Ej|exact Hbs].
    + unfold parms_of in *. cbn [map concat ser_app parms_]. rewrite Hq.
      reflexivity.
Qed.

(** The unions hand no parameter to the query they are spliced to. *)
Lemma serialize_unions_parms (ind : nat) (unions : list Query) :
  forall st unions',
    serialize_unions str_rec ind empty_ser unions = Done (st, unions') ->
    parms_ st = [].
Proof.
  induction unions as [|u rest IH]; intros st unions'; cbn [serialize_unions].
  - intros [= <- <-]. reflexivity.
  - destruct (str_rec u) as [[sql u1]| |] eqn:Eu; cbn [run_bind];
      try discriminate.
    rewrite (serialize_unions_framed str_rec rest ind).
    destruct (serialize_unions str_rec ind empty_ser rest)
      as [[s2 r2]| |] eqn:Er; cbn [shift run_bind]; try discriminate.
    intros [= <- <-]. cbn [ser_app parms_ emit empty_ser app].
    apply (IH s2 r2 eq_refl).
Qed.

(** Nor does the [FROM] clause. *)
Lemma serialize_from_parms (ind : nat) (table : source) (st : ser)
  (table' : source) :
  serialize_from str_rec ind empty_ser table = Done (st, table') ->
  parms_ st = [].
Proof.
  unfold serialize_from. destruct table as [name|t].
  - intros [= <- <-]. reflexivity.
  - destruct (negb (truthy (_alias t))); [discriminate|].
    destruct (str_rec t) as [[sql t1]| |]; cbn [run_bind]; try discriminate.
    destruct (negb (is_nil (_parms t1))); [discriminate|]. cbv zeta.
    destruct (str_rec t1) as [[sql2 t2]| |]; cbn [run_bind]; try discriminate.
    intros [= <- <-]. reflexivity.
Qed.

End Parts.

(** X14 ([Query.__str__], [Query.parms]): after a rendering that is not
    served from the cache, the parameters of the query are those of the
    blocks of its joins, then those of the conditions of [_where], then
    those of the conditions of [_having], in the order of the blocks in
    the rendering.  The table and the queries spliced by [union] add
    none: the values for the placeholders of a spliced query are not
    among the parameters. *)
Theorem rendering_parameters (fuel : nat) (q : Query) (s : string)
  (q' : Query) :
  truthy (_str q) = false ->
  __str__ (S fuel) q = Done (s, q') ->
  let ind := padding_of q in
  exists (joins wheres havings : list ser),
    _parms q' = (parms_of joins ++ parms_of wheres ++ parms_of havings)%list /\
    Forall2 (join_block fuel ind) (_joins q) joins /\
    condition_blocks (condition_block fuel ind) "WHERE" (_where q) wheres /\
    condition_blocks (condition_block fuel ind) "HAVING" (_having q) havings.
Proof.
  intros Hfresh H ind. cbn [__str__] in H.
  pose proof (_serialize_condition_framed fuel) as Hfr.
  destruct (str_body_fresh (__str__ fuel) (_serialize_condition fuel) Hfr
              q s q' Hfresh H)
    as (sf & sj & sw & sh & su & t' & j' & w' & h' & u'
        & Hf & Hj & Hw & Hh & Hu & _ & Hq).
  fold ind in Hf, Hj, Hw, Hh, Hu, Hq.
  destruct (serialize_joins_parms (__str__ fuel) (_serialize_condition fuel)
              Hfr ind (_joins q) sj j' Hj) as (joins & Hjb & Hjq).
  destruct (serialize_conditions_parms (_serialize_condition fuel) Hfr ind
              (_where q) "WHERE" sw w' Hw) as (wheres & Hwb & Hwq).
  destruct (serialize_conditions_parms (_serialize_condition fuel) Hfr ind
              (_having q) "HAVING" sh h' Hh) as (havings & Hhb & Hhq).
  exists joins, wheres, havings.
  split; [|split; [exact Hjb|split; [exact Hwb|exact Hhb]]].
  rewrite Hq. cbn [_parms].
  rewrite (serialize_from_parms (__str__ fuel) ind _ sf t' Hf).
  rewrite (serialize_unions_parms (__str__ fuel) ind _ su u' Hu).
  rewrite Hjq, Hwq, Hhq, app_nil_r. reflexivity.
Qed.

Lemma rendering_parameters_witness :
  let ind := padding_of sample in
  exists (joins wheres havings : list ser),
    _parms (snd sample_rendering)
    = (parms_of joins ++ parms_of wheres ++ parms_of havings)%list /\
    Forall2 (join_block 2 ind) (_joins sample) joins /\
    condition_blocks (condition_block 2 ind) "WHERE" (_where sample) wheres /\
    condition_blocks (condition_block 2 ind) "HAVING" (_having sample)
                     havings.
Proof.
  apply (rendering_parameters 2 sample (fst sample_rendering)
           (snd sample_rendering)).
  - reflexivity.
  - vm_compute. reflexivity.
Defined.

(** The rendering of [sample] has the placeholders of the spliced query,
    and the parameters do not have its values 1 and 2. *)
Example spliced_values_are_missing :
  nth 18 (splitlines (fst sample_rendering)) "" = " WHERE id IN (%s, %s)" /\
  _parms (snd sample_rendering) = [VStr "Y"; VStr "2020-01-01"].
Proof. split; vm_compute; reflexivity. Qed.

(** *** The columns of [order] *)

(** What the loop of [order] accepts: at most two words, the second one
    [ASC] or [DESC] in any case of the letters *)
Definition order_column_ok (column : string) : bool :=
  match Py.words (Py.strip column) with
  | _ :: _ :: _ :: _ => false
  | [_; direction] =>
      String.eqb (Py.upper direction) "ASC"
      || String.eqb (Py.upper direction) "DESC"
  | _ => true
  end.

(** What it stores for a column: the words, with one space between *)
Definition stored_order_column (column : string) : string :=
  Py.join " " (Py.words (Py.strip column)).

Definition with_order (o' : list string) (q : Query) : Query :=
  match q with
  | mk_Query t c j w g h _ p u to a i l un _ ou ad ind =>
      mk_Query t c j w g h o' p u to a i l un None ou ad ind
  end.

Lemma order_columns_step (repr : string -> string) (column : string)
  (rest acc : list string) :
  order_columns repr (column :: rest) acc
  = if order_column_ok column
    then order_columns repr rest (acc ++ [stored_order_column column])%list
    else Raise (Exception ("invalid order column "
                           +:+ repr (Py.strip column))).
Proof.
  cbn [order_columns]. unfold order_column_ok, stored_order_column.
  destruct (Py.words (Py.strip column)) as [|w1 [|w2 [|w3 ws]]];
    try reflexivity.
Qed.

Lemma order_columns_app (repr : string -> string) (a b acc : list string) :
  order_columns repr (a ++ b)%list acc
  = let* acc' := order_columns repr a acc in order_columns repr b acc'.
Proof.
  revert acc. induction a as [|c a IH]; intros acc; [reflexivity|].
  rewrite <- app_comm_cons, !order_columns_step.
  destruct (order_column_ok c); [apply IH|reflexivity].
Qed.

Lemma order_columns_find (repr : string -> string) (columns acc : list string) :
  order_columns repr columns acc
  = match List.find (fun c => negb (order_column_ok c)) columns with
    | Some c =>
        Raise (Exception ("invalid order column " +:+ repr (Py.strip c)))
    | None => Ok (acc ++ map stored_order_column columns)%list
    end.
Proof.
  revert acc. induction columns as [|c columns IH]; intros acc.
  - cbn. rewrite app_nil_r. reflexivity.
  - rewrite order_columns_step. cbn [List.find map].
    destruct (order_column_ok c); cbn [negb]; [|reflexivity].
    rewrite IH. destruct (List.find _ columns); [reflexivity|].
    rewrite <- app_assoc. reflexivity.
Qed.

(** X15 ([Query.order]): a call with columns that are strings fails at
    the first column that has more than two words, or two words of which
    the second is neither [ASC] nor [DESC] in some case of the letters,
    with a message that names the column without the white space around
    it; when there is no such column it appends, in their order, the
    words of each column joined by one space (an empty column as the
    empty string), resets the cached rendering and changes nothing
    else. *)
Theorem order_appends_the_words (repr : string -> string)
  (columns : list string) (q : Query) :
  order repr columns q
  = match List.find (fun c => negb (order_column_ok c)) columns with
    | Some c =>
        Raise (Exception ("invalid order column " +:+ repr (Py.strip c)))
    | None =>
        Ok (with_order (_order q ++ map stored_order_column columns)%list q)
    end.
Proof.
  destruct q. unfold order. rewrite order_columns_find. cbn [_order].
  destruct (List.find _ columns); reflexivity.
Qed.

(** X16 ([Query.order]): one call with the columns [a] followed by the
    columns [b] does what a call with [a] followed by a call with [b]
    does, and fails when one of the two fails. *)
Theorem order_calls_compose (repr : string -> string) (a b : list string)
  (q : Query) :
  order repr (a ++ b)%list q
  = let* q1 := order repr a q in order repr b q1.
Proof.
  destruct q as [t c j w g h o p u tmo al i l un st ou ad ind].
  unfold order. rewrite order_columns_app.
  destruct (order_columns repr a o) as [o1|e]; reflexivity.
Qed.

Example order_examples :
  map order_column_ok ["v.dt DESC"; "  name   asc "; "1"; ""; "a b"; "a b c"]
  = [true; true; true; true; false; false] /\
  map stored_order_column ["v.dt DESC"; "  name   asc "; "1"; ""]
  = ["v.dt DESC"; "name asc"; "1"; ""].
Proof. split; vm_compute; reflexivity. Qed.

(** *** The column of the keywords *)

Lemma length_spaces (n : nat) : String.length (spaces n) = n.
Proof. induction n as [|n IH]; [reflexivity|]. cbn. rewrite IH. reflexivity. Qed.

Lemma spaces_add (a b : nat) : spaces (a + b) = spaces a +:+ spaces b.
Proof.
  induction a as [|a IH]; [reflexivity|].
  change (String " " (spaces (a + b)) = String " " (spaces a +:+ spaces b)).
  rewrite IH. reflexivity.
Qed.

Lemma length_app (a b : string) :
  String.length (a +:+ b) = (String.length a + String.length b)%nat.
Proof.
  induction a as [|c a IH]; [reflexivity|].
  change (S (String.length (a +:+ b)) = S (String.length a + String.length b)).
  rewrite IH. reflexivity.
Qed.

Lemma app_assoc_string (a b c : string) : (a +:+ b) +:+ c = a +:+ (b +:+ c).
Proof.
  induction a as [|x a IH]; [reflexivity|].
  change (String x ((a +:+ b) +:+ c) = String x (a +:+ (b +:+ c))).
  rewrite IH. reflexivity.
Qed.

Lemma substring_skip (a b : string) (m n : nat) :
  substring (String.length a + m) n (a +:+ b) = substring m n b.
Proof.
  induction a as [|x a IH]; [reflexivity|].
  change (substring (S (String.length a + m)) n (String x (a +:+ b))
          = substring m n b).
  cbn [substring]. exact IH.
Qed.

Lemma substring_all (s : string) : substring 0 (String.length s) s = s.
Proof.
  induction s as [|c s IH]; [reflexivity|]. cbn [String.length substring].
  rewrite IH. reflexivity.
Qed.

(** [_align] with a keyword that fits: the keyword, moved to the right
    end of a column of [ind] characters *)
Lemma _align_fits (ind : nat) (keyword rest : string) :
  (String.length keyword <= ind)%nat ->
  _align ind keyword rest
  = spaces (ind - String.length keyword) +:+ keyword +:+ " " +:+ rest.
Proof.
  intros Hfit. unfold _align, last_chars.
  destruct (Nat.eqb_spec ind 0) as [Hz|Hnz].
  - subst ind. assert (Hk : String.length keyword = 0%nat) by lia.
    destruct keyword; [reflexivity|discriminate].
  - rewrite length_app, length_spaces.
    replace (ind + String.length keyword - ind)%nat
      with (String.length (spaces (String.length keyword)) + 0)%nat
      by (rewrite length_spaces; lia).
    replace (spaces ind)
      with (spaces (String.length keyword)
            +:+ spaces (ind - String.length keyword))
      by (rewrite <- spaces_add; f_equal; lia).
    rewrite (app_assoc_string (spaces (String.length keyword))),
      substring_skip.
    replace ind with
      (String.length (spaces (ind - String.length keyword) +:+ keyword))
      at 1 by (rewrite length_app, length_spaces; lia).
    rewrite substring_all, app_assoc_string. reflexivity.
Qed.

(** The keywords [__str__] and its helpers write for the query [q] *)
Inductive written_keyword (q : Query) : string -> Prop :=
| written_select : written_keyword q (select_keywords q)
| written_short (keyword : string) :
    In keyword ["INTO"; "FROM"; "JOIN"; "ON"; "WHERE"; "AND"; "OR";
                "HAVING"; "UNION"] ->
    written_keyword q keyword
| written_group : _group q <> [] -> written_keyword q "GROUP BY"
| written_order : _order q <> [] -> written_keyword q "ORDER BY"
| written_outer (table : source) (conditions : list Condition) :
    In (mk_Join table true conditions) (_joins q) ->
    written_keyword q "LEFT OUTER JOIN".

(** The flag [_outer] is set when one of the joins is an outer join, as
    it is in a query that got its joins from [join] and [outer]. *)
Definition outer_flagged (q : Query) : Prop :=
  forall table conditions,
    In (mk_Join table true conditions) (_joins q) -> _outer q = true.

Lemma outer_flagged_init (table : source) (columns : list string) :
  outer_flagged (Query__init__ table columns).
Proof. intros t c []. Qed.

Lemma outer_flagged_kept (q : Query) (c : Condition) (t : source)
  (args : list or_arg) (cols : list (string + list string)) (n : Z)
  (name : string) (u : Query) :
  outer_flagged q ->
  outer_flagged (join t args q) /\ outer_flagged (outer t args q) /\
  outer_flagged (where_ c q) /\ outer_flagged (group cols q) /\
  outer_flagged (having c q) /\ outer_flagged (union u q) /\
  outer_flagged (limit n q) /\ outer_flagged (unique q) /\
  outer_flagged (alias name q) /\ outer_flagged (into name q).
Proof.
  destruct q as [t0 c0 j w g h o p un tmo al i l uq st ou ad ind].
  unfold outer_flagged. cbn. intros H.
  repeat split; try exact H; intros t1 c1 Hin; try reflexivity.
  apply in_app_or in Hin. destruct Hin as [Hin|[Hin|[]]].
  - exact (H t1 c1 Hin).
  - discriminate.
Qed.

Lemma outer_flagged_order (repr : string -> string) (columns : list string)
  (q q' : Query) :
  outer_flagged q -> order repr columns q = Ok q' -> outer_flagged q'.
Proof.
  destruct q as [t0 c0 j w g h o p un tmo al i l uq st ou ad ind].
  unfold order. destruct (order_columns repr columns o) as [o'|e];
    [|discriminate].
  intros H [= <-]. exact H.
Qed.

Lemma widen_le (attribute : bool) (keywords : string) (n : nat) :
  (n <= widen attribute keywords n)%nat /\
  (attribute = true -> String.length keywords <= widen attribute keywords n)%nat.
Proof.
  unfold widen. destruct attribute.
  - destruct (Z.ltb_spec 0 (Z.of_nat (String.length keywords) - Z.of_nat n));
      split; intros; lia.
  - split; [lia|discriminate].
Qed.

Lemma length_select_keywords (q : Query) :
  (6 <= String.length (select_keywords q))%nat.
Proof. unfold select_keywords. rewrite !length_app. cbn. lia. Qed.

Lemma written_keyword_fits (q : Query) (keyword : string) :
  outer_flagged q ->
  written_keyword q keyword ->
  (String.length keyword <= padding_of q)%nat.
Proof.
  intros Hflag. unfold padding_of.
  set (n0 := String.length (select_keywords q)).
  set (n1 := widen (negb (is_nil (_order q))) "ORDER BY" n0).
  set (n2 := widen (_outer q) "LEFT OUTER JOIN" n1).
  destruct (widen_le (negb (is_nil (_order q))) "ORDER BY" n0) as [H1 H1'].
  destruct (widen_le (_outer q) "LEFT OUTER JOIN" n1) as [H2 H2'].
  destruct (widen_le (negb (is_nil (_group q))) "GROUP BY" n2) as [H3 H3'].
  fold n1 in H1, H1', H2, H2'. fold n2 in H2, H2', H3, H3'.
  pose proof (length_select_keywords q) as H6. fold n0 in H6.
  intros [ |kw Hin|Hg|Ho|table conditions Hou].
  - fold n0. lia.
  - cbn [In] in Hin.
    repeat (destruct Hin as [<-|Hin]; [cbn [String.length]; lia|]).
    destruct Hin.
  - assert (Hne : negb (is_nil (_group q)) = true)
      by (destruct (_group q); [contradiction|reflexivity]).
    specialize (H3' Hne). exact H3'.
  - assert (Hne : negb (is_nil (_order q)) = true)
      by (destruct (_order q); [contradiction|reflexivity]).
    specialize (H1' Hne). cbn [String.length] in *. lia.
  - specialize (H2' (Hflag table conditions Hou)).
    cbn [String.length] in *. lia.
Qed.

(** X17 ([Query._align], [Query.__str__], [Query.outer]): with the left
    padding that [__str__] computes for a query whose flag [_outer] is
    set when it has an outer join, none of the keywords written for the
    query is cut: each one is moved to the right end of the column of
    that width, and followed by one space and the rest of its line. *)
Theorem keywords_are_right_aligned (q : Query) (keyword rest : string) :
  outer_flagged q ->
  written_keyword q keyword ->
  _align (padding_of q) keyword rest
  = spaces (padding_of q - String.length keyword) +:+ keyword
    +:+ " " +:+ rest.
Proof.
  intros Hflag Hw. apply _align_fits. exact (written_keyword_fits q _ Hflag Hw).
Qed.

Lemma keywords_are_right_aligned_witness :
  _align (padding_of sample) "LEFT OUTER JOIN" "("
  = spaces (padding_of sample - String.length "LEFT OUTER JOIN")
    +:+ "LEFT OUTER JOIN" +:+ " " +:+ "(".
Proof.
  apply (keywords_are_right_aligned sample "LEFT OUTER JOIN" "(").
  - intros t c _. reflexivity.
  - apply (written_outer sample
             (Virtual (alias "t" (Query__init__ (Plain "doc_type")
                                                ["id"; "name"])))
             [Text "t.id = d.doc_type"]).
    vm_compute. right. left. reflexivity.
Defined.

(** A keyword that is longer than the column loses its first letters. *)
Example long_keyword_is_cut :
  _align 6 "LEFT OUTER JOIN" "t" = "R JOIN t".
Proof. reflexivity. Qed.

(** *** Indented blocks *)











Example indent_example :
  indent ("a" +:+ String CR NL +:+ NL +:+ "b" +:+ String CR "")
  = "    a" +:+ NL +:+ "    " +:+ NL +:+ "    b".
Proof. vm_compute. reflexivity. Qed.

End QueryFacts.

(** ** More of the functions of the resolver *)

Module FunctionsFacts.

Import Resolver Functions.

(** *** The keys of ids *)









Example make_id_key_examples :
  map make_id_key ["cdr0000012345"; "CDR-12345 "; "_a.b"; "--"; String (ascii_of_nat 223) ""]
  = ["CDR0000012345"; "CDR12345"; "AB"; ""; "SS"].
Proof. vm_compute. reflexivity. Qed.

(** *** Ids without duplicates *)

Lemma dedup_loop_acc (secondary ids : list string) (skip : gset string) :
  dedup_loop secondary ids skip = (ids ++ dedup_loop secondary [] skip)%list.
Proof.
  revert ids skip. induction secondary as [|s rest IH]; intros ids skip;
    cbn [dedup_loop].
  - rewrite app_nil_r. reflexivity.
  - destruct (Py.truthy (make_id_key s)
              && negb (bool_decide (make_id_key s ∈ skip))).
    + rewrite (IH (ids ++ [s])%list), (IH ([] ++ [s])%list), <- app_assoc.
      reflexivity.
    + apply IH.
Qed.

Lemma truthy_not_empty (s : string) : Py.truthy s = true <-> s <> "".
Proof.
  destruct s; cbn; split; intros H;
    first [discriminate | contradiction | reflexivity | intros H'; discriminate].
Qed.

Lemma in_added (k k' : string) (skip : gset string) :
  k ∈ {[ k' ]} ∪ skip <-> k = k' \/ k ∈ skip.
Proof. rewrite elem_of_union, elem_of_singleton. tauto. Qed.

(** What the loop keeps: for each key that is not empty and not in
    [skip], the first id of [secondary] with the key. *)
Lemma dedup_loop_spec (secondary : list string) (skip : gset string) :
  let ids := dedup_loop secondary [] skip in
  sublist ids secondary /\
  NoDup (map make_id_key ids) /\
  (forall i, In i ids ->
     make_id_key i <> "" /\ (make_id_key i ∉ skip) /\
     exists before after,
       secondary = (before ++ i :: after)%list /\
       ~ In (make_id_key i) (map make_id_key before)) /\
  (forall s, In s secondary -> make_id_key s <> "" -> make_id_key s ∉ skip ->
     In (make_id_key s) (map make_id_key ids)).
Proof.
  revert skip. induction secondary as [|s rest IH]; intros skip;
    cbn [dedup_loop].
  - cbn zeta. split; [constructor|]. split; [constructor|].
    split; intros ? [].
  - set (k := make_id_key s).
    destruct (Py.truthy k && negb (bool_decide (k ∈ skip))) eqn:Hacc.
    + apply andb_true_iff in Hacc. destruct Hacc as [Hk Hskip].
      apply truthy_not_empty in Hk.
      apply negb_true_iff, bool_decide_eq_false in Hskip.
      rewrite dedup_loop_acc. cbn [app].
      destruct (IH ({[ k ]} ∪ skip)) as (Hsub & Hnd & Hin & Hall).
      set (r := dedup_loop rest [] ({[ k ]} ∪ skip)) in *.
      cbn zeta. split; [apply sublist_skip; exact Hsub|]. split.
      * cbn [map]. apply NoDup_cons. split; [|exact Hnd].
        intros Hk'. apply list_elem_of_In, in_map_iff in Hk'.
        destruct Hk' as (i & Hki & Hi).
        destruct (Hin i Hi) as (_ & Hni & _). apply Hni.
        rewrite Hki. apply in_added. left. reflexivity.
      * split.
        -- intros i [<-|Hi].
           ++ split; [exact Hk|]. split; [exact Hskip|].
              exists [], rest. split; [reflexivity|]. intros [].
           ++ destruct (Hin i Hi) as (Hne & Hni & before & after & -> & Hb).
              split; [exact Hne|].
              split; [intros Hs; apply Hni, in_added; right; exact Hs|].
              exists (s :: before), after. split; [reflexivity|].
              cbn [map In]. intros [Heq|Hb']; [|exact (Hb Hb')].
              apply Hni. fold k in Heq. rewrite <- Heq.
              apply in_added. left. reflexivity.
        -- intros s0 Hs0 Hne Hns. cbn [map In].
           destruct (decide (make_id_key s0 = k)) as [Heq|Hneq];
             [left; symmetry; exact Heq|]. right.
           destruct Hs0 as [<-|Hs0]; [contradiction Hneq; reflexivity|].
           apply (Hall s0 Hs0 Hne). intros Hs. apply in_added in Hs.
           destruct Hs as [Hs|Hs]; contradiction.
    + assert (Hrej : k = "" \/ k ∈ skip).
      { apply andb_false_iff in Hacc. destruct Hacc as [Hk|Hskip].
        - left. destruct k; [reflexivity|discriminate].
        - right. apply negb_false_iff, bool_decide_eq_true in Hskip.
          exact Hskip. }
      destruct (IH skip) as (Hsub & Hnd & Hin & Hall).
      set (r := dedup_loop rest [] skip) in *.
      cbn zeta. split; [apply sublist_cons; exact Hsub|].
      split; [exact Hnd|]. split.
      * intros i Hi.
        destruct (Hin i Hi) as (Hne & Hni & before & after & -> & Hb).
        split; [exact Hne|]. split; [exact Hni|].
        exists (s :: before), after. split; [reflexivity|].
        cbn [map In]. intros [Heq|Hb']; [|exact (Hb Hb')].
        fold k in Heq. destruct Hrej as [Hr|Hr]; congruence.
      * intros s0 [<-|Hs0] Hne Hns.
        -- fold k in Hne, Hns. destruct Hrej; contradiction.
        -- exact (Hall s0 Hs0 Hne Hns).
Qed.

Lemma primary_keys (primary : list string) (acc : gset string) (k : string) :
  k ∈ fold_left (fun skip p => {[ make_id_key p ]} ∪ skip) primary acc <->
  k ∈ acc \/ In k (map make_id_key primary).
Proof.
  revert acc. induction primary as [|p rest IH]; intros acc; cbn [fold_left map In].
  - tauto.
  - rewrite IH, in_added. intuition congruence.
Qed.

(** X20 ([Resolver.dedup_ids], [Resolver.make_id_key]): for an argument
    with the ids of a primary list before the first [~~] and those of a
    secondary list after it, each list separated by [~], the ids of the
    result are ids of the secondary list in their order there; no two of
    them have the same key, none has an empty key or the key of a
    primary id, each is the first id of the secondary list with its key,
    and every key of the secondary list that is not empty and not the
    key of a primary id is the key of one of them. *)
Theorem dedup_ids_keeps_first_of_each_key (args primary secondary : string) :
  split_tildes args = Some (primary, secondary) ->
  let firsts := Py.split "~"%char primary in
  let seconds := Py.split "~"%char secondary in
  let ids := dedup_ids args in
  sublist ids seconds /\
  NoDup (map make_id_key ids) /\
  (forall i, In i ids ->
     make_id_key i <> "" /\
     ~ In (make_id_key i) (map make_id_key firsts) /\
     exists before after,
       seconds = (before ++ i :: after)%list /\
       ~ In (make_id_key i) (map make_id_key before)) /\
  (forall s, In s seconds -> make_id_key s <> "" ->
     ~ In (make_id_key s) (map make_id_key firsts) ->
     In (make_id_key s) (map make_id_key ids)).
Proof.
  intros Hsplit. unfold dedup_ids. rewrite Hsplit. cbv zeta.
  set (skip := fold_left (fun skip p => {[ make_id_key p ]} ∪ skip)
                         (Py.split "~"%char primary) (∅ : gset string)).
  assert (Hskip : forall k, k ∈ skip <->
                    In k (map make_id_key (Py.split "~"%char primary))).
  { intros k. unfold skip. rewrite primary_keys. split; [|auto].
    intros [Hk|Hk]; [|exact Hk]. apply elem_of_empty in Hk. destruct Hk. }
  destruct (dedup_loop_spec (Py.split "~"%char secondary) skip)
    as (Hsub & Hnd & Hin & Hall).
  split; [exact Hsub|]. split; [exact Hnd|]. split.
  - intros i Hi. destruct (Hin i Hi) as (Hne & Hni & Hfirst).
    split; [exact Hne|]. split; [|exact Hfirst].
    intros Hp. apply Hni, Hskip, Hp.
  - intros s Hs Hne Hnp. apply (Hall s Hs Hne). intros Hk.
    apply Hnp, Hskip, Hk.
Qed.

Lemma dedup_ids_keeps_first_of_each_key_witness :
  let firsts := Py.split "~"%char "CDR1~cdr2" in
  let seconds := Py.split "~"%char "cdr-3~CDR2~Cdr3~~cdr4" in
  let ids := dedup_ids "CDR1~cdr2~~cdr-3~CDR2~Cdr3~~cdr4" in
  sublist ids seconds /\
  NoDup (map make_id_key ids) /\
  (forall i, In i ids ->
     make_id_key i <> "" /\
     ~ In (make_id_key i) (map make_id_key firsts) /\
     exists before after,
       seconds = (before ++ i :: after)%list /\
       ~ In (make_id_key i) (map make_id_key before)) /\
  (forall s, In s seconds -> make_id_key s <> "" ->
     ~ In (make_id_key s) (map make_id_key firsts) ->
     In (make_id_key s) (map make_id_key ids)).
Proof.
  apply (dedup_ids_keeps_first_of_each_key
           "CDR1~cdr2~~cdr-3~CDR2~Cdr3~~cdr4" "CDR1~cdr2"
           "cdr-3~CDR2~Cdr3~~cdr4").
  reflexivity.
Defined.

Example dedup_ids_example :
  dedup_ids "CDR1~cdr2~~cdr-3~CDR2~Cdr3~~cdr4" = ["cdr-3"; "cdr4"] /\
  dedup_ids "CDR1~cdr2" = [].
Proof. split; vm_compute; reflexivity. Qed.

(** *** The values of [sql-query] *)

(** no [~] in the string *)
Definition no_tilde (s : string) : bool :=
  IdsFacts.all_chars (fun c => negb (Ascii.eqb c "~"%char)) s.

Lemma contains_tilde_false (s : string) :
  no_tilde s = true -> Py.contains "~" s = false.
Proof.
  induction s as [|c s IH]; [reflexivity|]. unfold no_tilde.
  cbn [IdsFacts.all_chars]. intros H. apply andb_true_iff in H.
  destruct H as [Hc Hs]. apply negb_true_iff in Hc.
  cbn [Py.contains Py.startswith]. rewrite (IH Hs).
  rewrite Ascii.eqb_sym in Hc. rewrite Hc. reflexivity.
Qed.

Lemma contains_tilde_true (s t : string) :
  Py.contains "~" (s +:+ String "~"%char t) = true.
Proof.
  induction s as [|c s IH].
  - cbn. reflexivity.
  - change (Py.contains "~" (String c (s +:+ String "~"%char t)) = true).
    cbn [Py.contains]. rewrite IH. apply orb_true_r.
Qed.

Lemma split_without_sep (s : string) :
  no_tilde s = true -> Py.split "~"%char s = [s].
Proof.
  induction s as [|c s IH]; [reflexivity|]. unfold no_tilde.
  cbn [IdsFacts.all_chars]. intros H. apply andb_true_iff in H.
  destruct H as [Hc Hs]. apply negb_true_iff in Hc.
  cbn [Py.split]. rewrite Hc, (IH Hs). reflexivity.
Qed.

Lemma split_at_sep (s t : string) :
  no_tilde s = true ->
  Py.split "~"%char (s +:+ String "~"%char t) = s :: Py.split "~"%char t.
Proof.
  induction s as [|c s IH]; intros H.
  - change (Py.split "~"%char (String "~"%char t) = "" :: Py.split "~"%char t).
    cbn [Py.split]. rewrite Ascii.eqb_refl. reflexivity.
  - unfold no_tilde in H. cbn [IdsFacts.all_chars] in H.
    apply andb_true_iff in H. destruct H as [Hc Hs].
    apply negb_true_iff in Hc.
    change (Py.split "~"%char (String c (s +:+ String "~"%char t))
            = String c s :: Py.split "~"%char t).
    cbn [Py.split]. rewrite Hc, (IH Hs). reflexivity.
Qed.

(** Values without [~], joined by [~], are split into the same values. *)
Lemma split_join (v : string) (values : list string) :
  Forall (fun v => no_tilde v = true) (v :: values) ->
  Py.split "~"%char (Py.join "~" (v :: values)) = v :: values.
Proof.
  revert v. induction values as [|w rest IH]; intros v H.
  - cbn [Py.join]. apply split_without_sep.
    inversion H; assumption.
  - inversion H as [|? ? Hv Hrest]; subst.
    change (Py.join "~" (v :: w :: rest))
      with (v +:+ String "~"%char (Py.join "~" (w :: rest))).
    rewrite (split_at_sep _ _ Hv), (IH w Hrest). reflexivity.
Qed.

(** X21 ([Resolver.run_sql_query]): an argument made of a statement and
    values, none of which holds a [~], joined by [~], is taken apart
    into the statement and the values.  The statement alone is searched
    for the words of [UNSAFE]; when it passes and has as many [?] as
    there are values, the statement (with the placeholder of the driver
    for each [?]) and the values are what the cursor gets. *)
Theorem run_sql_query_splits_its_argument (PLACEHOLDER query : string)
  (values : list string) :
  no_tilde query = true ->
  Forall (fun v => no_tilde v = true) values ->
  run_sql_query PLACEHOLDER (Py.join "~" (query :: values))
  = if search UNSAFE query then Raise DISALLOWED
    else if negb (Py.count "?"%char query =? Z.of_nat (length values))
    then Raise WRONG_COUNT
    else Ok (if negb (String.eqb PLACEHOLDER "?")
             then replace_qmark PLACEHOLDER query else query,
             values).
Proof.
  intros Hq Hv. unfold run_sql_query. destruct values as [|v rest].
  - cbn [Py.join]. rewrite (contains_tilde_false _ Hq). reflexivity.
  - change (Py.join "~" (query :: v :: rest))
      with (query +:+ String "~"%char (Py.join "~" (v :: rest))).
    rewrite contains_tilde_true.
    destruct (IdsFacts.split1_without_sep "~"%char query Hq) as [_ Hsplit].
    rewrite Hsplit, (split_join v rest Hv). reflexivity.
Qed.

Lemma run_sql_query_splits_its_argument_witness :
  run_sql_query "%s"
    (Py.join "~" ["SELECT id FROM document WHERE id > ? AND title = ?";
                  "5"; "x"])
  = if search UNSAFE "SELECT id FROM document WHERE id > ? AND title = ?"
    then Raise DISALLOWED
    else if negb (Py.count "?"%char
                    "SELECT id FROM document WHERE id > ? AND title = ?"
                  =? Z.of_nat (length ["5"; "x"]))
    then Raise WRONG_COUNT
    else Ok (if negb (String.eqb "%s" "?")
             then replace_qmark "%s"
                    "SELECT id FROM document WHERE id > ? AND title = ?"
             else "SELECT id FROM document WHERE id > ? AND title = ?",
             ["5"; "x"]).
Proof.
  apply (run_sql_query_splits_its_argument "%s"
           "SELECT id FROM document WHERE id > ? AND title = ?" ["5"; "x"]).
  - reflexivity.
  - repeat constructor.
Defined.

Example run_sql_query_example :
  run_sql_query "%s" "SELECT id FROM document WHERE id > ? AND title = ?~5~x"
  = Ok ("SELECT id FROM document WHERE id > %s AND title = %s", ["5"; "x"]).
Proof. vm_compute. reflexivity. Qed.

End FunctionsFacts.

(** ** The XML of a document *)

Module ContentFacts.

Import Docs Content.

(** X22 (the setter of [Doc.xml], [Doc.root], [Doc.version]): after an
    assignment to [xml] the attributes [_root] and [_version] exist and
    hold [None], so from then on [root] returns [None] without parsing
    the new XML, [version] returns [None] whatever the version option and
    the tables are, and [xml] returns the value assigned; the three
    readings leave the object as the assignment left it. *)
Theorem assigned_xml_is_never_parsed (Tree : Type)
  (fromstring : string -> option Tree)
  (stored_xml : Z -> option Z -> option string)
  parse_date int_of_str labeled (db : database)
  (value : option string) (self : DocXml Tree) :
  let self' := set_xml Tree value self in
  root Tree fromstring stored_xml parse_date int_of_str labeled db self'
    = Val (None, self') /\
  version parse_date int_of_str labeled db (doc self')
    = Ok (None, doc self') /\
  xml Tree stored_xml parse_date int_of_str labeled db self'
    = Val (value, self').
Proof. repeat split. Qed.

(** A document that has the XML of a term and no assignment yet is
    parsed; after the assignment of another XML its root is [None]. *)
Example root_before_and_after :
  let fromstring (s : string) := if String.eqb s "<Term/>" then Some 1%nat else None in
  let stored (_ : Z) (_ : option Z) := Some "<Term/>" in
  let d := {| doc := DocsFacts.doc5 "lastp"; opt_xml := None; _xml := None;
              _root := None; _denormalized_xml := None |} in
  (exists d', root nat fromstring stored (fun _ => None) (fun _ => None)
                (fun _ _ => Ok None) DocsFacts.three_versions d
              = Val (Some 1%nat, d')) /\
  root nat fromstring stored (fun _ => None) (fun _ => None)
       (fun _ _ => Ok None) DocsFacts.three_versions
       (set_xml nat (Some "<Term><PreferredName>x</PreferredName></Term>") d)
  = Val (None, set_xml nat (Some "<Term><PreferredName>x</PreferredName></Term>") d).
Proof. split; [eexists; vm_compute; reflexivity|reflexivity]. Qed.

End ContentFacts.

(** ** The parentheses of [Query.Or] *)

Module OrFacts.

Import Db DbFacts.

(** The opening parentheses of a string less its closing ones *)
Definition bal (s : string) : Z :=
  Py.count "("%char s - Py.count ")"%char s.

Definition bal_lines (lines : list string) : Z :=
  fold_right (fun s acc => bal s + acc) 0 lines.

(** A string without parentheses *)
Fixpoint plain (s : string) : bool :=
  match s with
  | EmptyString => true
  | String c s' =>
      negb (Ascii.eqb c "("%char) && negb (Ascii.eqb c ")"%char) && plain s'
  end.

Lemma count_app (c : ascii) (a b : string) :
  Py.count c (a +:+ b) = Py.count c a + Py.count c b.
Proof.
  induction a as [|x a IH]; [reflexivity|].
  change (Py.count c (String x (a +:+ b))
          = Py.count c (String x a) + Py.count c b).
  cbn [Py.count]. rewrite IH. lia.
Qed.

Lemma bal_app (a b : string) : bal (a +:+ b) = bal a + bal b.
Proof. unfold bal. rewrite !count_app. lia. Qed.

Lemma bal_lines_app (a b : list string) :
  bal_lines (a ++ b) = bal_lines a + bal_lines b.
Proof.
  induction a as [|x a IH]; [reflexivity|]. cbn [app bal_lines fold_right].
  fold (bal_lines (a ++ b)). fold (bal_lines a). rewrite IH. lia.
Qed.

Lemma plain_bal (s : string) : plain s = true -> bal s = 0.
Proof.
  unfold bal. induction s as [|c s IH]; [reflexivity|]. cbn [plain Py.count].
  intros H. apply andb_true_iff in H. destruct H as [H Hs].
  apply andb_true_iff in H. destruct H as [Ho Hc].
  apply negb_true_iff in Ho, Hc. rewrite Ho, Hc. specialize (IH Hs). lia.
Qed.

Lemma plain_app (a b : string) : plain (a +:+ b) = plain a && plain b.
Proof.
  induction a as [|x a IH]; [reflexivity|].
  change (plain (String x (a +:+ b)) = plain (String x a) && plain b).
  cbn [plain]. rewrite IH, !andb_assoc. reflexivity.
Qed.

Lemma plain_spaces (n : nat) : plain (spaces n) = true.
Proof. induction n as [|n IH]; [reflexivity|]. cbn. exact IH. Qed.

Lemma plain_substring (s : string) :
  plain s = true -> forall a n, plain (substring a n s) = true.
Proof.
  induction s as [|c s IH]; intros H a n.
  - destruct a, n; reflexivity.
  - cbn [plain] in H. apply andb_true_iff in H. destruct H as [Hc Hs].
    destruct a as [|a].
    + destruct n as [|n]; [reflexivity|]. cbn [substring plain].
      rewrite Hc. exact (IH Hs 0%nat n).
    + cbn [substring]. exact (IH Hs a n).
Qed.

(** The keyword and its padding add no parenthesis to a line. *)
Lemma bal__align (ind : nat) (keyword rest : string) :
  plain keyword = true -> bal (_align ind keyword rest) = bal rest.
Proof.
  intros Hk. unfold _align. rewrite !bal_app.
  assert (Hp : plain (spaces ind +:+ keyword) = true)
    by (rewrite plain_app, plain_spaces, Hk; reflexivity).
  assert (Hl : plain (last_chars ind (spaces ind +:+ keyword)) = true).
  { unfold last_chars. destruct (ind =? 0)%nat; [exact Hp|].
    apply plain_substring. exact Hp. }
  rewrite (plain_bal _ Hl). reflexivity.
Qed.

Lemma plain_placeholders (n : nat) : plain (placeholders n) = true.
Proof.
  unfold placeholders. induction n as [|n IH]; [reflexivity|].
  cbn [repeat]. destruct n as [|n]; [reflexivity|].
  change (Py.join ", " ("%s" :: repeat "%s" (S n)))
    with ("%s" +:+ ", " +:+ Py.join ", " (repeat "%s" (S n))).
  rewrite !plain_app, IH. reflexivity.
Qed.

(** Conditions whose own text has as many opening as closing
    parentheses: SQL strings, tests of a column against a value or a
    list of values, and [Or] sets of such conditions that have an
    argument and no empty sequence *)
Inductive balanced : Condition -> Prop :=
| balanced_text (sql : string) : bal sql = 0 -> balanced (Text sql)
| balanced_single (column : string) (v : value) (test : string) :
    bal column = 0 -> bal test = 0 -> balanced (Cond column (Single v) test)
| balanced_values (column : string) (l : list value) (test : string) :
    bal column = 0 -> bal test = 0 -> balanced (Cond column (Values l) test)
| balanced_or (args : list or_arg) :
    args <> [] -> Forall balanced_arg args -> balanced (Or args)
with balanced_arg : or_arg -> Prop :=
| balanced_one (c : Condition) : balanced c -> balanced_arg (One c)
| balanced_seq (l : list Condition) :
    l <> [] -> Forall balanced l -> balanced_arg (Seq l).

Section OneLevel.

Variable str_rec : Query -> run (string * Query).
Variable cond_rec :
  nat -> ser -> string -> Condition -> string -> string -> run (ser * Condition).

(** What a condition adds to the balance of the lines: the balance of
    the prefix and of the suffix it is given *)
Hypothesis cond_bal :
  forall c, balanced c ->
  forall ind st kw p s st' c',
    plain kw = true ->
    cond_rec ind st kw c p s = Done (st', c') ->
    bal_lines (query st') = bal_lines (query st) + bal p + bal s.

Lemma or_seq_bal (l : list Condition) :
  Forall balanced l ->
  forall ind suffix last_or st kw op cl st' cl' l',
    plain kw = true ->
    (l <> [] -> cl = "") ->
    or_seq cond_rec ind suffix last_or st kw op cl l = Done (st', (cl', l')) ->
    bal_lines (query st')
    = bal_lines (query st)
      + (if is_nil l then 0
         else bal op + (if last_or then bal suffix - 1 else 0)) /\
    cl' = (if is_nil l then cl
           else if last_or then suffix +:+ ")" else "").
Proof.
  induction 1 as [|c rest Hc Hrest IH];
    intros ind suffix last_or st kw op cl st' cl' l' Hkw Hcl; cbn [or_seq].
  - intros [= <- <- <-]. cbn [is_nil]. split; [lia|reflexivity].
  - rewrite (Hcl ltac:(discriminate)).
    set (close := if last_or && is_nil rest then suffix +:+ ")" else "").
    destruct (cond_rec ind st kw c op close) as [[st1 c1]| |] eqn:E1;
      cbn [run_bind]; try discriminate.
    destruct (or_seq cond_rec ind suffix last_or st1 "AND" "" close rest)
      as [[st2 [cl2 r2]]| |] eqn:E2; cbn [run_bind]; try discriminate.
    intros [= <- <- <-]. cbn [is_nil].
    pose proof (cond_bal c Hc ind st kw op close st1 c1 Hkw E1) as H1.
    assert (Hclose : rest <> [] -> close = "").
    { intros Hne. unfold close. destruct rest; [contradiction|].
      cbn [is_nil]. rewrite andb_false_r. reflexivity. }
    destruct (IH ind suffix last_or st1 "AND" "" close st2 cl2 r2
                eq_refl Hclose E2) as [H2 H3].
    rewrite H2, H1, H3. unfold close. destruct rest as [|c2 rest'];
      cbn [is_nil]; destruct last_or; cbn [andb];
      rewrite ?bal_app; change (bal "") with 0; change (bal ")") with (-1);
      split; (lia || reflexivity).
Qed.

Lemma or_args_bal (args : list or_arg) :
  Forall balanced_arg args ->
  forall ind suffix st kw op cl st' args',
    plain kw = true ->
    (args <> [] -> cl = "") ->
    or_args cond_rec ind suffix st kw op cl args = Done (st', args') ->
    bal_lines (query st')
    = bal_lines (query st)
      + (if is_nil args then 0 else bal op + bal suffix - 1).
Proof.
  induction 1 as [|a rest Ha Hrest IH];
    intros ind suffix st kw op cl st' args' Hkw Hcl; cbn [or_args].
  - intros [= <- <-]. cbn [is_nil]. lia.
  - rewrite (Hcl ltac:(discriminate)). cbn [is_nil].
    destruct Ha as [c Hc|l Hne Hl].
    + set (close := if is_nil rest then suffix +:+ ")" else "").
      destruct (cond_rec ind st kw c op close) as [[st1 c1]| |] eqn:E1;
        cbn [run_bind]; try discriminate.
      destruct (or_args cond_rec ind suffix st1 "OR" "" close rest)
        as [[st2 r2]| |] eqn:E2; cbn [run_bind]; try discriminate.
      intros [= <- <-].
      pose proof (cond_bal c Hc ind st kw op close st1 c1 Hkw E1) as H1.
      assert (Hclose : rest <> [] -> close = "").
      { intros Hr. unfold close. destruct rest; [contradiction|reflexivity]. }
      rewrite (IH ind suffix st1 "OR" "" close st2 r2 eq_refl Hclose E2), H1.
      unfold close. destruct rest; cbn [is_nil];
        rewrite ?bal_app; change (bal "") with 0; change (bal ")") with (-1);
        lia.
    + destruct (or_seq cond_rec ind suffix (is_nil rest) st kw op "" l)
        as [[st1 [close1 l1]]| |] eqn:E1; cbn [run_bind]; try discriminate.
      destruct (or_args cond_rec ind suffix st1 "OR" "" close1 rest)
        as [[st2 r2]| |] eqn:E2; cbn [run_bind]; try discriminate.
      intros [= <- <-].
      destruct (or_seq_bal l Hl ind suffix (is_nil rest) st kw op "" st1
                  close1 l1 Hkw (fun _ => eq_refl) E1) as [H1 H1'].
      assert (Hl' : is_nil l = false) by (destruct l; [contradiction|reflexivity]).
      rewrite Hl' in H1, H1'.
      assert (Hclose : rest <> [] -> close1 = "").
      { intros Hr. rewrite H1'. destruct rest; [contradiction|reflexivity]. }
      rewrite (IH ind suffix st1 "OR" "" close1 st2 r2 eq_refl Hclose E2), H1.
      destruct rest; cbn [is_nil]; change (bal "") with 0; lia.
Qed.

Lemma serialize_condition_body_bal (c : Condition) :
  balanced c ->
  forall ind st kw p s st' c',
    plain kw = true ->
    serialize_condition_body str_rec cond_rec ind st kw c p s
      = Done (st', c') ->
    bal_lines (query st') = bal_lines (query st) + bal p + bal s.
Proof.
  intros Hc ind st kw p s st' c' Hkw. unfold serialize_condition_body.
  destruct Hc as [sql Hsql|column v test Hcol Htest|column l test Hcol Htest
                 |args Hne Hargs].
  - intros [= <- _]. cbn [emit query]. rewrite bal_lines_app.
    cbn [bal_lines fold_right]. rewrite (bal__align _ _ _ Hkw), !bal_app. lia.
  - destruct (is_in test); cbn [is_nil]; intros [= <- _];
      cbn [add_parms emit query]; rewrite bal_lines_app;
      cbn [bal_lines fold_right]; rewrite (bal__align _ _ _ Hkw), !bal_app;
      rewrite ?(plain_bal _ (plain_placeholders _));
      change (bal " ") with 0; change (bal " (") with 1;
      change (bal ")") with (-1); change (bal " %s") with 0; lia.
  - destruct (is_in test); [|discriminate].
    destruct (is_nil l); [discriminate|]. intros [= <- _].
    cbn [add_parms emit query]. rewrite bal_lines_app.
    cbn [bal_lines fold_right]. rewrite (bal__align _ _ _ Hkw), !bal_app.
    rewrite (plain_bal _ (plain_placeholders _)).
    change (bal " ") with 0. change (bal " (") with 1.
    change (bal ")") with (-1). lia.
  - unfold _serialize_or_set.
    destruct (or_args cond_rec ind s st kw ("(" +:+ p) "" args)
      as [[st1 args1]| |] eqn:E; cbn [run_bind]; try discriminate.
    intros [= <- _].
    rewrite (or_args_bal args Hargs ind s st kw ("(" +:+ p) "" st1 args1
               Hkw (fun _ => eq_refl) E).
    assert (Hn : is_nil args = false)
      by (destruct args; [contradiction|reflexivity]).
    rewrite Hn, bal_app. change (bal "(") with 1. lia.
Qed.

End OneLevel.

Lemma _serialize_condition_bal (fuel : nat) :
  forall c, balanced c ->
  forall ind st kw p s st' c',
    plain kw = true ->
    _serialize_condition fuel ind st kw c p s = Done (st', c') ->
    bal_lines (query st') = bal_lines (query st) + bal p + bal s.
Proof.
  induction fuel as [|fuel IH]; intros c Hc ind st kw p s st' c' Hkw;
    cbn [_serialize_condition]; [discriminate|].
  apply (serialize_condition_body_bal (__str__ fuel)
           (_serialize_condition fuel) IH c Hc ind st kw p s st' c' Hkw).
Qed.

(** X23 ([Query._serialize_or_set], [Query._serialize_condition]): the
    lines written for a condition made of SQL strings, of tests of a
    column against a value or a list of values, and of [Or] sets of
    such conditions, nested to any depth, with an argument in every set
    and no empty sequence, have as many opening as closing parentheses
    when the strings, columns and tests have. *)
Theorem or_sets_are_parenthesized (fuel ind : nat) (kw : string)
  (c c' : Condition) (b : ser) :
  balanced c ->
  plain kw = true ->
  _serialize_condition fuel ind empty_ser kw c "" "" = Done (b, c') ->
  bal_lines (query b) = 0.
Proof.
  intros Hc Hkw H.
  rewrite (_serialize_condition_bal fuel c Hc ind empty_ser kw "" "" b c'
             Hkw H).
  reflexivity.
Qed.

(** A set of a test, a sequence and a set inside the sequence *)
Definition or_sample : Condition :=
  Or [One (Cond "a" (Single (VInt 1)) "=");
      Seq [Text "b = 2"; Or [One (Text "c IS NULL"); One (Text "d > 0")]]].

Definition or_sample_block : ser * Condition :=
  Eval vm_compute in
    match _serialize_condition 3 6 empty_ser "WHERE" or_sample "" "" with
    | Done r => r
    | _ => (empty_ser, or_sample)
    end.

Lemma or_sets_are_parenthesized_witness :
  bal_lines (query (fst or_sample_block)) = 0.
Proof.
  apply (or_sets_are_parenthesized 3 6 "WHERE" or_sample
           (snd or_sample_block) (fst or_sample_block)).
  - apply balanced_or; [discriminate|].
    repeat constructor; discriminate.
  - reflexivity.
  - vm_compute. reflexivity.
Defined.

Example or_sample_lines :
  query (fst or_sample_block)
  = [ " WHERE a (= %s";
      "    OR b = 2";
      "   AND (c IS NULL";
      "    OR d > 0))" ].
Proof. vm_compute. reflexivity. Qed.

(** X24 ([Query._serialize_condition], [Query._serialize_or_set]): when
    the first argument of an [Or] set is a test of a column against one
    value, the parenthesis that opens the set is written after the
    column, between the column and the test, and not before the
    column. *)
Theorem or_set_opens_after_the_column (fuel ind : nat)
  (kw column test : string) (v : value) (rest : list or_arg)
  (b : ser) (c' : Condition) :
  is_in test = false ->
  _serialize_condition (S (S fuel)) ind empty_ser kw
    (Or (One (Cond column (Single v) test) :: rest)) "" "" = Done (b, c') ->
  exists lines,
    query b
    = _align ind kw (column +:+ " (" +:+ test +:+ " %s"
                     +:+ (if is_nil rest then ")" else ""))
      :: lines.
Proof.
  intros Htest. cbn [_serialize_condition].
  unfold serialize_condition_body at 1. unfold _serialize_or_set.
  cbn [or_args]. cbn [_serialize_condition].
  unfold serialize_condition_body at 1. rewrite Htest. cbn [run_bind].
  match goal with
  | |- context [or_args ?f ind "" ?st "OR" "" ?cl rest] =>
      rewrite (or_args_framed f (_serialize_condition_framed (S fuel)) rest
                 ind "" "OR" "" cl st);
      destruct (or_args f ind "" empty_ser "OR" "" cl rest) as [[b2 r2]| |]
  end; cbn [shift run_bind]; try discriminate.
  intros [= <- _]. exists (query b2).
  cbn [ser_app add_parms emit query empty_ser app].
  f_equal. f_equal.
  rewrite !QueryFacts.app_assoc_string.
  destruct rest; reflexivity.
Qed.

Lemma or_set_opens_after_the_column_witness :
  exists lines,
    query (fst or_sample_block)
    = _align 6 "WHERE" ("a" +:+ " (" +:+ "=" +:+ " %s"
                        +:+ (if is_nil
                                  [Seq [Text "b = 2";
                                        Or [One (Text "c IS NULL");
                                            One (Text "d > 0")]]]
                             then ")" else ""))
      :: lines.
Proof.
  apply (or_set_opens_after_the_column 1 6 "WHERE" "a" "=" (VInt 1)
           [Seq [Text "b = 2";
                 Or [One (Text "c IS NULL"); One (Text "d > 0")]]]
           (fst or_sample_block) (snd or_sample_block)).
  - reflexivity.
  - vm_compute. reflexivity.
Defined.

End OrFacts.

(** ** The version before a date *)

Module BeforeFacts.

Import Docs DocsFacts.

(** The version numbers of the versions of a document created before
    [when] *)
Definition versions_before (db : database) (doc when : Z) : list Z :=
  map v_num
      (filter (fun r => (v_id r =? doc) && (v_dt r <? when)) (doc_version db)).

Lemma in_versions_before (db : database) (doc when n : Z) :
  In n (versions_before db doc when) <->
  exists r, In r (doc_version db) /\ v_id r = doc /\ v_dt r < when
            /\ v_num r = n.
Proof.
  unfold versions_before. rewrite in_map_iff. split.
  - intros (r & Hn & Hr). apply list_elem_of_In, list_elem_of_filter in Hr.
    destruct Hr as [Hp Hr]. apply list_elem_of_In in Hr.
    apply Is_true_true, andb_true_iff in Hp. destruct Hp as [Hid Hdt].
    exists r. repeat split; auto; lia.
  - intros (r & Hr & Hid & Hdt & Hn). exists r. split; [assumption|].
    apply list_elem_of_In, list_elem_of_filter.
    split; [|apply list_elem_of_In; assumption].
    apply Is_true_true, andb_true_iff. split; lia.
Qed.

(** A date that cannot be parsed is refused. *)
Lemma version_before_unparsed parse_date int_of_str labeled (db : database)
  (self : Doc) (spec date : string) :
  id self <> 0 -> _version self = None -> opt_version self = PyStr spec ->
  Py.lower spec = "before " +:+ date ->
  parse_date date = None ->
  version parse_date int_of_str labeled db self
  = Raise (Exception "unrecognized date/time format").
Proof.
  intros Hid Hcache Hopt Hlow Hdate. unfold version.
  rewrite Hcache, Hopt. cbn [falsy].
  destruct (Z.eqb_spec (id self) 0) as [|_]; [contradiction|].
  assert (Ht : Py.truthy spec = true).
  { destruct spec; [discriminate|reflexivity]. }
  rewrite Ht, Hlow. cbn [negb].
  change (String.eqb ("before " +:+ date) "current") with false.
  change (String.eqb ("before " +:+ date) "last") with false.
  change (String.eqb ("before " +:+ date) "lastversion") with false.
  change (Py.startswith "lastp" ("before " +:+ date)) with false.
  change (Py.startswith "before " ("before " +:+ date)) with true.
  change (Py.split1 " "%char ("before " +:+ date))
    with (let '(h, t) := Py.split1 " "%char (" " +:+ date) in
          (String "b" (String "e" (String "f" (String "o" (String "r"
             (String "e" h))))), t)).
  cbn [orb]. change (Py.split1 " "%char (" " +:+ date)) with ("", Some date).
  cbv iota beta. unfold get_version_before. rewrite Hdate. reflexivity.
Qed.

(** X25 ([Doc.version], [Doc.__get_version_before]): for a document (its
    id is not 0) whose version is not resolved yet, the specifier
    [before] followed by a space and a date, in any case of the letters,
    fails with the message of the date format when the date (in lower
    case) cannot be parsed; otherwise it resolves to the greatest
    version number among the versions of the document created strictly
    before the date, publishable or not, and to [None] when there is no
    such version. *)
Theorem before_resolves_to_latest_earlier_version parse_date int_of_str
  labeled (db : database) (self : Doc) (spec date : string) :
  id self <> 0 -> _version self = None -> opt_version self = PyStr spec ->
  Py.lower spec = "before " +:+ date ->
  match parse_date date with
  | None =>
      version parse_date int_of_str labeled db self
      = Raise (Exception "unrecognized date/time format")
  | Some when =>
      (exists r,
          In r (doc_version db) /\ v_id r = id self /\ v_dt r < when /\
          (forall r', In r' (doc_version db) -> v_id r' = id self ->
                      v_dt r' < when -> v_num r' <= v_num r) /\
          version parse_date int_of_str labeled db self
          = Ok (Some (v_num r), set__version self (Some (v_num r))))
      \/
      ((forall r, In r (doc_version db) -> v_id r = id self ->
                  when <= v_dt r) /\
       version parse_date int_of_str labeled db self
       = Ok (None, set__version self None))
  end.
Proof.
  intros Hid Hcache Hopt Hlow.
  destruct (parse_date date) as [when|] eqn:Hdate.
  - pose proof (version_before parse_date int_of_str labeled db self spec
                  date when Hid Hcache Hopt Hlow Hdate) as Hv.
    cbv zeta in Hv. fold (versions_before db (id self) when) in Hv.
    rewrite Hv.
    destruct (sql_max (versions_before db (id self) when)) as [n|] eqn:E.
    + left. apply sql_max_Some in E. destruct E as [Hin Hmax].
      apply in_versions_before in Hin.
      destruct Hin as (r & Hr & Hrid & Hdt & <-).
      exists r. repeat split; auto.
      intros r' Hr' Hid' Hdt'. apply Hmax. apply in_versions_before.
      exists r'. auto.
    + right. split; [|reflexivity].
      apply sql_max_None in E. intros r Hr Hrid.
      destruct (Z.lt_ge_cases (v_dt r) when) as [Hlt|Hge]; [|exact Hge].
      assert (Hin : In (v_num r) (versions_before db (id self) when)).
      { apply in_versions_before. exists r. auto. }
      rewrite E in Hin. destruct Hin.
  - apply (version_before_unparsed parse_date int_of_str labeled db self
             spec date Hid Hcache Hopt Hlow Hdate).
Qed.

Lemma before_resolves_to_latest_earlier_version_witness :
  match (fun _ : string => Some 250) "2000-01-01" with
  | None =>
      version (fun _ => Some 250) (fun _ => None) (fun _ _ => Ok None)
              three_versions (doc5 "Before 2000-01-01")
      = Raise (Exception "unrecognized date/time format")
  | Some when =>
      (exists r,
          In r (doc_version three_versions) /\ v_id r = id (doc5 "Before 2000-01-01") /\
          v_dt r < when /\
          (forall r', In r' (doc_version three_versions) ->
                      v_id r' = id (doc5 "Before 2000-01-01") ->
                      v_dt r' < when -> v_num r' <= v_num r) /\
          version (fun _ => Some 250) (fun _ => None) (fun _ _ => Ok None)
                  three_versions (doc5 "Before 2000-01-01")
          = Ok (Some (v_num r),
                set__version (doc5 "Before 2000-01-01") (Some (v_num r))))
      \/
      ((forall r, In r (doc_version three_versions) ->
                  v_id r = id (doc5 "Before 2000-01-01") -> when <= v_dt r) /\
       version (fun _ => Some 250) (fun _ => None) (fun _ _ => Ok None)
               three_versions (doc5 "Before 2000-01-01")
       = Ok (None, set__version (doc5 "Before 2000-01-01") None))
  end.
Proof.
  apply (before_resolves_to_latest_earlier_version (fun _ => Some 250)
           (fun _ => None) (fun _ _ => Ok None) three_versions
           (doc5 "Before 2000-01-01") "Before 2000-01-01" "2000-01-01").
  - discriminate.
  - reflexivity.
  - reflexivity.
  - reflexivity.
Defined.

End BeforeFacts.
